(** * stream_json: the incremental key/value scanner and the streaming writer

  A shallow embedding of [src/stream_json_parse.c] and
  [src/stream_json_write.c], and the properties of the two engines. *)

From Stdlib Require Import ZArith List Ascii String Bool Lia.
From Stdlib Require Import DecimalString SpecFloat.
From stdpp Require Import base list.
Import ListNotations.

Open Scope Z_scope.

(** ** Characters *)

Module Ch.

Definition quote : ascii := "034"%char.
Definition backslash : ascii := "092"%char.
Definition nul : ascii := "000"%char.
Definition lbrace : ascii := "{"%char.
Definition rbrace : ascii := "}"%char.
Definition lbracket : ascii := "["%char.
Definition rbracket : ascii := "]"%char.
Definition comma : ascii := ","%char.
Definition colon : ascii := ":"%char.

(** The bytes of a literal, and the same between double quotes. *)
Definition s (x : string) : list ascii := list_ascii_of_string x.
Definition q (x : list ascii) : list ascii := quote :: x ++ [quote].

End Ch.

(** ** The scanner ([stream_json_parse.c]) *)

Module Parse.

Inductive parse_state_enum_t :=
| PARSE_STATE_SEEKING_KEY
| PARSE_STATE_IN_KEY
| PARSE_STATE_SEEKING_COLON
| PARSE_STATE_SEEKING_VALUE
| PARSE_STATE_IN_VALUE.

(** The value of an enumerator, as C numbers them. *)
Definition enum_value (p : parse_state_enum_t) : Z :=
  match p with
  | PARSE_STATE_SEEKING_KEY => 0
  | PARSE_STATE_IN_KEY => 1
  | PARSE_STATE_SEEKING_COLON => 2
  | PARSE_STATE_SEEKING_VALUE => 3
  | PARSE_STATE_IN_VALUE => 4
  end.

Definition KEY_BUFFER_SIZE : Z := 64.

(** [json_parse_state_t].  [parse_buffer] holds the [parse_buffer_len]
    valid bytes of the receive buffer, so the length is the list's; the
    bytes of the region past the length (among them the terminator that
    a shift writes there) are never read by the scanner and are left
    out, as is the capacity, which only the caller uses.  The [int]
    counters are bounded by the number of bytes scanned, itself an
    [int], so they are plain integers here. *)
Record json_parse_state_t := mk_state {
  state : parse_state_enum_t;
  key_buffer : list ascii;
  key_pos : Z;
  bracket_depth : Z;
  brace_depth : Z;
  in_quotes : bool;
  escape_next : bool;
  value_start : Z;
  value_len : Z;
  parse_buffer : list ascii
}.

Definition parse_buffer_len (p : json_parse_state_t) : Z :=
  Z.of_nat (length (parse_buffer p)).

Definition is_whitespace (c : ascii) : bool :=
  Ascii.eqb c " " || Ascii.eqb c "009" || Ascii.eqb c "010" || Ascii.eqb c "013".

Definition reset_value_tracking_for_parse_state (p : json_parse_state_t)
  : json_parse_state_t :=
  {| state := PARSE_STATE_SEEKING_KEY;
     key_buffer := key_buffer p;
     key_pos := 0;
     bracket_depth := 0;
     brace_depth := 0;
     in_quotes := false;
     escape_next := false;
     value_start := 0;
     value_len := 0;
     parse_buffer := parse_buffer p |}.

Definition reset_json_parse_state (p : json_parse_state_t)
  : json_parse_state_t :=
  let p1 := reset_value_tracking_for_parse_state p in
  {| state := state p1;
     key_buffer := repeat Ch.nul (Z.to_nat KEY_BUFFER_SIZE);
     key_pos := key_pos p1;
     bracket_depth := bracket_depth p1;
     brace_depth := brace_depth p1;
     in_quotes := in_quotes p1;
     escape_next := escape_next p1;
     value_start := value_start p1;
     value_len := value_len p1;
     parse_buffer := [] |}.

(** [shift_buffer_by_len]: the bytes from [shift_len] on move to the
    front.  Both callers pass a [shift_len] within the buffer after a
    scan (the index of the byte just seen, plus one). *)
Definition shift_buffer_by_len (p : json_parse_state_t) (shift_len : Z)
  : json_parse_state_t :=
  reset_value_tracking_for_parse_state
    {| state := state p;
       key_buffer := key_buffer p;
       key_pos := key_pos p;
       bracket_depth := bracket_depth p;
       brace_depth := brace_depth p;
       in_quotes := in_quotes p;
       escape_next := escape_next p;
       value_start := value_start p;
       value_len := value_len p;
       parse_buffer := skipn (Z.to_nat shift_len) (parse_buffer p) |}.

Definition check_remaining_buffer (p : json_parse_state_t) : Z :=
  if forallb is_whitespace (parse_buffer p) then 1 else 0.

(** Field updates of the scan loop. *)
Definition set_state (v : parse_state_enum_t) (p : json_parse_state_t) :=
  mk_state v (key_buffer p) (key_pos p) (bracket_depth p) (brace_depth p)
           (in_quotes p) (escape_next p) (value_start p) (value_len p)
           (parse_buffer p).
Definition set_key (kb : list ascii) (kp : Z) (p : json_parse_state_t) :=
  mk_state (state p) kb kp (bracket_depth p) (brace_depth p)
           (in_quotes p) (escape_next p) (value_start p) (value_len p)
           (parse_buffer p).
Definition set_bracket_depth (v : Z) (p : json_parse_state_t) :=
  mk_state (state p) (key_buffer p) (key_pos p) v (brace_depth p)
           (in_quotes p) (escape_next p) (value_start p) (value_len p)
           (parse_buffer p).
Definition set_brace_depth (v : Z) (p : json_parse_state_t) :=
  mk_state (state p) (key_buffer p) (key_pos p) (bracket_depth p) v
           (in_quotes p) (escape_next p) (value_start p) (value_len p)
           (parse_buffer p).
Definition set_in_quotes (v : bool) (p : json_parse_state_t) :=
  mk_state (state p) (key_buffer p) (key_pos p) (bracket_depth p)
           (brace_depth p) v (escape_next p) (value_start p) (value_len p)
           (parse_buffer p).
Definition set_escape_next (v : bool) (p : json_parse_state_t) :=
  mk_state (state p) (key_buffer p) (key_pos p) (bracket_depth p)
           (brace_depth p) (in_quotes p) v (value_start p) (value_len p)
           (parse_buffer p).
Definition set_value_start (v : Z) (p : json_parse_state_t) :=
  mk_state (state p) (key_buffer p) (key_pos p) (bracket_depth p)
           (brace_depth p) (in_quotes p) (escape_next p) v (value_len p)
           (parse_buffer p).
Definition set_value_len (v : Z) (p : json_parse_state_t) :=
  mk_state (state p) (key_buffer p) (key_pos p) (bracket_depth p)
           (brace_depth p) (in_quotes p) (escape_next p) (value_start p) v
           (parse_buffer p).

(** What one turn of the [for] loop does: go on to the next byte
    ([continue], [break] out of the [switch]) or [return]. *)
Inductive turn :=
| Next (p : json_parse_state_t)
| Return (code : Z) (p : json_parse_state_t).

Definition seeking_key (p : json_parse_state_t) (i : Z) (c : ascii) : turn :=
  if Ascii.eqb c Ch.quote then Next (set_state PARSE_STATE_IN_KEY p)
  else if Ascii.eqb c Ch.rbrace then
    let p1 := shift_buffer_by_len p (i + 1) in
    if check_remaining_buffer p1 =? 0 then Return (-1) p1 else Return 0 p1
  else if negb (is_whitespace c) && negb (Ascii.eqb c Ch.lbrace) then
    Return (-1) (reset_json_parse_state p)
  else Next p.

Definition in_key (p : json_parse_state_t) (c : ascii) : turn :=
  if Ascii.eqb c Ch.quote then
    Next (set_state PARSE_STATE_SEEKING_COLON
            (set_key (<[Z.to_nat (key_pos p) := Ch.nul]> (key_buffer p))
                     (key_pos p) p))
  else if key_pos p <? KEY_BUFFER_SIZE - 1 then
    Next (set_key (<[Z.to_nat (key_pos p) := c]> (key_buffer p))
                  (key_pos p + 1) p)
  else Next p.

Definition seeking_colon (p : json_parse_state_t) (c : ascii) : turn :=
  if Ascii.eqb c Ch.colon then Next (set_state PARSE_STATE_SEEKING_VALUE p)
  else if negb (is_whitespace c) then Return (-1) (reset_json_parse_state p)
  else Next p.

Definition seeking_value (p : json_parse_state_t) (i : Z) (c : ascii) : turn :=
  if negb (is_whitespace c) then
    let p1 := set_value_start i (set_state PARSE_STATE_IN_VALUE p) in
    if Ascii.eqb c Ch.quote then Next (set_in_quotes true p1)
    else if Ascii.eqb c Ch.lbrace then Next (set_brace_depth 1 p1)
    else if Ascii.eqb c Ch.lbracket then Next (set_bracket_depth 1 p1)
    else Next p1
  else Next p.

Definition in_value (p : json_parse_state_t) (i : Z) (c : ascii) : turn :=
  let p1 :=
    if Ascii.eqb c Ch.quote && negb (escape_next p)
    then set_in_quotes (negb (in_quotes p)) p else p in
  if in_quotes p1 then Next p1
  else if (brace_depth p1 =? 0) && (bracket_depth p1 =? 0)
          && (Ascii.eqb c Ch.comma || Ascii.eqb c Ch.rbrace) then
    Return 1 (set_value_len (i - value_start p1) p1)
  else if Ascii.eqb c Ch.lbrace then
    Next (set_brace_depth (brace_depth p1 + 1) p1)
  else if Ascii.eqb c Ch.rbrace then
    Next (set_brace_depth (brace_depth p1 - 1) p1)
  else if Ascii.eqb c Ch.lbracket then
    Next (set_bracket_depth (bracket_depth p1 + 1) p1)
  else if Ascii.eqb c Ch.rbracket then
    Next (set_bracket_depth (bracket_depth p1 - 1) p1)
  else Next p1.

(** The body of the loop at index [i], on the byte [c]. *)
Definition scan_byte (p : json_parse_state_t) (i : Z) (c : ascii) : turn :=
  if escape_next p then Next (set_escape_next false p)
  else if Ascii.eqb c Ch.backslash && in_quotes p then
    Next (set_escape_next true p)
  else
    match state p with
    | PARSE_STATE_SEEKING_KEY => seeking_key p i c
    | PARSE_STATE_IN_KEY => in_key p c
    | PARSE_STATE_SEEKING_COLON => seeking_colon p c
    | PARSE_STATE_SEEKING_VALUE => seeking_value p i c
    | PARSE_STATE_IN_VALUE => in_value p i c
    end.

(** The loop from index [i] over the bytes [rest] still to read; falling
    off the end returns 0.  The buffer only changes on a path that
    returns, so the bytes read are those of the buffer at entry. *)
Fixpoint scan_from (p : json_parse_state_t) (i : Z) (rest : list ascii)
  : Z * json_parse_state_t :=
  match rest with
  | [] => (0, p)
  | c :: rest' =>
      match scan_byte p i c with
      | Next p' => scan_from p' (i + 1) rest'
      | Return code p' => (code, p')
      end
  end.

(** C's [!x] on an integer. *)
Definition c_not (x : Z) : Z := if x =? 0 then 1 else 0.

(** [find_key_value_pair]; the entry test is
    [!p_state->state == PARSE_STATE_SEEKING_KEY] as C parses it. *)
Definition find_key_value_pair (p : json_parse_state_t)
  : Z * json_parse_state_t :=
  if c_not (enum_value (state p)) =? enum_value PARSE_STATE_SEEKING_KEY
  then (-1, p)
  else scan_from p 0 (parse_buffer p).

Definition shift_parse_buffer_by_key_value (p : json_parse_state_t)
  : json_parse_state_t :=
  if (parse_buffer_len p =? 0) || (value_len p <=? 0) then p
  else shift_buffer_by_len p (value_start p + value_len p + 1).

(** *** What the caller reads after a result of 1 *)

(** The key: the C string in [key_buffer]. *)
Fixpoint c_string (l : list ascii) : list ascii :=
  match l with
  | [] => []
  | c :: l' => if Ascii.eqb c Ch.nul then [] else c :: c_string l'
  end.

Definition found_key (p : json_parse_state_t) : list ascii :=
  c_string (key_buffer p).

(** The value: [value_len] bytes of the buffer from [value_start]. *)
Definition found_value (p : json_parse_state_t) : list ascii :=
  firstn (Z.to_nat (value_len p))
         (skipn (Z.to_nat (value_start p)) (parse_buffer p)).

End Parse.

(** ** The caller's loop around the scanner

  The scanner's caller appends received bytes to the buffer, scans, and
  after each result of 1 reads the pair and consumes it.  The loop is
  the caller's, so it is given here in two forms: one that calls
  [find_key_value_pair] again as the state stands, and one that first
  calls [reset_value_tracking_for_parse_state], so that the scan
  restarts from the top of the unconsumed bytes. *)

Module Caller.
Import Parse.

(** One result of a scan, as the caller sees it: 1 with the pair read
    from the state, 0, or -1. *)
Inductive event :=
| Found (key value : list ascii)
| NotFound
| Failed.

(** Any state, after [reset_json_parse_state]. *)
Definition initial_state : json_parse_state_t :=
  reset_json_parse_state
    (mk_state PARSE_STATE_SEEKING_KEY [] 0 0 0 false false 0 0 []).

Definition append_input (p : json_parse_state_t) (bytes : list ascii)
  : json_parse_state_t :=
  mk_state (state p) (key_buffer p) (key_pos p) (bracket_depth p)
           (brace_depth p) (in_quotes p) (escape_next p) (value_start p)
           (value_len p) (parse_buffer p ++ bytes).

(** Scan, and on each 1 consume and scan again, until a scan returns 0
    or -1.  Each consumed pair removes bytes, so a number of rounds
    above the buffer's length is never used up; were it, the list of
    events would end without a [NotFound] or [Failed]. *)
Fixpoint scan_and_consume (rounds : nat) (p : json_parse_state_t)
  : list event * json_parse_state_t :=
  match rounds with
  | O => ([], p)
  | S rounds' =>
      let '(code, p1) := find_key_value_pair p in
      if code =? 1 then
        let '(evs, p2) :=
          scan_and_consume rounds' (shift_parse_buffer_by_key_value p1) in
        (Found (found_key p1) (found_value p1) :: evs, p2)
      else if code =? 0 then ([NotFound], p1)
      else ([Failed], p1)
  end.

(** One delivery of bytes; [prepare] is what the caller does to the
    state before it scans. *)
Definition feed (prepare : json_parse_state_t -> json_parse_state_t)
           (p : json_parse_state_t) (bytes : list ascii)
  : list event * json_parse_state_t :=
  let p1 := prepare (append_input p bytes) in
  scan_and_consume (S (length (parse_buffer p1))) p1.

Fixpoint run (prepare : json_parse_state_t -> json_parse_state_t)
         (p : json_parse_state_t) (chunks : list (list ascii))
  : list event * json_parse_state_t :=
  match chunks with
  | [] => ([], p)
  | bytes :: chunks' =>
      let '(evs, p1) := feed prepare p bytes in
      let '(evs', p2) := run prepare p1 chunks' in
      (evs ++ evs', p2)
  end.

(** Scanning again as the state stands. *)
Definition run_as_is := run (fun p => p).
(** Scanning again from the top. *)
Definition run_from_top := run reset_value_tracking_for_parse_state.

Fixpoint pairs_of (evs : list event) : list (list ascii * list ascii) :=
  match evs with
  | [] => []
  | Found k v :: evs' => (k, v) :: pairs_of evs'
  | _ :: evs' => pairs_of evs'
  end.

Fixpoint has_failed (evs : list event) : bool :=
  match evs with
  | [] => false
  | Failed :: _ => true
  | _ :: evs' => has_failed evs'
  end.

(** The document of the segmentation property, and its four pairs. *)
Definition document : list ascii :=
  Ch.s "{" ++ Ch.q (Ch.s "a") ++ Ch.s ":1," ++
  Ch.q (Ch.s "b") ++ Ch.s ":" ++ Ch.q (Ch.s "x,y") ++ Ch.s "," ++
  Ch.q (Ch.s "c") ++ Ch.s ":{" ++ Ch.q (Ch.s "d") ++ Ch.s ":1}," ++
  Ch.q (Ch.s "e") ++ Ch.s ":[1,2]}".

Definition document_pairs : list (list ascii * list ascii) :=
  [ (Ch.s "a", Ch.s "1");
    (Ch.s "b", Ch.q (Ch.s "x,y"));
    (Ch.s "c", Ch.s "{" ++ Ch.q (Ch.s "d") ++ Ch.s ":1}");
    (Ch.s "e", Ch.s "[1,2]") ].

Definition bytewise (l : list ascii) : list (list ascii) :=
  map (fun c => [c]) l.

End Caller.

(** ** What [snprintf] prints *)

Module Printf.

(** [%ld] of [(long)value], for a [long] of [long_bits] bits: the
    conversion keeps the low bits, read as a signed number. *)
Definition to_long (long_bits : Z) (value : Z) : Z :=
  let m := 2 ^ long_bits in
  let r := value mod m in
  if r <? m / 2 then r else r - m.

Definition decimal (z : Z) : list ascii :=
  list_ascii_of_string (NilZero.string_of_int (Z.to_int z)).

Definition ld (long_bits : Z) (value : Z) : list ascii :=
  decimal (to_long long_bits value).

(** A [float] is a binary32 number and a [double] a binary64 number,
    both as [spec_float]; [(float)value] rounds to nearest, ties to
    even. *)
Definition double_to_float (value : spec_float) : spec_float :=
  match value with
  | S754_finite sg m e =>
      binary_normalize 24 128 (cond_Zopp sg (Zpos m)) e sg
  | _ => value
  end.

(** The quotient [n / d] of two positive numbers, to the nearest
    integer, ties to even. *)
Definition div_nearest_even (n d : Z) : Z :=
  let q := n / d in
  let r := n mod d in
  if 2 * r <? d then q
  else if d <? 2 * r then q + 1
  else if Z.even q then q else q + 1.

(** [m * 2 ^ e] in millionths, correctly rounded. *)
Definition millionths (m : positive) (e : Z) : Z :=
  if 0 <=? e then Zpos m * 2 ^ e * 1000000
  else div_nearest_even (Zpos m * 1000000) (2 ^ (- e)).

Definition sign (sg : bool) : list ascii :=
  if sg then Ch.s "-" else [].

Definition six_digits (n : Z) : list ascii :=
  let d := decimal n in
  repeat "0"%char (6 - length d) ++ d.

(** [%.6f] of a value promoted to [double] (the promotion is exact),
    as a correctly rounding C library prints it.  The sign that some
    libraries print before [nan] is not part of [spec_float]. *)
Definition f6 (value : spec_float) : list ascii :=
  match value with
  | S754_zero sg => sign sg ++ Ch.s "0.000000"
  | S754_infinity sg => sign sg ++ Ch.s "inf"
  | S754_nan => Ch.s "nan"
  | S754_finite sg m e =>
      let n := millionths m e in
      sign sg ++ decimal (n / 1000000) ++ Ch.s "." ++
      six_digits (n mod 1000000)
  end.

End Printf.

(** ** The writer ([stream_json_write.c]) *)

Module Write.
Local Open Scope nat_scope.

Inductive sjson_status_t :=
| SJSON_OK
| SJSON_ERROR_INVALID_STATE
| SJSON_ERROR_MAX_DEPTH
| SJSON_ERROR_BUFFER_FULL
| SJSON_ERROR_INVALID_PARAM.

Definition SJSON_MAX_DEPTH : nat := 8.

(** The sink is the caller's code.  What it has been handed so far is
    the log of its calls, each with the answer it gave, and its answer
    to a call may depend on all of that and on the bytes handed over
    ([user_data] stands for whatever the sink keeps). *)
Definition sink_log := list (list ascii * bool).
Definition sjson_send_callback_t := sink_log -> list ascii -> bool.

(** [sjson_context_t].  [buffer] holds the [used] bytes written to the
    region and not yet sent, so [used] is the list's length; the rest
    of the region is never read.  [depth] and [max_depth] are
    [uint8_t]. *)
Record sjson_context_t := mk_ctx {
  buffer : list ascii;
  buffer_size : nat;
  send_callback : option sjson_send_callback_t;
  depth_stack : list ascii;
  depth : nat;
  max_depth : nat;
  needs_comma : list bool;
  finalized : bool
}.

Definition used (c : sjson_context_t) : nat := length (buffer c).

Definition uint8 (n : nat) : nat := n mod 256.

Definition set_buffer (v : list ascii) (c : sjson_context_t) :=
  mk_ctx v (buffer_size c) (send_callback c) (depth_stack c) (depth c)
         (max_depth c) (needs_comma c) (finalized c).
Definition set_depth_stack (v : list ascii) (c : sjson_context_t) :=
  mk_ctx (buffer c) (buffer_size c) (send_callback c) v (depth c)
         (max_depth c) (needs_comma c) (finalized c).
Definition set_depth (v : nat) (c : sjson_context_t) :=
  mk_ctx (buffer c) (buffer_size c) (send_callback c) (depth_stack c) v
         (max_depth c) (needs_comma c) (finalized c).
Definition set_needs_comma (v : list bool) (c : sjson_context_t) :=
  mk_ctx (buffer c) (buffer_size c) (send_callback c) (depth_stack c)
         (depth c) (max_depth c) v (finalized c).
Definition set_finalized (v : bool) (c : sjson_context_t) :=
  mk_ctx (buffer c) (buffer_size c) (send_callback c) (depth_stack c)
         (depth c) (max_depth c) (needs_comma c) v.

(** *** The shape of an operation

    An operation works on the context and on the sink, and returns a
    status.  It has no result where C leaves none: an index outside an
    array, a call through a null callback, a copy with no room left in
    the buffer (which overruns it, or never ends). *)
Definition world := (sjson_context_t * sink_log)%type.
Definition action := world -> option (sjson_status_t * world).

Definition ret (s : sjson_status_t) : action := fun w => Some (s, w).
Definition undefined : action := fun _ => None.

(** [status = m; if (status != SJSON_OK) return status; k] *)
Definition and_then (m k : action) : action :=
  fun w =>
    match m w with
    | Some (SJSON_OK, w') => k w'
    | r => r
    end.

Notation "m >>> k" := (and_then m k) (at level 62, right associativity).

(** An assignment to a field of the context. *)
Definition update (f : sjson_context_t -> sjson_context_t) : action :=
  fun w => Some (SJSON_OK, (f (fst w), snd w)).

(** A step that depends on the context. *)
Definition with_ctx (f : sjson_context_t -> action) : action :=
  fun w => f (fst w) w.

(** [a[i] = v] *)
Definition store {A} (a : list A) (i : nat) (v : A) : option (list A) :=
  if i <? length a then Some (<[i := v]> a) else None.

(** A C string argument: [None] is the null pointer, the list has the
    bytes before the terminator. *)
Definition c_str := option (list ascii).

(** *** Helpers *)

Definition sjson_Flush : action :=
  with_ctx (fun c : sjson_context_t =>
    if used c =? 0 then ret SJSON_OK
    else
      match send_callback c with
      | None => undefined
      | Some callback =>
          fun w =>
            let result := callback (snd w) (buffer c) in
            let log := snd w ++ [(buffer c, result)] in
            if result then Some (SJSON_OK, (set_buffer [] c, log))
            else Some (SJSON_ERROR_BUFFER_FULL, (c, log))
      end).

(** The [while (len > 0)] loop of [write].  Every turn copies at least
    one byte, so [length data] turns are enough. *)
Fixpoint write_loop (turns : nat) (data : list ascii) : action :=
  match data with
  | [] => ret SJSON_OK
  | _ :: _ =>
      match turns with
      | O => undefined
      | S turns' =>
          with_ctx (fun c : sjson_context_t =>
            if buffer_size c <=? used c then undefined
            else
              let available := buffer_size c - used c in
              let to_write := Nat.min (length data) available in
              update (set_buffer (buffer c ++ firstn to_write data)) >>>
              with_ctx (fun c1 : sjson_context_t =>
                if used c1 =? buffer_size c1 then sjson_Flush
                else ret SJSON_OK) >>>
              write_loop turns' (skipn to_write data))
      end
  end.

Definition write (data : c_str) : action :=
  match data with
  | None => ret SJSON_ERROR_INVALID_PARAM
  | Some bytes =>
      with_ctx (fun c : sjson_context_t =>
        (if buffer_size c =? used c then sjson_Flush else ret SJSON_OK) >>>
        write_loop (length bytes) bytes)
  end.

Definition write_str (str : list ascii) : action := write (Some str).
Definition write_char (c : ascii) : action := write (Some [c]).

Definition add_comma_if_needed : action :=
  with_ctx (fun c : sjson_context_t =>
    match (needs_comma c !! depth c : option bool) with
    | None => undefined
    | Some comma =>
        (if comma then write_char Ch.comma else ret SJSON_OK) >>>
        with_ctx (fun c1 : sjson_context_t =>
          match store (needs_comma c1) (depth c1) true with
          | None => undefined
          | Some a => update (set_needs_comma a)
          end)
    end).

(** [check_object_state] and [check_array_state], which differ in the
    closer they want on top of the stack. *)
Definition check_state (closer : ascii) : action :=
  with_ctx (fun c : sjson_context_t =>
    if finalized c then ret SJSON_ERROR_INVALID_STATE
    else if depth c =? 0 then ret SJSON_ERROR_INVALID_STATE
    else
      match (depth_stack c !! (depth c - 1) : option ascii) with
      | None => undefined
      | Some top =>
          if Ascii.eqb top closer then ret SJSON_OK
          else ret SJSON_ERROR_INVALID_STATE
      end).

Definition check_object_state : action := check_state Ch.rbrace.
Definition check_array_state : action := check_state Ch.rbracket.

(** [depth_stack[depth] = closer; depth++; needs_comma[depth] = false] *)
Definition push (closer : ascii) : action :=
  with_ctx (fun c : sjson_context_t =>
    match store (depth_stack c) (depth c) closer with
    | None => undefined
    | Some a =>
        let d := uint8 (depth c + 1) in
        match store (needs_comma c) d false with
        | None => undefined
        | Some b =>
            update (fun c => set_needs_comma b (set_depth d (set_depth_stack a c)))
        end
    end).

(** [snprintf] into a local array of [size] bytes, then [write_str]:
    the text must leave room for the terminator. *)
Definition write_formatted (size : nat) (text : list ascii) : action :=
  if size <=? length text then ret SJSON_ERROR_BUFFER_FULL
  else write_str text.

(** *** Initialization and finalization *)

(** The body shared by [sjson_InitObject] and [sjson_InitArray], which
    differ in the opening byte and in the closer pushed.  [buffer] is
    the caller's region, or the null pointer. *)
Definition init (opening closer : ascii)
           (buffer : option (list ascii)) (buffer_size : nat)
           (callback : option sjson_send_callback_t) : action :=
  match buffer, callback with
  | Some _, Some _ =>
      if buffer_size =? 0 then ret SJSON_ERROR_INVALID_PARAM
      else
        update (fun _ =>
          {| buffer := [];
             buffer_size := buffer_size;
             send_callback := callback;
             depth_stack := repeat Ch.nul (SJSON_MAX_DEPTH + 1);
             depth := 0;
             max_depth := SJSON_MAX_DEPTH;
             needs_comma := repeat false (SJSON_MAX_DEPTH + 1);
             finalized := false |}) >>>
        write_char opening >>>
        push closer
  | _, _ => ret SJSON_ERROR_INVALID_PARAM
  end.

Definition sjson_InitObject := init Ch.lbrace Ch.rbrace.
Definition sjson_InitArray := init Ch.lbracket Ch.rbracket.

(** What [sjson_Close] does once the closing byte is written. *)
Definition after_close : action :=
  with_ctx (fun c : sjson_context_t =>
    if depth c =? 0 then update (set_finalized true) >>> sjson_Flush
    else
      match store (needs_comma c) (depth c) true with
      | None => undefined
      | Some a => update (set_needs_comma a)
      end).

(** [depth--] is on a depth that is not 0, so it does not wrap. *)
Definition sjson_Close : action :=
  with_ctx (fun c : sjson_context_t =>
    if finalized c || (depth c =? 0) then ret SJSON_ERROR_INVALID_STATE
    else
      update (set_depth (depth c - 1)) >>>
      with_ctx (fun c1 : sjson_context_t =>
        match (depth_stack c1 !! depth c1 : option ascii) with
        | None => undefined
        | Some closer =>
            fun w =>
              match write_char closer w with
              | None => None
              | Some (SJSON_OK, w') => after_close w'
              | Some (status, w') =>
                  Some (status,
                        (set_depth (uint8 (depth (fst w') + 1)) (fst w'),
                         snd w'))
              end
        end)).

(** The [while (ctx->depth > 0)] loop of [sjson_End]; every turn that
    goes on has closed one collection, so [depth] turns are enough. *)
Fixpoint close_all (turns : nat) : action :=
  with_ctx (fun c : sjson_context_t =>
    if depth c =? 0 then ret SJSON_OK
    else
      match turns with
      | O => undefined
      | S turns' => sjson_Close >>> close_all turns'
      end).

Definition sjson_End : action :=
  with_ctx (fun c : sjson_context_t =>
    if finalized c then sjson_Flush else close_all (depth c)).

(** *** Add to object *)

(** The key between quotes and the colon, as the formats print them. *)
Definition member (key : list ascii) : list ascii :=
  Ch.q key ++ [Ch.colon].

Definition sjson_AddStringToObject (key value : c_str) : action :=
  match key, value with
  | Some k, Some v =>
      check_object_state >>>
      add_comma_if_needed >>>
      write_formatted 256 (member k ++ Ch.q v)
  | _, _ => ret SJSON_ERROR_INVALID_PARAM
  end.

(** [value] is an [int64_t]; [long_bits] is the width of [long]. *)
Definition sjson_AddIntToObject (long_bits : Z) (key : c_str) (value : Z)
  : action :=
  match key with
  | Some k =>
      check_object_state >>>
      add_comma_if_needed >>>
      write_formatted 128 (member k ++ Printf.ld long_bits value)
  | None => ret SJSON_ERROR_INVALID_PARAM
  end.

Definition sjson_AddFloatToObject (key : c_str) (value : spec_float)
  : action :=
  match key with
  | Some k =>
      check_object_state >>>
      add_comma_if_needed >>>
      write_formatted 128 (member k ++ Printf.f6 value)
  | None => ret SJSON_ERROR_INVALID_PARAM
  end.

Definition sjson_AddNumberToObject (key : c_str) (value : spec_float)
  : action :=
  sjson_AddFloatToObject key (Printf.double_to_float value).

(** The element loop of the two array conveniences: each element is
    formatted into 32 bytes, after a comma unless it is the first. *)
Fixpoint write_elements {A} (format : A -> list ascii) (first : bool)
         (values : list A) : action :=
  match values with
  | [] => ret SJSON_OK
  | v :: values' =>
      write_formatted 32 ((if first then [] else [Ch.comma]) ++ format v) >>>
      write_elements format false values'
  end.

(** [values] is the array of [count] elements, or the null pointer. *)
Definition sjson_AddIntArrayToObject (long_bits : Z) (key : c_str)
           (values : option (list Z)) : action :=
  match key, values with
  | Some k, Some vs =>
      check_object_state >>>
      add_comma_if_needed >>>
      write_formatted 64 (member k ++ [Ch.lbracket]) >>>
      write_elements (Printf.ld long_bits) true vs >>>
      write_char Ch.rbracket
  | _, _ => ret SJSON_ERROR_INVALID_PARAM
  end.

Definition sjson_AddFloatArrayToObject (key : c_str)
           (values : option (list spec_float)) : action :=
  match key, values with
  | Some k, Some vs =>
      check_object_state >>>
      add_comma_if_needed >>>
      write_formatted 64 (member k ++ [Ch.lbracket]) >>>
      write_elements Printf.f6 true vs >>>
      write_char Ch.rbracket
  | _, _ => ret SJSON_ERROR_INVALID_PARAM
  end.

(** [if (ctx->depth >= ctx->max_depth) return SJSON_ERROR_MAX_DEPTH;] *)
Definition check_depth : action :=
  with_ctx (fun c : sjson_context_t =>
    if max_depth c <=? depth c then ret SJSON_ERROR_MAX_DEPTH
    else ret SJSON_OK).

Definition sjson_AddArrayToObject (key : c_str) : action :=
  match key with
  | Some k =>
      if (length k =? 0) || (128 <? length k)
      then ret SJSON_ERROR_INVALID_PARAM
      else
        check_object_state >>>
        check_depth >>>
        add_comma_if_needed >>>
        write_formatted (128 + 5) (member k ++ [Ch.lbracket]) >>>
        push Ch.rbracket
  | None => ret SJSON_ERROR_INVALID_PARAM
  end.

Definition sjson_AddObjectToObject (key : c_str) : action :=
  match key with
  | Some k =>
      check_object_state >>>
      check_depth >>>
      add_comma_if_needed >>>
      write_formatted 128 (member k ++ [Ch.lbrace]) >>>
      push Ch.rbrace
  | None => ret SJSON_ERROR_INVALID_PARAM
  end.

Definition sjson_AddRawToObject (key value : c_str) : action :=
  match key, value with
  | Some k, Some v =>
      check_object_state >>>
      add_comma_if_needed >>>
      write_char Ch.quote >>>
      write_str k >>>
      write_str [Ch.quote; Ch.colon] >>>
      write_str v
  | _, _ => ret SJSON_ERROR_INVALID_PARAM
  end.

(** *** Add to array *)

Definition sjson_AddIntToArray (long_bits : Z) (value : Z) : action :=
  check_array_state >>>
  add_comma_if_needed >>>
  write_formatted 32 (Printf.ld long_bits value).

Definition sjson_AddFloatToArray (value : spec_float) : action :=
  check_array_state >>>
  add_comma_if_needed >>>
  write_formatted 32 (Printf.f6 value).

Definition sjson_AddStringToArray (value : c_str) : action :=
  match value with
  | Some v =>
      check_array_state >>>
      add_comma_if_needed >>>
      write_char Ch.quote >>>
      write_str v >>>
      write_char Ch.quote
  | None => ret SJSON_ERROR_INVALID_PARAM
  end.

(** *** Sequences of calls *)

Inductive op :=
| InitObject (buffer : option (list ascii)) (buffer_size : nat)
             (callback : option sjson_send_callback_t)
| InitArray (buffer : option (list ascii)) (buffer_size : nat)
            (callback : option sjson_send_callback_t)
| Close
| End_
| Flush
| AddStringToObject (key value : c_str)
| AddIntToObject (key : c_str) (value : Z)
| AddFloatToObject (key : c_str) (value : spec_float)
| AddNumberToObject (key : c_str) (value : spec_float)
| AddIntArrayToObject (key : c_str) (values : option (list Z))
| AddFloatArrayToObject (key : c_str) (values : option (list spec_float))
| AddArrayToObject (key : c_str)
| AddObjectToObject (key : c_str)
| AddRawToObject (key value : c_str)
| AddIntToArray (value : Z)
| AddFloatToArray (value : spec_float)
| AddStringToArray (value : c_str).

Definition call (long_bits : Z) (o : op) : action :=
  match o with
  | InitObject b n cb => sjson_InitObject b n cb
  | InitArray b n cb => sjson_InitArray b n cb
  | Close => sjson_Close
  | End_ => sjson_End
  | Flush => sjson_Flush
  | AddStringToObject k v => sjson_AddStringToObject k v
  | AddIntToObject k v => sjson_AddIntToObject long_bits k v
  | AddFloatToObject k v => sjson_AddFloatToObject k v
  | AddNumberToObject k v => sjson_AddNumberToObject k v
  | AddIntArrayToObject k vs => sjson_AddIntArrayToObject long_bits k vs
  | AddFloatArrayToObject k vs => sjson_AddFloatArrayToObject k vs
  | AddArrayToObject k => sjson_AddArrayToObject k
  | AddObjectToObject k => sjson_AddObjectToObject k
  | AddRawToObject k v => sjson_AddRawToObject k v
  | AddIntToArray v => sjson_AddIntToArray long_bits v
  | AddFloatToArray v => sjson_AddFloatToArray v
  | AddStringToArray v => sjson_AddStringToArray v
  end.

Definition is_init (o : op) : bool :=
  match o with
  | InitObject _ _ _ | InitArray _ _ _ => true
  | _ => false
  end.

(** The calls of a list one after the other, whatever each returns,
    with the statuses returned. *)
Fixpoint run (long_bits : Z) (ops : list op) (w : world)
  : option (list sjson_status_t * world) :=
  match ops with
  | [] => Some ([], w)
  | o :: ops' =>
      match call long_bits o w with
      | None => None
      | Some (status, w1) =>
          match run long_bits ops' w1 with
          | None => None
          | Some (statuses, w2) => Some (status :: statuses, w2)
          end
      end
  end.

(** *** The sink's side *)

(** All the bytes the sink was handed and accepted, in order. *)
Fixpoint delivered (log : sink_log) : list ascii :=
  match log with
  | [] => []
  | (bytes, true) :: log' => bytes ++ delivered log'
  | (_, false) :: log' => delivered log'
  end.

(** The bytes written so far: those delivered, then those buffered. *)
Definition output (w : world) : list ascii :=
  delivered (snd w) ++ buffer (fst w).

Definition always_accept : sjson_send_callback_t := fun _ _ => true.
Definition always_reject : sjson_send_callback_t := fun _ _ => false.

(** A context as memory may hold it before any call. *)
Definition blank : sjson_context_t :=
  mk_ctx [] 0 None [] 0 0 [] false.

End Write.

(** ** Definitions used to state and prove the scanner's properties *)

Module ParseSpec.
Import Parse Caller.

#[export] Instance ascii_eq_dec : EqDecision ascii := ascii_dec.

#[export] Instance enum_eq_dec : EqDecision parse_state_enum_t.
Proof. solve_decision. Defined.

#[export] Instance state_eq_dec : EqDecision json_parse_state_t.
Proof. solve_decision. Defined.

#[export] Instance event_eq_dec : EqDecision event.
Proof. solve_decision. Defined.

(** Scanning from the top. *)
Definition from_top := reset_value_tracking_for_parse_state.

(** The state once the first [i] bytes of the document have arrived in
    one piece, and the number of pairs found by then. *)
Definition after (i : nat) := snd (feed from_top initial_state (firstn i document)).

Definition seen (i : nat) := length (pairs_of (fst (feed from_top initial_state (firstn i document)))).

(** From the state after [i] bytes, the bytes from [i] to [j] lead to
    the state after [j] bytes, with the pairs in between and no failure. *)
Definition step_ok (i j : nat) : bool :=
  let '(evs, p) := feed from_top (after i) (firstn (j - i) (skipn i document)) in
  bool_decide (p = after j) && negb (has_failed evs) && bool_decide (last evs = Some NotFound)
  && bool_decide (pairs_of evs ++ skipn (seen j) document_pairs = skipn (seen i) document_pairs).

Definition table_ok := forallb (fun i => forallb (fun d => step_ok i (i + d)) (seq 0 (40 - i))) (seq 0 40).

(* definitions *)
Definition escaped_value : list ascii :=
  Ch.q (Ch.s "a" ++ [Ch.backslash; Ch.quote] ++ Ch.s "b").

Definition escaped_value_document : list ascii :=
  Ch.s "{" ++ Ch.q (Ch.s "k") ++ Ch.s ":" ++ escaped_value ++ Ch.s ",".

Definition escaped_key_document : list ascii :=
  Ch.s "{" ++ Ch.q (Ch.s "a" ++ [Ch.backslash; Ch.quote] ++ Ch.s "b") ++ Ch.s ":1,".

Definition inside_string : json_parse_state_t :=
  snd (scan_from initial_state 0 (Ch.s "{" ++ Ch.q (Ch.s "k") ++ Ch.s ":" ++ [Ch.quote] ++ Ch.s "a")).

(** *** Definitions for the further properties of the scanner *)

(** While a value is being scanned at index [i], it started before [i]. *)
Definition value_started (p : json_parse_state_t) (i : Z) : Prop :=
  state p = PARSE_STATE_IN_VALUE -> 0 <= value_start p < i.

(** What the caller finds in the state after a result of 1, for a scan
    of the bytes [buffer]. *)
Definition found_shape (buffer : list ascii) (p : json_parse_state_t) : Prop :=
  state p = PARSE_STATE_IN_VALUE
  /\ in_quotes p = false /\ brace_depth p = 0 /\ bracket_depth p = 0
  /\ 0 <= value_start p /\ 1 <= value_len p
  /\ parse_buffer p = buffer
  /\ exists c, buffer !! Z.to_nat (value_start p + value_len p) = Some c
               /\ (c = Ch.comma \/ c = Ch.rbrace).

Definition one_pair : json_parse_state_t :=
  append_input initial_state (Ch.s "{" ++ Ch.q (Ch.s "a") ++ Ch.s ":[1,2],").

(** The bytes that the seeking-key phase passes over. *)
Definition skipped_before_key (c : ascii) : bool :=
  is_whitespace c || Ascii.eqb c Ch.lbrace.

(** A state from which a scan starts afresh. *)
Definition fresh_scan (p : json_parse_state_t) : Prop :=
  state p = PARSE_STATE_SEEKING_KEY /\ escape_next p = false /\ in_quotes p = false.

(** The key buffer is whole and the key position inside it, with room
    for the terminator. *)
Definition key_in_bounds (p : json_parse_state_t) : Prop :=
  length (key_buffer p) = Z.to_nat KEY_BUFFER_SIZE
  /\ 0 <= key_pos p <= KEY_BUFFER_SIZE - 1.

(** Past the key, the key buffer holds the terminator at [key_pos]. *)
Definition key_terminated (p : json_parse_state_t) : Prop :=
  match state p with
  | PARSE_STATE_SEEKING_COLON | PARSE_STATE_SEEKING_VALUE | PARSE_STATE_IN_VALUE =>
      key_buffer p !! Z.to_nat (key_pos p) = Some Ch.nul
  | _ => True
  end.

Definition closed_then_space : json_parse_state_t :=
  append_input initial_state (Ch.s " {" ++ Ch.s "  " ++ Ch.rbrace :: Ch.s " ").

Definition long_key_document : list ascii :=
  Ch.s "{" ++ Ch.q (repeat "k"%char 70) ++ Ch.s ":1,".

(** A state as [reset_value_tracking_for_parse_state] leaves it, with a
    whole key buffer. *)
Definition at_pair_start (p : json_parse_state_t) : Prop :=
  reset_value_tracking_for_parse_state p = p
  /\ length (key_buffer p) = Z.to_nat KEY_BUFFER_SIZE.

Definition key_byte (c : ascii) : bool :=
  negb (Ascii.eqb c Ch.quote) && negb (Ascii.eqb c Ch.nul).

Definition text_byte (c : ascii) : bool :=
  negb (Ascii.eqb c Ch.quote) && negb (Ascii.eqb c Ch.backslash).

Definition scalar_byte (c : ascii) : bool :=
  negb (Ascii.eqb c Ch.quote || Ascii.eqb c Ch.lbrace || Ascii.eqb c Ch.rbrace
        || Ascii.eqb c Ch.lbracket || Ascii.eqb c Ch.rbracket
        || Ascii.eqb c Ch.comma).

Definition flat_byte (c : ascii) : bool :=
  negb (Ascii.eqb c Ch.quote || Ascii.eqb c Ch.lbrace || Ascii.eqb c Ch.rbrace
        || Ascii.eqb c Ch.lbracket || Ascii.eqb c Ch.rbracket).

(** A string without quote or backslash inside; or a scalar: bytes other
    than quotes, braces, brackets and commas, the first one not a
    blank; or an object or an array with no quote, brace or bracket
    inside (commas and colons are allowed there). *)
Definition simple_value (v : list ascii) : Prop :=
  (exists body, v = Ch.q body /\ forallb text_byte body = true)
  \/ (exists c tl, v = c :: tl /\ is_whitespace c = false
                   /\ forallb scalar_byte v = true)
  \/ (exists inner, (v = Ch.lbrace :: inner ++ [Ch.rbrace]
                     \/ v = Ch.lbracket :: inner ++ [Ch.rbracket])
                    /\ forallb flat_byte inner = true).

(** The members of an object as text: key between quotes, colon, value,
    and a comma before each member but the first. *)
Fixpoint members_text (first : bool) (members : list (list ascii * list ascii))
  : list ascii :=
  match members with
  | [] => []
  | m :: members' =>
      (if first then [] else [Ch.comma]) ++ Ch.q (fst m) ++ [Ch.colon] ++ snd m
      ++ members_text false members'
  end.

Definition object_text (members : list (list ascii * list ascii)) : list ascii :=
  Ch.lbrace :: members_text true members ++ [Ch.rbrace].

(** Keys that fit the key buffer, and simple values. *)
Definition scannable (members : list (list ascii * list ascii)) : Prop :=
  Forall (fun m => forallb key_byte (fst m) = true
                   /\ (length (fst m) <= 63)%nat
                   /\ simple_value (snd m)) members.

Definition found_pairs (members : list (list ascii * list ascii)) : list event :=
  map (fun m => Found (fst m) (snd m)) members.

End ParseSpec.

(** ** Definitions used to state and prove the writer's properties *)

Module WriteSpec.
Import Write.
Local Open Scope nat_scope.

Definition triple (P : world -> Prop) (m : action)
           (Q : sjson_status_t -> world -> Prop) : Prop :=
  forall w, P w -> exists s w', m w = Some (s, w') /\ Q s w'.

(** An invariant of an action. *)
Definition keeps (P : world -> Prop) (m : action) : Prop :=
  triple P m (fun _ => P).

(** Only the buffer differs. *)
Definition same_but_buffer (c c' : sjson_context_t) : Prop :=
  c' = set_buffer (buffer c') c.

Definition last_rejected (log : sink_log) : Prop :=
  exists log' bytes, log = log' ++ [(bytes, false)].

(** The buffer is empty, or the sink has just refused it. *)
Definition drained (w : world) : Prop :=
  used (fst w) = 0 \/ last_rejected (snd w).

Definition ok_or_full (s : sjson_status_t) : Prop :=
  s = SJSON_OK \/ s = SJSON_ERROR_BUFFER_FULL.

(** A context in which [write] has room to work. *)
Definition roomy (c : sjson_context_t) : Prop :=
  is_Some (send_callback c) /\ 1 <= buffer_size c /\ used c <= buffer_size c.

(** The fields that [write], [sjson_Flush] and [add_comma_if_needed]
    leave alone. *)
Definition frame (c0 c : sjson_context_t) : Prop :=
  depth_stack c = depth_stack c0 /\ depth c = depth c0
  /\ max_depth c = max_depth c0 /\ finalized c = finalized c0
  /\ length (needs_comma c) = length (needs_comma c0)
  /\ buffer_size c = buffer_size c0 /\ send_callback c = send_callback c0.

Definition within (c0 : sjson_context_t) (w : world) : Prop :=
  frame c0 (fst w) /\ used (fst w) <= buffer_size c0.

Definition base (c0 : sjson_context_t) : Prop :=
  is_Some (send_callback c0) /\ 1 <= buffer_size c0
  /\ depth c0 < length (needs_comma c0).

(** A context laid out as the two [Init] leave it. *)
Definition wf (c : sjson_context_t) : Prop :=
  length (depth_stack c) = SJSON_MAX_DEPTH + 1
  /\ length (needs_comma c) = SJSON_MAX_DEPTH + 1
  /\ depth c <= max_depth c
  /\ max_depth c = SJSON_MAX_DEPTH
  /\ roomy c.

(** Once finalized, nothing is open, and the buffer is empty unless the
    sink has just refused it. *)
Definition settled (w : world) : Prop :=
  finalized (fst w) = true -> depth (fst w) = 0 /\ drained w.

Definition Inv (w : world) : Prop := wf (fst w) /\ settled w.

Definition active (w : world) : Prop :=
  wf (fst w) /\ finalized (fst w) = false.

Definition nestable (w : world) : Prop :=
  active w /\ depth (fst w) < max_depth (fst w).

(** The sink is [always_accept], and has accepted all it was handed. *)
Definition accepting (w : world) : Prop :=
  send_callback (fst w) = Some always_accept
  /\ Forall (fun entry => snd entry = true) (snd w).

Definition good (w : world) : Prop :=
  accepting w /\ used (fst w) < buffer_size (fst w).

(** The two worlds agree on everything but the buffer, its size and what
    of the output has already gone to the sink. *)
Definition agree (w1 w2 : world) : Prop :=
  good w1 /\ good w2
  /\ depth_stack (fst w1) = depth_stack (fst w2)
  /\ depth (fst w1) = depth (fst w2)
  /\ max_depth (fst w1) = max_depth (fst w2)
  /\ needs_comma (fst w1) = needs_comma (fst w2)
  /\ finalized (fst w1) = finalized (fst w2)
  /\ output w1 = output w2.

Definition related (r1 r2 : option (sjson_status_t * world)) : Prop :=
  match r1, r2 with
  | Some (s1, w1), Some (s2, w2) => s1 = s2 /\ agree w1 w2
  | None, None => True
  | _, _ => False
  end.

Definition sim (m1 m2 : action) : Prop :=
  forall w1 w2, agree w1 w2 -> related (m1 w1) (m2 w2).

Definition no_init (ops : list op) : bool :=
  forallb (fun o => negb (is_init o)) ops.

Definition begin (array : bool) (buffer : list ascii) (buffer_size : nat) : op :=
  if array then InitArray (Some buffer) buffer_size (Some always_accept)
  else InitObject (Some buffer) buffer_size (Some always_accept).

(** C2.  The calls of [status_calls] (InitObject, AddStringToObject of
    status and ok, AddIntToObject of count and 3, End), with a buffer of any size of at least
    one byte and a sink that always accepts: every call returns
    [SJSON_OK], and the bytes delivered to the sink are those of
    [status_document], every hand-over accepted and nothing left
    in the buffer. *)
Definition status_document : list ascii :=
  Ch.s "{" ++ Ch.q (Ch.s "status") ++ Ch.s ":" ++ Ch.q (Ch.s "ok") ++ Ch.s "," ++
  Ch.q (Ch.s "count") ++ Ch.s ":3}".

Definition status_calls (buffer : list ascii) (buffer_size : nat) : list op :=
  [ InitObject (Some buffer) buffer_size (Some always_accept);
    AddStringToObject (Some (Ch.s "status")) (Some (Ch.s "ok"));
    AddIntToObject (Some (Ch.s "count")) 3%Z;
    End_ ].

(* definitions part *)
Definition accepted_init (o : op) : bool :=
  match o with
  | InitObject (Some _) (S _) (Some _) | InitArray (Some _) (S _) (Some _) => true
  | _ => false
  end.

Inductive reachable (long_bits : Z) : world -> Prop :=
| reach_init w0 o s w :
    accepted_init o = true -> call long_bits o w0 = Some (s, w) ->
    reachable long_bits w
| reach_call w o s w' :
    reachable long_bits w -> call long_bits o w = Some (s, w') ->
    reachable long_bits w'.

Definition rejected_close : list op :=
  [InitObject (Some []) 10 (Some always_reject); Close].

(** Every call that takes a key, with a key of length 0, in an object
    just opened; the nested object is closed before the last call. *)
Definition empty_key_calls : list op :=
  [ InitObject (Some []) 512 (Some always_accept);
    AddStringToObject (Some []) (Some (Ch.s "v"));
    AddIntToObject (Some []) 1%Z;
    AddFloatToObject (Some []) (S754_finite false 3 (-1));
    AddNumberToObject (Some []) (S754_finite false 3 (-1));
    AddRawToObject (Some []) (Some (Ch.s "null"));
    AddIntArrayToObject (Some []) (Some [1; 2]%Z);
    AddFloatArrayToObject (Some []) (Some [S754_finite false 3 (-1)]);
    AddObjectToObject (Some []);
    Close;
    AddArrayToObject (Some []) ].

(** What these calls write: eight members, each with an empty key. *)
Definition empty_key_text : list ascii :=
  Ch.s "{" ++ Ch.q [] ++ Ch.s ":" ++ Ch.q (Ch.s "v")
  ++ Ch.s "," ++ Ch.q [] ++ Ch.s ":1"
  ++ Ch.s "," ++ Ch.q [] ++ Ch.s ":1.500000"
  ++ Ch.s "," ++ Ch.q [] ++ Ch.s ":1.500000"
  ++ Ch.s "," ++ Ch.q [] ++ Ch.s ":null"
  ++ Ch.s "," ++ Ch.q [] ++ Ch.s ":[1,2]"
  ++ Ch.s "," ++ Ch.q [] ++ Ch.s ":[1.500000]"
  ++ Ch.s "," ++ Ch.q [] ++ Ch.s ":{}".

(** A property of the world that an action never breaks, whatever the
    state it starts in. *)
Definition always (R : world -> world -> Prop) (m : action) : Prop :=
  forall w s w', m w = Some (s, w') -> R w w'.

Definition only_buffer (w w' : world) : Prop :=
  same_but_buffer (fst w) (fst w').

Definition stuck_context : sjson_context_t :=
  mk_ctx (Ch.s "{" ++ [Ch.quote]) 2 (Some always_reject)
         (Ch.rbrace :: repeat Ch.nul 8) 1 8
         (false :: true :: repeat false 7) false.

(** What a call never returns. *)
Definition never_invalid_param (m : action) : Prop :=
  forall w s w', m w = Some (s, w') -> s <> SJSON_ERROR_INVALID_PARAM.

Definition succeeds (P : world -> Prop) (m : action) (Q : world -> Prop) : Prop :=
  forall w, P w -> exists w', m w = Some (SJSON_OK, w') /\ Q w'.

(** An object is open at depth [d], in a world whose sink accepts. *)
Definition ready (d : nat) (w : world) : Prop :=
  good w /\ wf (fst w) /\ finalized (fst w) = false
  /\ depth (fst w) = d /\ 1 <= d
  /\ depth_stack (fst w) !! (d - 1) = Some Ch.rbrace.

Definition open_objects (keys : list (list ascii)) : list op :=
  map (fun key => AddObjectToObject (Some key)) keys.

(** *** Definitions for the further properties of the writer *)

(** A collection is open at depth [d], the sink accepts, and the closer
    stack, the comma flags and the bytes written so far are as given. *)
Definition writing (stack : list ascii) (d : nat) (commas : list bool)
           (out : list ascii) (w : world) : Prop :=
  good w /\ wf (fst w) /\ finalized (fst w) = false
  /\ depth (fst w) = d /\ 1 <= d
  /\ depth_stack (fst w) = stack
  /\ needs_comma (fst w) = commas
  /\ output w = out.

(** The separator that [add_comma_if_needed] writes at depth [d]. *)
Definition separator (commas : list bool) (d : nat) : list ascii :=
  match commas !! d with
  | Some true => [Ch.comma]
  | _ => []
  end.

(** The text of the elements of an array, as [write_elements] writes
    them: a comma before each but the first. *)
Fixpoint elements_text {A} (format : A -> list ascii) (first : bool)
         (values : list A) : list ascii :=
  match values with
  | [] => []
  | v :: values' =>
      (if first then [] else [Ch.comma]) ++ format v
      ++ elements_text format false values'
  end.

(** Every element fits the 32 bytes it is formatted into. *)
Definition elements_fit {A} (format : A -> list ascii) (values : list A) : Prop :=
  Forall (fun v => length (format v) + 1 < 32) values.

(** A nested object with two members, closed, and a sibling after it. *)
Definition nested_then_sibling (k k1 v1 k2 v2 k3 v3 : list ascii) : list op :=
  [ AddObjectToObject (Some k);
    AddStringToObject (Some k1) (Some v1);
    AddStringToObject (Some k2) (Some v2);
    Close;
    AddStringToObject (Some k3) (Some v3) ].

(** An array opened, filled and closed call by call. *)
Definition array_by_hand (key : list ascii) (values : list Z) : list op :=
  AddArrayToObject (Some key) :: map AddIntToArray values ++ [Close].

(** The calls that add to the open collection or close it. *)
Definition member_call (o : op) : bool :=
  match o with
  | InitObject _ _ _ | InitArray _ _ _ | End_ | Flush => false
  | _ => true
  end.

(** The pointer arguments are not null, and the key of
    [sjson_AddArrayToObject] has from 1 to 128 bytes. *)
Definition arguments_given (o : op) : bool :=
  match o with
  | AddStringToObject (Some _) (Some _) | AddRawToObject (Some _) (Some _) => true
  | AddIntToObject (Some _) _ | AddFloatToObject (Some _) _
  | AddNumberToObject (Some _) _ | AddObjectToObject (Some _) => true
  | AddIntArrayToObject (Some _) (Some _) | AddFloatArrayToObject (Some _) (Some _) => true
  | AddArrayToObject (Some key) => negb ((length key =? 0) || (128 <? length key))
  | AddStringToArray (Some _) => true
  | AddIntToArray _ | AddFloatToArray _ | Close => true
  | _ => false
  end.

Definition ended : world :=
  (mk_ctx [] 10 (Some always_accept) (Ch.rbrace :: repeat Ch.nul 8) 0 8
     (repeat false 9) true, [(Ch.s "{}", true)]).

(** The closers of the collections open at depth [d], innermost first. *)
Definition closers (stack : list ascii) (d : nat) : list ascii :=
  rev (firstn d stack).

(** The document is closed and the sink has all of [out]. *)
Definition ended_with (out : list ascii) (w : world) : Prop :=
  finalized (fst w) = true /\ depth (fst w) = 0
  /\ buffer (fst w) = [] /\ delivered (snd w) = out.

(** The world after [sjson_InitObject] with a buffer of 4 bytes and a
    sink that accepts. *)
Definition object_begun : world :=
  (mk_ctx (Ch.s "{") 4 (Some always_accept)
     (Ch.rbrace :: repeat Ch.nul 8) 1 8 (repeat false 9) false, []).

(** The sink's log has only grown, by hand-overs that are not empty. *)
Definition hands_over (w w' : world) : Prop :=
  exists extra, snd w' = snd w ++ extra
                /\ Forall (fun entry => fst entry <> []) extra.

(** The calls that add a member to an object. *)
Definition object_call (o : op) : bool :=
  match o with
  | AddStringToObject _ _ | AddIntToObject _ _ | AddFloatToObject _ _
  | AddNumberToObject _ _ | AddIntArrayToObject _ _ | AddFloatArrayToObject _ _
  | AddArrayToObject _ | AddObjectToObject _ | AddRawToObject _ _ => true
  | _ => false
  end.

(** The calls that add an element to an array. *)
Definition array_call (o : op) : bool :=
  match o with
  | AddIntToArray _ | AddFloatToArray _ | AddStringToArray _ => true
  | _ => false
  end.

(** The closer that the call expects on top of the stack. *)
Definition expected_closer (o : op) : option ascii :=
  if object_call o then Some Ch.rbrace
  else if array_call o then Some Ch.rbracket
  else None.


(** One [sjson_AddStringToObject] for each member. *)
Definition string_members (members : list (list ascii * list ascii)) : list op :=
  map (fun m => AddStringToObject (Some (fst m)) (Some (snd m))) members.

(** An object of string members from [sjson_InitObject] to [sjson_End],
    into a buffer of [n] bytes and a sink that accepts. *)
Definition object_of_strings (n : nat) (members : list (list ascii * list ascii))
  : list op :=
  InitObject (Some []) n (Some always_accept) :: string_members members ++ [End_].

(** The members as the object has them: each value between quotes. *)
Definition quoted_values (members : list (list ascii * list ascii))
  : list (list ascii * list ascii) :=
  map (fun m => (fst m, Ch.q (snd m))) members.

(** Keys that fit the scanner's key buffer, keys and values without the
    bytes that would end them early, and members that fit the 256 bytes
    they are formatted into. *)
Definition plain_members (members : list (list ascii * list ascii)) : Prop :=
  Forall (fun m => forallb ParseSpec.key_byte (fst m) = true
                   /\ length (fst m) <= 63
                   /\ forallb ParseSpec.text_byte (snd m) = true
                   /\ length (fst m) + length (snd m) + 5 < 256) members.

End WriteSpec.

(** * Properties of the scanner *)

Module ParseFacts.
Import Parse Caller ParseSpec.

Lemma table_ok_true : table_ok = true.
Proof. vm_compute. reflexivity. Qed.

Lemma document_length : length document = 39%nat.
Proof. reflexivity. Qed.

Lemma step_ok_true (i j : nat) : (i <= j <= 39)%nat -> step_ok i j = true.
Proof.
  intros Hij. pose proof table_ok_true as T. unfold table_ok in T.
  rewrite forallb_forall in T.
  assert (Hi : In i (seq 0 40)) by (apply in_seq; lia).
  specialize (T i Hi). rewrite forallb_forall in T.
  assert (Hd : In (j - i)%nat (seq 0 (40 - i))) by (apply in_seq; lia).
  specialize (T _ Hd). replace (i + (j - i))%nat with j in T by lia. exact T.
Qed.

Lemma run_cons prepare p bytes chunks :
  run prepare p (bytes :: chunks) =
  (let '(evs, p1) := feed prepare p bytes in
   let '(evs', p2) := run prepare p1 chunks in (evs ++ evs', p2)).
Proof. reflexivity. Qed.

Lemma pairs_of_app evs evs' : pairs_of (evs ++ evs') = pairs_of evs ++ pairs_of evs'.
Proof. induction evs as [|[k v| |] evs IH]; simpl; rewrite ?IH; reflexivity. Qed.

Lemma has_failed_app evs evs' :
  has_failed (evs ++ evs') = has_failed evs || has_failed evs'.
Proof. induction evs as [|[k v| |] evs IH]; simpl; rewrite ?IH; reflexivity. Qed.

Lemma seen_end : skipn (seen 39) document_pairs = [].
Proof. vm_compute. reflexivity. Qed.

Lemma after_start : after 0 = initial_state.
Proof. vm_compute. reflexivity. Qed.

Lemma seen_start : skipn (seen 0) document_pairs = document_pairs.
Proof. vm_compute. reflexivity. Qed.

Lemma after_end :
  parse_buffer (after 39) = [] /\ state (after 39) = PARSE_STATE_SEEKING_KEY.
Proof. vm_compute. auto. Qed.

Opaque after seen document document_pairs.

Lemma run_from_after (chunks : list (list ascii)) : forall i : nat,
  (i <= 39)%nat -> concat chunks = skipn i document ->
  exists evs, run_from_top (after i) chunks = (evs, after 39)
    /\ has_failed evs = false
    /\ pairs_of evs = skipn (seen i) document_pairs
    /\ (chunks <> [] -> last evs = Some NotFound).
Proof.
  induction chunks as [|c rest IH]; intros i Hi Hcat.
  - assert (i = 39%nat) as ->.
    { apply (f_equal (@length ascii)) in Hcat.
      rewrite length_skipn, document_length in Hcat. cbn [concat length] in Hcat. lia. }
    exists []. split; [reflexivity|]. split; [reflexivity|].
    split; [rewrite seen_end; reflexivity | congruence].
  - cbn [concat] in Hcat.
    assert (Hlen : (length c <= 39 - i)%nat).
    { apply (f_equal (@length ascii)) in Hcat.
      rewrite length_app, length_skipn, document_length in Hcat. lia. }
    assert (Hc : firstn (i + length c - i) (skipn i document) = c).
    { rewrite <- Hcat. replace (i + length c - i)%nat with (length c) by lia.
      rewrite firstn_app, Nat.sub_diag, firstn_all. cbn [firstn]. apply app_nil_r. }
    assert (Hrest : concat rest = skipn (i + length c) document).
    { rewrite Nat.add_comm, <- skipn_skipn, <- Hcat.
      rewrite skipn_app, Nat.sub_diag, skipn_all. reflexivity. }
    pose proof (step_ok_true i (i + length c) ltac:(lia)) as T.
    unfold step_ok in T. rewrite Hc in T.
    destruct (feed from_top (after i) c) as [evs p] eqn:F.
    rewrite !andb_true_iff, !bool_decide_eq_true, negb_true_iff in T.
    destruct T as [[[-> Hf] Hl] Hp].
    destruct (IH (i + length c)%nat ltac:(lia) Hrest) as (evs' & R & Hf' & Hp' & Hl').
    exists (evs ++ evs'). unfold run_from_top in *. rewrite run_cons.
    fold from_top. rewrite F. fold from_top in R. rewrite R.
    split; [reflexivity|]. split; [|split].
    + rewrite has_failed_app, Hf, Hf'. reflexivity.
    + rewrite pairs_of_app, Hp'. exact Hp.
    + intros _. destruct rest as [|c' rest'].
      * cbn [run] in R. apply (f_equal fst) in R. cbn [fst] in R. subst evs'. rewrite app_nil_r. exact Hl.
      * specialize (Hl' ltac:(congruence)).
        rewrite last_app, Hl'. reflexivity.
Qed.

Transparent after seen document document_pairs.

(** C1, as the code has it.  However the bytes of the document are cut
    into successive appends, when the caller resets the value tracking
    ([reset_value_tracking_for_parse_state]) before it scans after each
    append, and consumes after each result of 1, the pairs read are
    those of [document_pairs] in that order, no scan
    returns -1, and the last scan returns 0 on a buffer that is then
    empty, back in the seeking-key state.  (The closing brace has gone as
    the delimiter of the last pair; 0 is the one result the code has for
    more-input-needed and for object-complete.) *)
Theorem segmentation_from_top (chunks : list (list ascii)) :
  concat chunks = document ->
  exists evs p, run_from_top initial_state chunks = (evs, p)
    /\ pairs_of evs = document_pairs
    /\ has_failed evs = false
    /\ last evs = Some NotFound
    /\ parse_buffer p = []
    /\ state p = PARSE_STATE_SEEKING_KEY.
Proof.
  intros Hcat.
  destruct (run_from_after chunks 0%nat ltac:(lia) Hcat) as (evs & R & Hf & Hp & Hl).
  rewrite after_start in R. rewrite seen_start in Hp.
  exists evs, (after 39). split; [exact R|]. split; [exact Hp|]. split; [exact Hf|].
  split; [|exact after_end].
  apply Hl. intros ->. discriminate Hcat.
Qed.

Lemma segmentation_from_top_witness :
  concat (bytewise document) = document
  /\ exists evs p, run_from_top initial_state (bytewise document) = (evs, p)
    /\ pairs_of evs = document_pairs
    /\ has_failed evs = false
    /\ last evs = Some NotFound
    /\ parse_buffer p = []
    /\ state p = PARSE_STATE_SEEKING_KEY.
Proof.
  split; [reflexivity|].
  apply (segmentation_from_top (bytewise document)). reflexivity.
Defined.

(** C1 as stated fails: fed one byte at a time and scanned again as the
    state stands, the scanner returns -1 at the third byte, where the
    scan before stopped inside the key, and no pair is ever reported. *)
Lemma scan_as_is_fails_bytewise :
  concat (bytewise document) = document
  /\ has_failed (fst (run_as_is initial_state (bytewise document))) = true
  /\ pairs_of (fst (run_as_is initial_state (bytewise document))) = []
  /\ fst (run_as_is initial_state (firstn 3 (bytewise document)))
     = [NotFound; NotFound; Failed].
Proof. vm_compute. auto. Qed.

Lemma unescape_restores p :
  escape_next p = false -> set_escape_next false (set_escape_next true p) = p.
Proof. destruct p. cbn. intros ->. reflexivity. Qed.

Lemma escape_is_set p i :
  escape_next p = false -> in_quotes p = true ->
  scan_byte p i Ch.backslash = Next (set_escape_next true p).
Proof. intros E Q. unfold scan_byte. rewrite E, Q. reflexivity. Qed.

Lemma escaped_byte_is_skipped p i c :
  escape_next p = true -> scan_byte p i c = Next (set_escape_next false p).
Proof. intros E. unfold scan_byte. rewrite E. reflexivity. Qed.

(** C7.  In a string value an escaped quote is inert: from a state in
    the in-value phase, inside quotes and with no escape pending, the
    scan of a backslash and a quote leaves the state as it was and goes
    on with the next byte; and the value of [escaped_value_document] is
    reported as the whole span [escaped_value], escape included. *)
Theorem escaped_quote_in_value p i rest :
  state p = PARSE_STATE_IN_VALUE -> in_quotes p = true -> escape_next p = false ->
  scan_from p i (Ch.backslash :: Ch.quote :: rest) = scan_from p (i + 2) rest
  /\ (let r := find_key_value_pair (append_input initial_state escaped_value_document) in
      fst r = 1 /\ found_key (snd r) = Ch.s "k" /\ found_value (snd r) = escaped_value).
Proof.
  intros S Q E. split; [|vm_compute; auto].
  cbn [scan_from]. rewrite (escape_is_set p i E Q).
  rewrite escaped_byte_is_skipped by reflexivity.
  rewrite (unescape_restores p E). f_equal. lia.
Qed.

Lemma escaped_quote_in_value_witness :
  (state inside_string = PARSE_STATE_IN_VALUE /\ in_quotes inside_string = true
   /\ escape_next inside_string = false)
  /\ scan_from inside_string 7 (Ch.backslash :: Ch.quote :: Ch.s "b")
     = scan_from inside_string (7 + 2) (Ch.s "b")
  /\ (let r := find_key_value_pair (append_input initial_state escaped_value_document) in
      fst r = 1 /\ found_key (snd r) = Ch.s "k" /\ found_value (snd r) = escaped_value).
Proof.
  split; [repeat split|].
  apply (escaped_quote_in_value inside_string 7 (Ch.s "b")); reflexivity.
Defined.

(** C8 fails on the code: a backslash in a key is stored as a key byte,
    since [in_quotes] is not set in the in-key phase, and the quote after
    it ends the key.  At the escaped quote of the key of
    [escaped_key_document] the scanner is already seeking the colon, the
    key ending in the backslash, and the scan of the whole member
    returns -1. *)
Lemma escaped_quote_ends_key :
  (let r := scan_from initial_state 0
              (Ch.s "{" ++ [Ch.quote] ++ Ch.s "a" ++ [Ch.backslash; Ch.quote]) in
   fst r = 0 /\ state (snd r) = PARSE_STATE_SEEKING_COLON
   /\ found_key (snd r) = Ch.s "a" ++ [Ch.backslash])
  /\ fst (find_key_value_pair (append_input initial_state escaped_key_document)) = -1.
Proof. vm_compute. auto. Qed.

(** ** Further properties of the scanner *)

Ltac turn_cases :=
  repeat match goal with
    | |- context [if ?b then _ else _] => destruct b eqn:?
    end.

Lemma scan_byte_next p i c p' :
  0 <= i -> value_started p i -> scan_byte p i c = Next p' ->
  value_started p' (i + 1) /\ parse_buffer p' = parse_buffer p.
Proof.
  intros Hi V. unfold scan_byte, value_started in *.
  destruct (escape_next p) eqn:E.
  { intros [= <-]. cbn. split; [intros S; specialize (V S); lia | reflexivity]. }
  destruct (Ascii.eqb c Ch.backslash && in_quotes p) eqn:B.
  { intros [= <-]. cbn. split; [intros S; specialize (V S); lia | reflexivity]. }
  destruct (state p) eqn:S;
    [ unfold seeking_key | unfold in_key | unfold seeking_colon
    | unfold seeking_value | unfold in_value; specialize (V eq_refl) ];
    turn_cases; intros [= <-]; cbn; (split; [|reflexivity]);
    intros S'; try discriminate S'; try congruence; lia.
Qed.

Lemma scan_byte_found p i c p' :
  0 <= i -> value_started p i -> scan_byte p i c = Return 1 p' ->
  state p' = PARSE_STATE_IN_VALUE
  /\ in_quotes p' = false /\ brace_depth p' = 0 /\ bracket_depth p' = 0
  /\ 0 <= value_start p' /\ 1 <= value_len p'
  /\ value_start p' + value_len p' = i
  /\ parse_buffer p' = parse_buffer p
  /\ (c = Ch.comma \/ c = Ch.rbrace).
Proof.
  intros Hi V. unfold scan_byte, value_started in *.
  destruct (escape_next p) eqn:E; [discriminate|].
  destruct (Ascii.eqb c Ch.backslash && in_quotes p) eqn:B; [discriminate|].
  destruct (state p) eqn:S.
  - unfold seeking_key. turn_cases; discriminate.
  - unfold in_key. turn_cases; discriminate.
  - unfold seeking_colon. turn_cases; discriminate.
  - unfold seeking_value. turn_cases; discriminate.
  - unfold in_value. specialize (V eq_refl).
    destruct (Ascii.eqb c Ch.quote && negb (escape_next p)) eqn:Q.
    + destruct (in_quotes (set_in_quotes (negb (in_quotes p)) p)) eqn:IQ; [discriminate|].
      destruct ((brace_depth (set_in_quotes (negb (in_quotes p)) p) =? 0)
                && (bracket_depth (set_in_quotes (negb (in_quotes p)) p) =? 0)
                && (Ascii.eqb c Ch.comma || Ascii.eqb c Ch.rbrace)) eqn:D.
      * intros [= <-]. cbn in *.
        apply andb_true_iff in D as [D D3]. apply andb_true_iff in D as [D1 D2].
        apply Z.eqb_eq in D1, D2. apply orb_true_iff in D3.
        repeat split; auto; try lia.
        destruct D3 as [D3 | D3]; apply Ascii.eqb_eq in D3; auto.
      * turn_cases; discriminate.
    + destruct (in_quotes p) eqn:IQ; [discriminate|].
      destruct ((brace_depth p =? 0) && (bracket_depth p =? 0)
                && (Ascii.eqb c Ch.comma || Ascii.eqb c Ch.rbrace)) eqn:D.
      * intros [= <-]. cbn in *.
        apply andb_true_iff in D as [D D3]. apply andb_true_iff in D as [D1 D2].
        apply Z.eqb_eq in D1, D2. apply orb_true_iff in D3.
        repeat split; auto; try lia.
        destruct D3 as [D3 | D3]; apply Ascii.eqb_eq in D3; auto.
      * turn_cases; discriminate.
Qed.

Lemma scan_from_found rest : forall p i p',
  0 <= i -> value_started p i -> scan_from p i rest = (1, p') ->
  state p' = PARSE_STATE_IN_VALUE
  /\ in_quotes p' = false /\ brace_depth p' = 0 /\ bracket_depth p' = 0
  /\ 0 <= value_start p' /\ 1 <= value_len p'
  /\ parse_buffer p' = parse_buffer p
  /\ exists c, rest !! Z.to_nat (value_start p' + value_len p' - i) = Some c
               /\ (c = Ch.comma \/ c = Ch.rbrace)
               /\ i <= value_start p' + value_len p'.
Proof.
  induction rest as [|c rest IH]; intros p i p' Hi V; cbn [scan_from].
  - discriminate.
  - destruct (scan_byte p i c) as [q | code q] eqn:E.
    + destruct (scan_byte_next p i c q Hi V E) as [V' B].
      intros R. destruct (IH q (i + 1) p' ltac:(lia) V' R)
        as (F1 & F2 & F3 & F4 & F5 & F6 & F7 & c' & L & C & I).
      repeat split; auto; try congruence.
      exists c'. split; [|split; [exact C | lia]].
      replace (Z.to_nat (value_start p' + value_len p' - i))
        with (S (Z.to_nat (value_start p' + value_len p' - (i + 1)))) by lia.
      exact L.
    + intros [= -> ->].
      destruct (scan_byte_found p i c p' Hi V E)
        as (F1 & F2 & F3 & F4 & F5 & F6 & F7 & F8 & C).
      repeat split; auto.
      exists c. rewrite F7, Z.sub_diag. cbn. split; [reflexivity|]. split; [exact C | lia].
Qed.

Lemma guard_passes p :
  (c_not (enum_value (state p)) =? enum_value PARSE_STATE_SEEKING_KEY) = false ->
  state p = PARSE_STATE_SEEKING_KEY.
Proof. destruct (state p); cbn; congruence. Qed.

Lemma found_fields p p' :
  find_key_value_pair p = (1, p') ->
  0 <= value_start p' /\ 1 <= value_len p'
  /\ parse_buffer p' = parse_buffer p
  /\ (Z.to_nat (value_start p' + value_len p') < length (parse_buffer p))%nat.
Proof.
  unfold find_key_value_pair.
  destruct (c_not (enum_value (state p)) =? enum_value PARSE_STATE_SEEKING_KEY) eqn:G.
  { discriminate. }
  intros R. apply guard_passes in G.
  assert (V : value_started p 0) by (unfold value_started; rewrite G; discriminate).
  destruct (scan_from_found _ p 0 p' ltac:(lia) V R)
    as (F1 & F2 & F3 & F4 & F5 & F6 & F7 & c & L & C & _).
  rewrite Z.sub_0_r in L. apply lookup_lt_Some in L. auto.
Qed.

(** X1.  When [find_key_value_pair] returns 1, the state it leaves
    describes a value inside the bytes scanned: the phase is in-value,
    outside quotes, at brace and bracket depth 0; [value_start] is not
    negative, [value_len] is at least 1, the buffer is the one scanned,
    and the byte just after the value is a comma or a closing brace. *)
Theorem found_pair_shape p p' :
  find_key_value_pair p = (1, p') -> found_shape (parse_buffer p) p'.
Proof.
  unfold find_key_value_pair.
  destruct (c_not (enum_value (state p)) =? enum_value PARSE_STATE_SEEKING_KEY) eqn:G.
  { discriminate. }
  intros R. apply guard_passes in G.
  assert (V : value_started p 0) by (unfold value_started; rewrite G; discriminate).
  destruct (scan_from_found _ p 0 p' ltac:(lia) V R)
    as (F1 & F2 & F3 & F4 & F5 & F6 & F7 & c & L & C & _).
  unfold found_shape. repeat split; auto.
  exists c. rewrite Z.sub_0_r in L. auto.
Qed.

Lemma found_pair_shape_witness :
  find_key_value_pair one_pair = (1, snd (find_key_value_pair one_pair))
  /\ found_shape (parse_buffer one_pair) (snd (find_key_value_pair one_pair)).
Proof.
  split; [vm_compute; reflexivity|].
  apply (found_pair_shape one_pair). vm_compute. reflexivity.
Defined.

(** X2.  After a result of 1, [shift_parse_buffer_by_key_value] leaves
    exactly the bytes after the delimiter that ended the value: the
    buffer loses its first [value_start + value_len + 1] bytes, at
    least 2 of them, and the state is as
    [reset_value_tracking_for_parse_state] leaves it, so the next scan
    starts at a key. *)
Theorem consume_removes_pair p p' :
  find_key_value_pair p = (1, p') ->
  let q := shift_parse_buffer_by_key_value p' in
  parse_buffer q
  = skipn (Z.to_nat (value_start p' + value_len p' + 1)) (parse_buffer p)
  /\ (length (parse_buffer q) + 2 <= length (parse_buffer p))%nat
  /\ q = reset_value_tracking_for_parse_state q.
Proof.
  intros R. pose proof (found_fields p p' R) as (F5 & F6 & F7 & L).
  cbn zeta. unfold shift_parse_buffer_by_key_value, parse_buffer_len.
  assert (N : parse_buffer p' <> []) by (rewrite F7; intros E; rewrite E in L; cbn in L; lia).
  destruct (Z.of_nat (length (parse_buffer p')) =? 0) eqn:E0.
  { apply Z.eqb_eq in E0. destruct (parse_buffer p'); [congruence | cbn in E0; lia]. }
  destruct (value_len p' <=? 0) eqn:E1; [apply Z.leb_le in E1; lia|].
  cbn [orb]. unfold shift_buffer_by_len. cbn. rewrite F7.
  split; [reflexivity|]. split; [|reflexivity].
  rewrite length_skipn. lia.
Qed.

Lemma consume_removes_pair_witness :
  find_key_value_pair one_pair = (1, snd (find_key_value_pair one_pair))
  /\ (let p' := snd (find_key_value_pair one_pair) in
      let q := shift_parse_buffer_by_key_value p' in
      parse_buffer q
      = skipn (Z.to_nat (value_start p' + value_len p' + 1)) (parse_buffer one_pair)
      /\ (length (parse_buffer q) + 2 <= length (parse_buffer one_pair))%nat
      /\ q = reset_value_tracking_for_parse_state q).
Proof.
  split; [vm_compute; reflexivity|].
  apply (consume_removes_pair one_pair). vm_compute. reflexivity.
Defined.

Lemma skipped_is_passed p i c :
  fresh_scan p -> skipped_before_key c = true -> scan_byte p i c = Next p.
Proof.
  intros (S & E & Q) K. unfold scan_byte. rewrite E, Q, S, andb_false_r.
  unfold seeking_key, skipped_before_key in *.
  destruct (Ascii.eqb c Ch.quote) eqn:C1.
  { apply Ascii.eqb_eq in C1. subst c. discriminate K. }
  destruct (Ascii.eqb c Ch.rbrace) eqn:C2.
  { apply Ascii.eqb_eq in C2. subst c. discriminate K. }
  apply orb_true_iff in K as [K | K]; rewrite K; cbn; rewrite ?andb_false_r; reflexivity.
Qed.

Lemma scan_skips p skipped : forall i rest,
  fresh_scan p -> forallb skipped_before_key skipped = true ->
  scan_from p i (skipped ++ rest) = scan_from p (i + Z.of_nat (length skipped)) rest.
Proof.
  induction skipped as [|c skipped IH]; intros i rest F K.
  - cbn. f_equal. lia.
  - cbn [forallb] in K. apply andb_true_iff in K as [K1 K2].
    cbn [app scan_from]. rewrite (skipped_is_passed p i c F K1).
    rewrite IH by assumption. f_equal. cbn [length]. lia.
Qed.

(** X3.  When a scan that starts in the seeking-key phase meets a
    closing brace after only blanks and opening braces, the bytes up to
    the brace and the brace are dropped and the value tracking is
    reset; the result is 0 when only blanks follow the brace, and -1
    otherwise. *)
Theorem closing_brace_ends_object p skipped rest :
  fresh_scan p -> forallb skipped_before_key skipped = true ->
  parse_buffer p = skipped ++ Ch.rbrace :: rest ->
  find_key_value_pair p
  = ((if forallb is_whitespace rest then 0 else -1),
     reset_value_tracking_for_parse_state
       (mk_state (state p) (key_buffer p) (key_pos p) (bracket_depth p)
                 (brace_depth p) (in_quotes p) (escape_next p)
                 (value_start p) (value_len p) rest)).
Proof.
  intros F K B. pose proof F as (S & E & Q).
  unfold find_key_value_pair. rewrite S. cbn [enum_value c_not Z.eqb].
  rewrite B, (scan_skips p skipped 0 _ F K). cbn [scan_from].
  unfold scan_byte. rewrite E, Q, S, andb_false_r. unfold seeking_key.
  replace (Ascii.eqb Ch.rbrace Ch.quote) with false by reflexivity.
  rewrite Ascii.eqb_refl. cbv zeta.
  assert (Hs : shift_buffer_by_len p (0 + Z.of_nat (length skipped) + 1)
    = reset_value_tracking_for_parse_state
       (mk_state (state p) (key_buffer p) (key_pos p) (bracket_depth p)
                 (brace_depth p) (in_quotes p) (escape_next p)
                 (value_start p) (value_len p) rest)).
  { unfold shift_buffer_by_len. do 2 f_equal. rewrite B.
    replace (Z.to_nat (0 + Z.of_nat (length skipped) + 1)) with (length skipped + 1)%nat by lia.
    rewrite skipn_app, skipn_all2 by lia.
    replace (length skipped + 1 - length skipped)%nat with 1%nat by lia. reflexivity. }
  rewrite Hs. unfold check_remaining_buffer. cbn [parse_buffer reset_value_tracking_for_parse_state].
  destruct (forallb is_whitespace rest); reflexivity.
Qed.

Lemma closing_brace_ends_object_witness :
  (fresh_scan closed_then_space
   /\ forallb skipped_before_key (Ch.s " {  ") = true
   /\ parse_buffer closed_then_space = Ch.s " {  " ++ Ch.rbrace :: Ch.s " ")
  /\ find_key_value_pair closed_then_space
     = ((if forallb is_whitespace (Ch.s " ") then 0 else -1),
        reset_value_tracking_for_parse_state
          (mk_state (state closed_then_space) (key_buffer closed_then_space)
             (key_pos closed_then_space) (bracket_depth closed_then_space)
             (brace_depth closed_then_space) (in_quotes closed_then_space)
             (escape_next closed_then_space) (value_start closed_then_space)
             (value_len closed_then_space) (Ch.s " "))).
Proof.
  split; [repeat split|].
  apply (closing_brace_ends_object closed_then_space (Ch.s " {  ") (Ch.s " "));
    repeat split.
Defined.

(** X4.  When a scan in the seeking-key phase meets, after blanks and
    opening braces, a byte that is none of quote, closing brace, blank
    and opening brace, it returns -1 and leaves the initial state: the
    buffer is emptied and the key buffer cleared. *)
Theorem stray_byte_resets p skipped c rest :
  fresh_scan p -> forallb skipped_before_key skipped = true ->
  skipped_before_key c = false -> c <> Ch.quote -> c <> Ch.rbrace ->
  parse_buffer p = skipped ++ c :: rest ->
  find_key_value_pair p = (-1, initial_state).
Proof.
  intros F K C C1 C2 B. pose proof F as (S & E & Q).
  unfold find_key_value_pair. rewrite S. cbn [enum_value c_not Z.eqb].
  rewrite B, (scan_skips p skipped 0 _ F K). cbn [scan_from].
  unfold scan_byte. rewrite E, Q, S, andb_false_r. unfold seeking_key.
  apply Ascii.eqb_neq in C1, C2. rewrite C1, C2.
  unfold skipped_before_key in C. apply orb_false_iff in C as [W L].
  rewrite W, L. reflexivity.
Qed.

Lemma stray_byte_resets_witness :
  (fresh_scan (append_input initial_state (Ch.s "{ x"))
   /\ forallb skipped_before_key (Ch.s "{ ") = true
   /\ skipped_before_key "x" = false /\ "x"%char <> Ch.quote /\ "x"%char <> Ch.rbrace
   /\ parse_buffer (append_input initial_state (Ch.s "{ x")) = Ch.s "{ " ++ "x"%char :: [])
  /\ find_key_value_pair (append_input initial_state (Ch.s "{ x")) = (-1, initial_state).
Proof.
  assert (N1 : "x"%char <> Ch.quote) by discriminate.
  assert (N2 : "x"%char <> Ch.rbrace) by discriminate.
  split; [repeat split; assumption|].
  apply (stray_byte_resets (append_input initial_state (Ch.s "{ x")) (Ch.s "{ ") "x" []);
    repeat split; assumption.
Defined.

Lemma c_string_bound l : forall n : nat,
  l !! n = Some Ch.nul -> (length (c_string l) <= n)%nat.
Proof.
  induction l as [|c l IH]; intros n H; [discriminate H|].
  cbn [c_string]. destruct (Ascii.eqb c Ch.nul) eqn:E; [cbn; lia|].
  destruct n as [|n].
  - cbn in H. injection H as ->. discriminate E.
  - cbn in H. cbn [length]. specialize (IH n H). lia.
Qed.

Lemma reset_json_in_bounds p :
  key_in_bounds (reset_json_parse_state p) /\ key_terminated (reset_json_parse_state p).
Proof. unfold key_in_bounds, key_terminated, KEY_BUFFER_SIZE. cbn. repeat split; lia. Qed.

Lemma shift_in_bounds p n :
  key_in_bounds p ->
  key_in_bounds (shift_buffer_by_len p n) /\ key_terminated (shift_buffer_by_len p n).
Proof.
  unfold key_in_bounds, key_terminated, KEY_BUFFER_SIZE. cbn. intros [L K]. repeat split; auto; lia.
Qed.

Lemma scan_byte_key_bounds p i c :
  key_in_bounds p -> key_terminated p ->
  match scan_byte p i c with
  | Next p' | Return _ p' => key_in_bounds p' /\ key_terminated p'
  end.
Proof.
  intros K T. unfold scan_byte.
  destruct (escape_next p); [exact (conj K T)|].
  destruct (Ascii.eqb c Ch.backslash && in_quotes p); [exact (conj K T)|].
  pose proof K as [L B]. unfold KEY_BUFFER_SIZE in *.
  unfold key_terminated in T.
  destruct (state p) eqn:S.
  - unfold seeking_key. turn_cases;
      try apply shift_in_bounds; try apply reset_json_in_bounds; auto;
      unfold key_in_bounds, key_terminated, KEY_BUFFER_SIZE; cbn; rewrite ?S; auto.
  - unfold in_key. destruct (Ascii.eqb c Ch.quote).
    + unfold key_in_bounds, key_terminated, KEY_BUFFER_SIZE.
      cbn [state key_buffer key_pos set_state set_key]. rewrite length_insert.
      split; [split; [exact L | lia]|]. apply list_lookup_insert_eq. lia.
    + destruct (key_pos p <? KEY_BUFFER_SIZE - 1) eqn:E.
      * apply Z.ltb_lt in E. unfold key_in_bounds, key_terminated, KEY_BUFFER_SIZE in *.
        cbn [state key_buffer key_pos set_state set_key]. rewrite length_insert, S.
        repeat split; auto; lia.
      * unfold key_in_bounds, key_terminated, KEY_BUFFER_SIZE. rewrite S. auto.
  - unfold seeking_colon. turn_cases; try apply reset_json_in_bounds;
      unfold key_in_bounds, key_terminated, KEY_BUFFER_SIZE; cbn; rewrite ?S; auto.
  - unfold seeking_value. turn_cases;
      unfold key_in_bounds, key_terminated, KEY_BUFFER_SIZE; cbn; rewrite ?S; auto.
  - unfold in_value. turn_cases;
      unfold key_in_bounds, key_terminated, KEY_BUFFER_SIZE; cbn; rewrite ?S; auto.
Qed.

Lemma scan_from_key_bounds rest : forall p i,
  key_in_bounds p -> key_terminated p ->
  key_in_bounds (snd (scan_from p i rest)) /\ key_terminated (snd (scan_from p i rest)).
Proof.
  induction rest as [|c rest IH]; intros p i K T; cbn [scan_from]; [auto|].
  pose proof (scan_byte_key_bounds p i c K T) as H.
  destruct (scan_byte p i c) as [q | code q]; [apply IH; apply H | exact H].
Qed.

(** X6.  [find_key_value_pair] keeps the key position inside the key
    buffer: from a state whose key buffer has its 64 bytes and whose
    key position is from 0 to 63, it returns such a state whatever the
    bytes scanned and whatever the result, and after a result of 1 the
    key read back has at most 63 bytes (a longer key is cut). *)
Theorem key_stays_in_bounds p code p' :
  key_in_bounds p -> find_key_value_pair p = (code, p') ->
  key_in_bounds p' /\ (code = 1 -> (length (found_key p') <= 63)%nat).
Proof.
  intros K. unfold find_key_value_pair.
  destruct (c_not (enum_value (state p)) =? enum_value PARSE_STATE_SEEKING_KEY) eqn:G.
  { intros [= <- <-]. split; [exact K | discriminate]. }
  apply guard_passes in G. intros R.
  assert (T : key_terminated p) by (unfold key_terminated; rewrite G; exact Logic.I).
  pose proof (scan_from_key_bounds (parse_buffer p) p 0 K T) as [K' T'].
  rewrite R in K', T'. cbn [snd] in K', T'. split; [exact K'|].
  intros ->. unfold find_key_value_pair in R.
  assert (V : value_started p 0) by (unfold value_started; rewrite G; discriminate).
  destruct (scan_from_found _ p 0 p' ltac:(lia) V R) as (F1 & _).
  unfold key_terminated in T'. rewrite F1 in T'.
  destruct K' as [_ B]. unfold KEY_BUFFER_SIZE in B.
  pose proof (c_string_bound _ _ T'). unfold found_key. lia.
Qed.

Lemma key_stays_in_bounds_witness :
  (key_in_bounds (append_input initial_state long_key_document)
   /\ find_key_value_pair (append_input initial_state long_key_document)
      = (1, snd (find_key_value_pair (append_input initial_state long_key_document))))
  /\ key_in_bounds (snd (find_key_value_pair (append_input initial_state long_key_document)))
  /\ (1 = 1 ->
      (length (found_key (snd (find_key_value_pair
                                 (append_input initial_state long_key_document)))) <= 63)%nat).
Proof.
  assert (K : key_in_bounds (append_input initial_state long_key_document)).
  { split; [reflexivity | vm_compute; split; discriminate]. }
  assert (R : find_key_value_pair (append_input initial_state long_key_document)
      = (1, snd (find_key_value_pair (append_input initial_state long_key_document))))
    by (vm_compute; reflexivity).
  split; [split; assumption|].
  apply (key_stays_in_bounds _ 1 _ K R).
Defined.

Lemma scan_steady p seg : forall i rest,
  (forall j c, In c seg -> scan_byte p j c = Next p) ->
  scan_from p i (seg ++ rest) = scan_from p (i + Z.of_nat (length seg)) rest.
Proof.
  induction seg as [|c seg IH]; intros i rest H.
  - cbn. f_equal. lia.
  - cbn [app scan_from]. rewrite (H i c) by (left; reflexivity).
    rewrite IH by (intros; apply H; right; assumption).
    f_equal. cbn [length]. lia.
Qed.

Lemma scan_key key : forall kb kp vs vl buf i rest,
  forallb key_byte key = true ->
  0 <= kp -> kp + Z.of_nat (length key) <= KEY_BUFFER_SIZE - 1 ->
  length kb = Z.to_nat KEY_BUFFER_SIZE ->
  exists kb',
    scan_from (mk_state PARSE_STATE_IN_KEY kb kp 0 0 false false vs vl buf) i (key ++ rest)
    = scan_from (mk_state PARSE_STATE_IN_KEY kb' (kp + Z.of_nat (length key)) 0 0
                          false false vs vl buf)
                (i + Z.of_nat (length key)) rest
    /\ length kb' = length kb
    /\ firstn (Z.to_nat kp + length key) kb' = firstn (Z.to_nat kp) kb ++ key.
Proof.
  unfold KEY_BUFFER_SIZE.
  induction key as [|c key IH]; intros kb kp vs vl buf i rest K H0 H1 L.
  - exists kb. cbn [app length]. rewrite !Z.add_0_r, Nat.add_0_r, app_nil_r. auto.
  - cbn [forallb] in K. apply andb_true_iff in K as [Kc K].
    unfold key_byte in Kc. apply andb_true_iff in Kc as [Kq _].
    apply negb_true_iff in Kq. cbn [length] in H1.
    destruct (IH (<[Z.to_nat kp := c]> kb) (kp + 1) vs vl buf (i + 1) rest K)
      as (kb' & E & L' & T); [lia | lia | rewrite length_insert; exact L |].
    exists kb'. cbn [app scan_from]. unfold scan_byte, in_key.
    cbn [escape_next in_quotes state key_pos key_buffer]. rewrite andb_false_r, Kq.
    unfold KEY_BUFFER_SIZE.
    destruct (kp <? 64 - 1) eqn:B; [|apply Z.ltb_ge in B; lia].
    unfold set_key. cbn [escape_next in_quotes state key_pos key_buffer bracket_depth
                          brace_depth value_start value_len parse_buffer].
    rewrite E. rewrite length_insert in L'. cbn [length].
    split; [f_equal; [f_equal|]; lia|]. split; [exact L'|].
    replace (Z.to_nat kp + S (length key))%nat with (Z.to_nat (kp + 1) + length key)%nat by lia.
    rewrite T. replace (Z.to_nat (kp + 1)) with (S (Z.to_nat kp)) by lia.
    rewrite (take_S_r _ _ c) by (apply list_lookup_insert_eq; lia).
    rewrite take_insert_ge by lia. rewrite <- app_assoc. reflexivity.
Qed.

Lemma c_string_take key : forall kb,
  forallb key_byte key = true ->
  firstn (length key) kb = key -> kb !! length key = Some Ch.nul ->
  c_string kb = key.
Proof.
  induction key as [|c key IH]; intros kb K T N.
  - destruct kb as [|x kb]; [reflexivity|]. cbn in N. injection N as ->. reflexivity.
  - destruct kb as [|x kb]; [discriminate T|]. cbn in T. injection T as -> T.
    cbn [forallb] in K. apply andb_true_iff in K as [Kc K].
    unfold key_byte in Kc. apply andb_true_iff in Kc as [_ Kn].
    apply negb_true_iff in Kn. cbn [c_string]. rewrite Kn. f_equal.
    apply IH; assumption.
Qed.

Lemma blank_not_special c :
  is_whitespace c = true ->
  Ascii.eqb c Ch.quote = false /\ Ascii.eqb c Ch.colon = false
  /\ Ascii.eqb c Ch.backslash = false.
Proof.
  unfold is_whitespace. intros H.
  repeat (apply orb_true_iff in H as [H | H]);
    apply Ascii.eqb_eq in H; subst c; repeat split.
Qed.

Lemma in_forallb {A} (f : A -> bool) l x :
  forallb f l = true -> In x l -> f x = true.
Proof. intros H. rewrite forallb_forall in H. apply H. Qed.

Lemma value_is_scanned value delim : forall kb kp buf i rest,
  simple_value value -> delim = Ch.comma \/ delim = Ch.rbrace ->
  scan_from (mk_state PARSE_STATE_SEEKING_VALUE kb kp 0 0 false false 0 0 buf) i
            (value ++ delim :: rest)
  = (1, mk_state PARSE_STATE_IN_VALUE kb kp 0 0 false false i
                 (Z.of_nat (length value)) buf).
Proof.
  intros kb kp buf i rest V D.
  assert (Dq : Ascii.eqb delim Ch.quote = false) by (destruct D; subst; reflexivity).
  assert (Db : Ascii.eqb delim Ch.backslash = false) by (destruct D; subst; reflexivity).
  assert (Dd : Ascii.eqb delim Ch.comma || Ascii.eqb delim Ch.rbrace = true)
    by (destruct D; subst; reflexivity).
  destruct V as [(body & -> & T) | [(c & tl & -> & W & S) | (inner & Hv & Fl)]].
  - unfold Ch.q. cbn [app scan_from]. unfold scan_byte at 1, seeking_value.
    cbn [escape_next in_quotes state andb]. rewrite andb_false_r.
    replace (is_whitespace Ch.quote) with false by reflexivity.
    cbn [negb]. rewrite Ascii.eqb_refl. cbv zeta.
    unfold set_value_start, set_state, set_in_quotes.
    cbn [escape_next in_quotes state key_pos key_buffer bracket_depth
           brace_depth value_start value_len parse_buffer].
    rewrite <- app_assoc. rewrite scan_steady.
    2:{ intros j c Hc. pose proof (in_forallb _ _ _ T Hc) as Tc.
        unfold text_byte in Tc. apply andb_true_iff in Tc as [Tq Tb].
        apply negb_true_iff in Tq, Tb.
        unfold scan_byte, in_value. cbn [escape_next in_quotes state].
        rewrite Tb, Tq. reflexivity. }
    cbn [app scan_from]. unfold scan_byte at 1, in_value.
    cbn [escape_next in_quotes state negb andb].
    replace (Ascii.eqb Ch.quote Ch.backslash) with false by reflexivity.
    rewrite Ascii.eqb_refl. cbn [andb negb].
    unfold set_in_quotes at 1 2 3.
    cbn [escape_next in_quotes state key_pos key_buffer bracket_depth
           brace_depth value_start value_len parse_buffer Z.eqb andb].
    replace (Ascii.eqb Ch.quote Ch.comma || Ascii.eqb Ch.quote Ch.rbrace) with false by reflexivity.
    replace (Ascii.eqb Ch.quote Ch.lbrace) with false by reflexivity.
    replace (Ascii.eqb Ch.quote Ch.rbrace) with false by reflexivity.
    replace (Ascii.eqb Ch.quote Ch.lbracket) with false by reflexivity.
    replace (Ascii.eqb Ch.quote Ch.rbracket) with false by reflexivity.
    unfold set_in_quotes.
    cbn [escape_next in_quotes state key_pos key_buffer bracket_depth
           brace_depth value_start value_len parse_buffer].
    unfold scan_byte, in_value. cbn [escape_next in_quotes state andb].
    rewrite Db, Dq. cbn [andb]. cbn [escape_next in_quotes state key_pos key_buffer bracket_depth
           brace_depth value_start value_len parse_buffer Z.eqb andb].
    rewrite Dd. unfold set_value_len.
    cbn [escape_next in_quotes state key_pos key_buffer bracket_depth
           brace_depth value_start value_len parse_buffer].
    do 2 f_equal. cbn [length]. rewrite length_app. cbn [length]. lia.
  - cbn [forallb] in S. apply andb_true_iff in S as [Sc S].
    assert (Sb : forall x, scalar_byte x = true ->
      Ascii.eqb x Ch.quote = false /\ Ascii.eqb x Ch.lbrace = false
      /\ Ascii.eqb x Ch.rbrace = false /\ Ascii.eqb x Ch.lbracket = false
      /\ Ascii.eqb x Ch.rbracket = false /\ Ascii.eqb x Ch.comma = false).
    { intros x Hx. unfold scalar_byte in Hx. apply negb_true_iff in Hx.
      repeat (apply orb_false_iff in Hx as [Hx ?]). auto 10. }
    destruct (Sb c Sc) as (C1 & C2 & C3 & C4 & C5 & C6).
    cbn [app scan_from]. unfold scan_byte at 1, seeking_value.
    cbn [escape_next in_quotes state andb]. rewrite andb_false_r, W. cbn [negb].
    rewrite C1, C2, C4. cbv zeta.
    unfold set_value_start, set_state.
    cbn [escape_next in_quotes state key_pos key_buffer bracket_depth
           brace_depth value_start value_len parse_buffer].
    rewrite scan_steady.
    2:{ intros j x Hx. destruct (Sb x (in_forallb _ _ _ S Hx)) as (X1 & X2 & X3 & X4 & X5 & X6).
        unfold scan_byte, in_value. cbn [escape_next in_quotes state].
        rewrite andb_false_r, X1. cbn [andb in_quotes brace_depth bracket_depth Z.eqb].
        rewrite X6, X3, X2, X4, X5. reflexivity. }
    cbn [scan_from]. unfold scan_byte, in_value. cbn [escape_next in_quotes state].
    rewrite andb_false_r, Dq. cbn [andb in_quotes brace_depth bracket_depth Z.eqb].
    rewrite Dd. unfold set_value_len.
    cbn [escape_next in_quotes state key_pos key_buffer bracket_depth
           brace_depth value_start value_len parse_buffer].
    do 2 f_equal. cbn [length]. lia.
  - assert (Fb : forall x, flat_byte x = true ->
      Ascii.eqb x Ch.quote = false /\ Ascii.eqb x Ch.lbrace = false
      /\ Ascii.eqb x Ch.rbrace = false /\ Ascii.eqb x Ch.lbracket = false
      /\ Ascii.eqb x Ch.rbracket = false).
    { intros x Hx. unfold flat_byte in Hx. apply negb_true_iff in Hx.
      repeat (apply orb_false_iff in Hx as [Hx ?]). auto 10. }
    destruct Hv as [-> | ->].
    + cbn [app scan_from]. unfold scan_byte at 1, seeking_value.
      cbn [escape_next in_quotes state andb]. rewrite andb_false_r.
      replace (is_whitespace Ch.lbrace) with false by reflexivity.
      replace (Ascii.eqb Ch.lbrace Ch.quote) with false by reflexivity.
      cbn [negb]. rewrite Ascii.eqb_refl. cbv zeta.
      unfold set_value_start, set_state, set_brace_depth.
      cbn [escape_next in_quotes state key_pos key_buffer bracket_depth
             brace_depth value_start value_len parse_buffer].
      rewrite <- app_assoc. rewrite scan_steady.
      2:{ intros j x Hx. destruct (Fb x (in_forallb _ _ _ Fl Hx)) as (X1 & X2 & X3 & X4 & X5).
          unfold scan_byte, in_value. cbn [escape_next in_quotes state].
          rewrite andb_false_r, X1. cbn [andb in_quotes brace_depth bracket_depth Z.eqb].
          rewrite X3, X2, X4, X5. reflexivity. }
      cbn [app scan_from]. unfold scan_byte at 1, in_value.
      cbn [escape_next in_quotes state andb]. rewrite andb_false_r.
      replace (Ascii.eqb Ch.rbrace Ch.quote) with false by reflexivity.
      cbn [andb in_quotes brace_depth bracket_depth Z.eqb].
      replace (Ascii.eqb Ch.rbrace Ch.lbrace) with false by reflexivity.
      rewrite Ascii.eqb_refl. unfold set_brace_depth.
      cbn [escape_next in_quotes state key_pos key_buffer bracket_depth
             brace_depth value_start value_len parse_buffer Z.sub Z.add Z.pos_sub].
      unfold scan_byte, in_value. cbn [escape_next in_quotes state].
      rewrite andb_false_r, Dq. cbn [andb in_quotes brace_depth bracket_depth Z.eqb].
      rewrite Dd. unfold set_value_len.
      cbn [escape_next in_quotes state key_pos key_buffer bracket_depth
             brace_depth value_start value_len parse_buffer].
      do 2 f_equal. cbn [length]. rewrite length_app. cbn [length]. lia.
    + cbn [app scan_from]. unfold scan_byte at 1, seeking_value.
      cbn [escape_next in_quotes state andb]. rewrite andb_false_r.
      replace (is_whitespace Ch.lbracket) with false by reflexivity.
      replace (Ascii.eqb Ch.lbracket Ch.quote) with false by reflexivity.
      replace (Ascii.eqb Ch.lbracket Ch.lbrace) with false by reflexivity.
      cbn [negb]. rewrite Ascii.eqb_refl. cbv zeta.
      unfold set_value_start, set_state, set_bracket_depth.
      cbn [escape_next in_quotes state key_pos key_buffer bracket_depth
             brace_depth value_start value_len parse_buffer].
      rewrite <- app_assoc. rewrite scan_steady.
      2:{ intros j x Hx. destruct (Fb x (in_forallb _ _ _ Fl Hx)) as (X1 & X2 & X3 & X4 & X5).
          unfold scan_byte, in_value. cbn [escape_next in_quotes state].
          rewrite andb_false_r, X1. cbn [andb in_quotes brace_depth bracket_depth Z.eqb].
          rewrite X3, X2, X4, X5. reflexivity. }
      cbn [app scan_from]. unfold scan_byte at 1, in_value.
      cbn [escape_next in_quotes state andb]. rewrite andb_false_r.
      replace (Ascii.eqb Ch.rbracket Ch.quote) with false by reflexivity.
      cbn [andb in_quotes brace_depth bracket_depth Z.eqb].
      replace (Ascii.eqb Ch.rbracket Ch.lbrace) with false by reflexivity.
      replace (Ascii.eqb Ch.rbracket Ch.rbrace) with false by reflexivity.
      replace (Ascii.eqb Ch.rbracket Ch.lbracket) with false by reflexivity.
      rewrite Ascii.eqb_refl. unfold set_bracket_depth.
      cbn [escape_next in_quotes state key_pos key_buffer bracket_depth
             brace_depth value_start value_len parse_buffer Z.sub Z.add Z.pos_sub].
      unfold scan_byte, in_value. cbn [escape_next in_quotes state].
      rewrite andb_false_r, Dq. cbn [andb in_quotes brace_depth bracket_depth Z.eqb].
      rewrite Dd. unfold set_value_len.
      cbn [escape_next in_quotes state key_pos key_buffer bracket_depth
             brace_depth value_start value_len parse_buffer].
      do 2 f_equal. cbn [length]. rewrite length_app. cbn [length]. lia.
Qed.

Lemma simple_value_length value : simple_value value -> (1 <= length value)%nat.
Proof.
  intros [(body & -> & _) | [(c & tl & -> & _) | (inner & [-> | ->] & _)]];
    unfold Ch.q; cbn [length]; lia.
Qed.

Lemma pair_is_scanned p lead key gap1 gap2 value delim rest :
  at_pair_start p ->
  forallb skipped_before_key lead = true ->
  forallb key_byte key = true -> (length key <= 63)%nat ->
  forallb is_whitespace gap1 = true -> forallb is_whitespace gap2 = true ->
  simple_value value ->
  delim = Ch.comma \/ delim = Ch.rbrace ->
  parse_buffer p
  = lead ++ Ch.q key ++ gap1 ++ [Ch.colon] ++ gap2 ++ value ++ delim :: rest ->
  exists p',
    find_key_value_pair p = (1, p')
    /\ found_key p' = key /\ found_value p' = value
    /\ parse_buffer (shift_parse_buffer_by_key_value p') = rest
    /\ at_pair_start (shift_parse_buffer_by_key_value p').
Proof.
  intros [R L] Hlead Hkey Hlen Hg1 Hg2 V D B.
  destruct p as [st kb kp bd brd iq en vs vl buf].
  unfold reset_value_tracking_for_parse_state in R.
  cbn [key_buffer parse_buffer] in *.
  injection R as <- <- <- <- <- <- <- <-.
  unfold find_key_value_pair. cbn [state enum_value c_not Z.eqb parse_buffer].
  match goal with |- context [scan_from ?st 0 buf] => remember st as st0 eqn:Hst end.
  rewrite B. subst st0.
  rewrite scan_skips by (try exact Hlead; repeat split).
  unfold Ch.q. cbn [app scan_from]. unfold scan_byte at 1, seeking_key.
  cbn [escape_next in_quotes state andb]. rewrite andb_false_r, Ascii.eqb_refl.
  unfold set_state. cbn [escape_next in_quotes state key_pos key_buffer bracket_depth
           brace_depth value_start value_len parse_buffer].
  rewrite <- !app_assoc.
  match goal with
  | |- context [scan_from _ ?i (key ++ ?X)] =>
      destruct (scan_key key kb 0 0 0 buf i X Hkey)
        as (kb' & E & L' & T); [lia | unfold KEY_BUFFER_SIZE; lia | exact L |]
  end.
  rewrite E. clear E. cbn [app scan_from]. unfold scan_byte at 1, in_key.
  cbn [escape_next in_quotes state andb]. rewrite andb_false_r, Ascii.eqb_refl.
  unfold set_state, set_key. cbn [escape_next in_quotes state key_pos key_buffer bracket_depth
           brace_depth value_start value_len parse_buffer].
  rewrite scan_steady.
  2:{ intros j c Hc. destruct (blank_not_special c (in_forallb _ _ _ Hg1 Hc)) as (_ & C2 & C3).
      unfold scan_byte, seeking_colon. cbn [escape_next in_quotes state].
      rewrite andb_false_r, C2, (in_forallb _ _ _ Hg1 Hc). reflexivity. }
  cbn [scan_from]. unfold scan_byte at 1, seeking_colon.
  cbn [escape_next in_quotes state andb]. rewrite andb_false_r, Ascii.eqb_refl.
  unfold set_state. cbn [escape_next in_quotes state key_pos key_buffer bracket_depth
           brace_depth value_start value_len parse_buffer].
  rewrite scan_steady.
  2:{ intros j c Hc. unfold scan_byte, seeking_value. cbn [escape_next in_quotes state].
      rewrite andb_false_r, (in_forallb _ _ _ Hg2 Hc). reflexivity. }
  rewrite (value_is_scanned value delim _ _ _ _ rest V D).
  eexists. split; [reflexivity|].
  pose proof (simple_value_length value V) as Hv.
  unfold KEY_BUFFER_SIZE in *. rewrite L in L'.
  split; [|split; [|split]].
  - unfold found_key. cbn [key_buffer]. rewrite Z.add_0_l, Nat2Z.id.
    apply c_string_take; [exact Hkey | | apply list_lookup_insert_eq; lia].
    rewrite take_insert_ge by lia. cbn in T. exact T.
  - unfold found_value. cbn [value_len value_start parse_buffer]. rewrite B.
    set (pre := lead ++ Ch.q key ++ gap1 ++ [Ch.colon] ++ gap2).
    replace (lead ++ Ch.q key ++ gap1 ++ [Ch.colon] ++ gap2 ++ value ++ delim :: rest)
      with (pre ++ value ++ delim :: rest)
      by (unfold pre; rewrite <- !app_assoc; reflexivity).
    rewrite drop_app_length'.
    + rewrite Nat2Z.id. apply take_app_length.
    + unfold pre, Ch.q. rewrite !length_app. cbn [length]. rewrite !length_app. cbn [length]. lia.
  - unfold shift_parse_buffer_by_key_value, parse_buffer_len.
    cbn [value_len value_start parse_buffer].
    assert (Hb : (1 <= length buf)%nat).
    { rewrite B, !length_app. lia. }
    destruct (Z.of_nat (length buf) =? 0) eqn:E0; [apply Z.eqb_eq in E0; lia|].
    destruct (Z.of_nat (length value) <=? 0) eqn:E1; [apply Z.leb_le in E1; lia|].
    cbn [orb]. unfold shift_buffer_by_len. cbn.
    set (pre := lead ++ Ch.q key ++ gap1 ++ [Ch.colon] ++ gap2).
    assert (B' : buf = (pre ++ value ++ [delim]) ++ rest)
      by (rewrite B; unfold pre; rewrite <- !app_assoc; reflexivity).
    rewrite B'. apply drop_app_length'.
    unfold pre, Ch.q. rewrite !length_app. cbn [length]. rewrite !length_app. cbn [length]. lia.
  - unfold shift_parse_buffer_by_key_value, parse_buffer_len.
    cbn [value_len value_start parse_buffer].
    assert (Hb : (1 <= length buf)%nat).
    { rewrite B, !length_app. lia. }
    destruct (Z.of_nat (length buf) =? 0) eqn:E0; [apply Z.eqb_eq in E0; lia|].
    destruct (Z.of_nat (length value) <=? 0) eqn:E1; [apply Z.leb_le in E1; lia|].
    cbn [orb]. split; [reflexivity|]. cbn. rewrite length_insert. unfold KEY_BUFFER_SIZE. exact L'.
Qed.

(** X7.  From a state at the start of a pair, on a buffer that holds
    blanks or opening braces, a key between quotes, blanks, a colon,
    blanks, a simple value and a comma or a closing brace,
    [find_key_value_pair] returns 1; the key and the value read from
    the state are the ones of the buffer, and consuming the pair leaves
    the bytes after the delimiter, in a state at the start of a pair.
    The key has no quote and no null byte and at most 63 bytes
    (backslashes are plain bytes in a key); a simple value is a string,
    a scalar, or an object or array without strings or collections
    inside, whose commas do not end it. *)
Theorem scan_finds_pair p lead key gap1 gap2 value delim rest :
  at_pair_start p ->
  forallb skipped_before_key lead = true ->
  forallb key_byte key = true -> (length key <= 63)%nat ->
  forallb is_whitespace gap1 = true -> forallb is_whitespace gap2 = true ->
  simple_value value ->
  delim = Ch.comma \/ delim = Ch.rbrace ->
  parse_buffer p
  = lead ++ Ch.q key ++ gap1 ++ [Ch.colon] ++ gap2 ++ value ++ delim :: rest ->
  exists p',
    find_key_value_pair p = (1, p')
    /\ found_key p' = key /\ found_value p' = value
    /\ parse_buffer (shift_parse_buffer_by_key_value p') = rest
    /\ at_pair_start (shift_parse_buffer_by_key_value p').
Proof. apply pair_is_scanned. Qed.

Lemma initial_at_pair_start bytes : at_pair_start (append_input initial_state bytes).
Proof. split; reflexivity. Qed.

Lemma scan_finds_pair_witness :
  (at_pair_start (append_input initial_state
     (Ch.s "{ " ++ Ch.q (Ch.s "t\emp") ++ Ch.s " " ++ [Ch.colon] ++ Ch.s "  "
      ++ Ch.s "[1, 2]" ++ Ch.comma :: Ch.s " "))
   /\ forallb skipped_before_key (Ch.s "{ ") = true
   /\ forallb key_byte (Ch.s "t\emp") = true /\ (length (Ch.s "t\emp") <= 63)%nat
   /\ forallb is_whitespace (Ch.s " ") = true /\ forallb is_whitespace (Ch.s "  ") = true
   /\ simple_value (Ch.s "[1, 2]")
   /\ (Ch.comma = Ch.comma \/ Ch.comma = Ch.rbrace)
   /\ parse_buffer (append_input initial_state
        (Ch.s "{ " ++ Ch.q (Ch.s "t\emp") ++ Ch.s " " ++ [Ch.colon] ++ Ch.s "  "
         ++ Ch.s "[1, 2]" ++ Ch.comma :: Ch.s " "))
      = Ch.s "{ " ++ Ch.q (Ch.s "t\emp") ++ Ch.s " " ++ [Ch.colon] ++ Ch.s "  "
        ++ Ch.s "[1, 2]" ++ Ch.comma :: Ch.s " ")
  /\ exists p',
    find_key_value_pair (append_input initial_state
      (Ch.s "{ " ++ Ch.q (Ch.s "t\emp") ++ Ch.s " " ++ [Ch.colon] ++ Ch.s "  "
       ++ Ch.s "[1, 2]" ++ Ch.comma :: Ch.s " ")) = (1, p')
    /\ found_key p' = Ch.s "t\emp" /\ found_value p' = Ch.s "[1, 2]"
    /\ parse_buffer (shift_parse_buffer_by_key_value p') = Ch.s " "
    /\ at_pair_start (shift_parse_buffer_by_key_value p').
Proof.
  assert (V : simple_value (Ch.s "[1, 2]")).
  { right. right. exists (Ch.s "1, 2"). split; [right|]; reflexivity. }
  split.
  - split; [apply initial_at_pair_start|]. repeat split; auto; cbn; lia.
  - apply (scan_finds_pair _ (Ch.s "{ ") (Ch.s "t\emp") (Ch.s " ") (Ch.s "  ")
             (Ch.s "[1, 2]") Ch.comma (Ch.s " "));
      try reflexivity; try exact V; try apply initial_at_pair_start; cbn; auto; lia.
Defined.

Lemma members_text_comma m ms :
  members_text false (m :: ms) = Ch.comma :: members_text true (m :: ms).
Proof. reflexivity. Qed.

Lemma scan_empty p :
  at_pair_start p -> parse_buffer p = [] -> find_key_value_pair p = (0, p).
Proof.
  intros [R _] B. unfold find_key_value_pair. rewrite <- R at 1. cbn [state reset_value_tracking_for_parse_state enum_value c_not Z.eqb].
  rewrite B. reflexivity.
Qed.

Lemma members_are_scanned ms : forall m lead p rounds,
  at_pair_start p -> forallb skipped_before_key lead = true ->
  parse_buffer p = lead ++ members_text true (m :: ms) ++ [Ch.rbrace] ->
  scannable (m :: ms) -> (length (m :: ms) < rounds)%nat ->
  exists p',
    scan_and_consume rounds p = (found_pairs (m :: ms) ++ [NotFound], p')
    /\ parse_buffer p' = [].
Proof.
  induction ms as [|m' ms IH]; intros m lead p rounds A Hl B Hs Hr;
    inversion Hs as [|? ? (K1 & K2 & V) Hs']; subst.
  - destruct rounds as [|[|rounds]]; cbn [length] in Hr; try lia.
    destruct (pair_is_scanned p lead (fst m) [] [] (snd m) Ch.rbrace [] A Hl K1 K2
                eq_refl eq_refl V (or_intror eq_refl))
      as (p1 & E & Fk & Fv & Bs & As).
    { rewrite B. cbn [members_text]. unfold Ch.q.
      repeat first [progress cbn [app] | rewrite <- app_assoc | rewrite app_nil_r].
      reflexivity. }
    exists (shift_parse_buffer_by_key_value p1).
    cbn [scan_and_consume]. rewrite E. cbn [Z.eqb Pos.eqb].
    rewrite (scan_empty _ As Bs). cbn [Z.eqb]. rewrite Fk, Fv. split; [reflexivity | exact Bs].
  - destruct rounds as [|rounds]; cbn [length] in Hr; try lia.
    destruct (pair_is_scanned p lead (fst m) [] [] (snd m) Ch.comma
                (members_text true (m' :: ms) ++ [Ch.rbrace]) A Hl K1 K2
                eq_refl eq_refl V (or_introl eq_refl))
      as (p1 & E & Fk & Fv & Bs & As).
    { rewrite B. cbn [members_text]. unfold Ch.q.
      repeat first [progress cbn [app] | rewrite <- app_assoc | rewrite app_nil_r].
      reflexivity. }
    destruct (IH m' [] (shift_parse_buffer_by_key_value p1) rounds As eq_refl Bs Hs')
      as (p' & E' & B'); [cbn [length] in *; lia|].
    exists p'. cbn [scan_and_consume]. rewrite E. cbn [Z.eqb Pos.eqb].
    rewrite E', Fk, Fv. split; [reflexivity | exact B'].
Qed.

Lemma object_is_scanned_core members p rounds :
  at_pair_start p -> parse_buffer p = object_text members ->
  scannable members -> (length members < rounds)%nat ->
  exists p',
    scan_and_consume rounds p = (found_pairs members ++ [NotFound], p')
    /\ parse_buffer p' = [].
Proof.
  intros A B Hs Hr. destruct members as [|m ms].
  - destruct rounds as [|rounds]; [cbn in Hr; lia|].
    destruct p as [st kb kp bd brd iq en vs vl buf]. destruct A as [R L].
    unfold reset_value_tracking_for_parse_state in R. cbn [key_buffer parse_buffer] in *.
    injection R as <- <- <- <- <- <- <- <-. subst buf.
    eexists. cbn. split; reflexivity.
  - apply (members_are_scanned ms m [Ch.lbrace] p rounds A eq_refl B Hs Hr).
Qed.

(** X8.  Scanning and consuming, given an object of scannable members
    as a whole, finds every member in order with its key and its value,
    then returns 0 with the buffer empty. *)
Theorem object_is_scanned members p rounds :
  at_pair_start p -> parse_buffer p = object_text members ->
  scannable members -> (length members < rounds)%nat ->
  exists p',
    scan_and_consume rounds p = (found_pairs members ++ [NotFound], p')
    /\ parse_buffer p' = [].
Proof. apply object_is_scanned_core. Qed.

Lemma object_is_scanned_witness :
  (at_pair_start (append_input initial_state
     (object_text [(Ch.s "id", Ch.s "17"); (Ch.s "name", Ch.q (Ch.s "a,b}"))]))
   /\ parse_buffer (append_input initial_state
        (object_text [(Ch.s "id", Ch.s "17"); (Ch.s "name", Ch.q (Ch.s "a,b}"))]))
      = object_text [(Ch.s "id", Ch.s "17"); (Ch.s "name", Ch.q (Ch.s "a,b}"))]
   /\ scannable [(Ch.s "id", Ch.s "17"); (Ch.s "name", Ch.q (Ch.s "a,b}"))]
   /\ (length [(Ch.s "id", Ch.s "17"); (Ch.s "name", Ch.q (Ch.s "a,b}"))] < 3)%nat)
  /\ exists p',
    scan_and_consume 3 (append_input initial_state
      (object_text [(Ch.s "id", Ch.s "17"); (Ch.s "name", Ch.q (Ch.s "a,b}"))]))
    = (found_pairs [(Ch.s "id", Ch.s "17"); (Ch.s "name", Ch.q (Ch.s "a,b}"))]
       ++ [NotFound], p')
    /\ parse_buffer p' = [].
Proof.
  assert (Hs : scannable [(Ch.s "id", Ch.s "17"); (Ch.s "name", Ch.q (Ch.s "a,b}"))]).
  { constructor; [|constructor; [|constructor]];
      (split; [reflexivity|]; split; [cbn; lia|]).
    - right. left. eexists _, _. repeat split.
    - left. eexists. split; reflexivity. }
  split.
  - split; [apply initial_at_pair_start|]. split; [reflexivity|]. split; [exact Hs|].
    cbn. lia.
  - apply (object_is_scanned _ _ 3 (initial_at_pair_start _) eq_refl Hs). cbn. lia.
Defined.

(** X5.  From a state at the start of a pair, when the byte that
    follows a key (of at most 63 bytes, without quote or null byte) and
    blanks is neither a colon nor a blank, [find_key_value_pair] returns
    -1 and leaves the initial state: the buffer is emptied, with
    whatever pairs followed in it, and the key buffer cleared. *)
Theorem missing_colon_resets p lead key gap c rest :
  at_pair_start p ->
  forallb skipped_before_key lead = true ->
  forallb key_byte key = true -> (length key <= 63)%nat ->
  forallb is_whitespace gap = true ->
  is_whitespace c = false -> c <> Ch.colon ->
  parse_buffer p = lead ++ Ch.q key ++ gap ++ c :: rest ->
  find_key_value_pair p = (-1, initial_state).
Proof.
  intros [R L] Hlead Hkey Hlen Hg W C B.
  destruct p as [st kb kp bd brd iq en vs vl buf].
  unfold reset_value_tracking_for_parse_state in R.
  cbn [key_buffer parse_buffer] in *.
  injection R as <- <- <- <- <- <- <- <-.
  unfold find_key_value_pair. cbn [state enum_value c_not Z.eqb parse_buffer].
  match goal with |- context [scan_from ?st 0 buf] => remember st as st0 eqn:Hst end.
  rewrite B. subst st0.
  rewrite scan_skips by (try exact Hlead; repeat split).
  unfold Ch.q. cbn [app scan_from]. unfold scan_byte at 1, seeking_key.
  cbn [escape_next in_quotes state andb]. rewrite andb_false_r, Ascii.eqb_refl.
  unfold set_state. cbn [escape_next in_quotes state key_pos key_buffer bracket_depth
           brace_depth value_start value_len parse_buffer].
  rewrite <- !app_assoc.
  match goal with
  | |- context [scan_from _ ?i (key ++ ?X)] =>
      destruct (scan_key key kb 0 0 0 buf i X Hkey)
        as (kb' & E & L' & T); [lia | unfold KEY_BUFFER_SIZE; lia | exact L |]
  end.
  rewrite E. clear E. cbn [app scan_from]. unfold scan_byte at 1, in_key.
  cbn [escape_next in_quotes state andb]. rewrite andb_false_r, Ascii.eqb_refl.
  unfold set_state, set_key. cbn [escape_next in_quotes state key_pos key_buffer bracket_depth
           brace_depth value_start value_len parse_buffer].
  rewrite scan_steady.
  2:{ intros j x Hx. destruct (blank_not_special x (in_forallb _ _ _ Hg Hx)) as (_ & C2 & C3).
      unfold scan_byte, seeking_colon. cbn [escape_next in_quotes state].
      rewrite andb_false_r, C2, (in_forallb _ _ _ Hg Hx). reflexivity. }
  cbn [scan_from]. unfold scan_byte, seeking_colon.
  cbn [escape_next in_quotes state andb]. rewrite andb_false_r.
  apply Ascii.eqb_neq in C. rewrite C, W. reflexivity.
Qed.

Lemma missing_colon_resets_witness :
  (at_pair_start (append_input initial_state
     (Ch.s "{" ++ Ch.q (Ch.s "a") ++ Ch.s " " ++ "="%char :: Ch.s "1,"))
   /\ forallb skipped_before_key (Ch.s "{") = true
   /\ forallb key_byte (Ch.s "a") = true /\ (length (Ch.s "a") <= 63)%nat
   /\ forallb is_whitespace (Ch.s " ") = true
   /\ is_whitespace "=" = false /\ "="%char <> Ch.colon
   /\ parse_buffer (append_input initial_state
        (Ch.s "{" ++ Ch.q (Ch.s "a") ++ Ch.s " " ++ "="%char :: Ch.s "1,"))
      = Ch.s "{" ++ Ch.q (Ch.s "a") ++ Ch.s " " ++ "="%char :: Ch.s "1,")
  /\ find_key_value_pair (append_input initial_state
       (Ch.s "{" ++ Ch.q (Ch.s "a") ++ Ch.s " " ++ "="%char :: Ch.s "1,"))
     = (-1, initial_state).
Proof.
  assert (N : "="%char <> Ch.colon) by discriminate.
  split.
  - split; [apply initial_at_pair_start|]. repeat split; auto; cbn; lia.
  - apply (missing_colon_resets _ (Ch.s "{") (Ch.s "a") (Ch.s " ") "=" (Ch.s "1,"));
      try reflexivity; try exact N; try apply initial_at_pair_start; cbn; lia.
Defined.

End ParseFacts.

(** * Properties of the writer *)

Module WriteFacts.
Import Write WriteSpec.
Local Open Scope nat_scope.

Lemma triple_ret (P : world -> Prop) s (Q : sjson_status_t -> world -> Prop) :
  (forall w, P w -> Q s w) -> triple P (ret s) Q.
Proof. intros H w Hw. exists s, w. split; [reflexivity | auto]. Qed.

Lemma triple_bind (P : world -> Prop) m k Q1 Q :
  triple P m Q1 ->
  triple (Q1 SJSON_OK) k Q ->
  (forall s w, s <> SJSON_OK -> Q1 s w -> Q s w) ->
  triple P (m >>> k) Q.
Proof.
  intros Hm Hk Hfail w Hw. destruct (Hm w Hw) as (s & w1 & E & H1).
  unfold and_then. rewrite E. destruct s; try (eexists _, _; split; [reflexivity | apply Hfail; [discriminate | exact H1]]).
  apply Hk, H1.
Qed.

Lemma triple_with_ctx (P : world -> Prop) f Q :
  (forall c, triple (fun w => P w /\ fst w = c) (f c) Q) ->
  triple P (with_ctx f) Q.
Proof. intros H w Hw. unfold with_ctx. apply (H (fst w)). auto. Qed.

Lemma triple_conseq (P P' : world -> Prop) m (Q Q' : sjson_status_t -> world -> Prop) :
  triple P' m Q' -> (forall w, P w -> P' w) -> (forall s w, Q' s w -> Q s w) ->
  triple P m Q.
Proof.
  intros H HP HQ w Hw. destruct (H w (HP w Hw)) as (s & w' & E & Hq).
  exists s, w'. auto.
Qed.

Lemma triple_update (P : world -> Prop) f (Q : sjson_status_t -> world -> Prop) :
  (forall w, P w -> Q SJSON_OK (f (fst w), snd w)) -> triple P (update f) Q.
Proof. intros H w Hw. eexists _, _. split; [reflexivity | auto]. Qed.

Lemma keeps_bind P m k : keeps P m -> keeps P k -> keeps P (m >>> k).
Proof. intros Hm Hk. eapply triple_bind; eauto. Qed.

Lemma keeps_ret P s : keeps P (ret s).
Proof. apply triple_ret. auto. Qed.

Ltac ctx_simpl :=
  cbn [fst snd set_buffer set_depth_stack set_depth set_needs_comma
       set_finalized buffer buffer_size send_callback depth_stack depth
       max_depth needs_comma finalized] in *.

Lemma same_but_buffer_refl c : same_but_buffer c c.
Proof. destruct c; reflexivity. Qed.

Lemma same_but_buffer_trans c1 c2 c3 :
  same_but_buffer c1 c2 -> same_but_buffer c2 c3 -> same_but_buffer c1 c3.
Proof.
  unfold same_but_buffer. intros H1 H2. rewrite H2, H1.
  destruct c1; reflexivity.
Qed.

Lemma same_but_buffer_set b c : same_but_buffer c (set_buffer b c).
Proof. destruct c; reflexivity. Qed.

Lemma flush_any w :
  is_Some (send_callback (fst w)) ->
  exists s w', sjson_Flush w = Some (s, w')
    /\ ok_or_full s
    /\ same_but_buffer (fst w) (fst w')
    /\ used (fst w') <= used (fst w)
    /\ drained w'
    /\ (s = SJSON_OK -> used (fst w') = 0)
    /\ (s <> SJSON_OK -> fst w' = fst w).
Proof.
  destruct w as [c log]. cbn [fst snd]. intros [cb Hcb].
  unfold sjson_Flush, with_ctx. cbn [fst].
  destruct (used c =? 0) eqn:E.
  - apply Nat.eqb_eq in E. exists SJSON_OK, (c, log). split; [reflexivity|].
    cbn [fst snd]. repeat split; auto using same_but_buffer_refl.
    + left; reflexivity.
    + left. exact E.
  - rewrite Hcb. cbn [snd]. destruct (cb log (buffer c)).
    + eexists _, _. split; [reflexivity|]. cbn [fst snd].
      repeat split; auto using same_but_buffer_set; cbn; try lia.
      * left; reflexivity.
      * left. reflexivity.
      * congruence.
    + eexists _, _. split; [reflexivity|]. cbn [fst snd].
      repeat split; auto using same_but_buffer_refl; try discriminate.
      * right; reflexivity.
      * right. eexists _, _. reflexivity.
Qed.

Lemma same_but_buffer_size c c' :
  same_but_buffer c c' -> buffer_size c' = buffer_size c.
Proof. intros ->. reflexivity. Qed.

Lemma same_but_buffer_callback c c' :
  same_but_buffer c c' -> send_callback c' = send_callback c.
Proof. intros ->. reflexivity. Qed.

Lemma write_loop_any turns : forall data w,
  length data <= turns ->
  is_Some (send_callback (fst w)) ->
  used (fst w) < buffer_size (fst w) ->
  exists s w', write_loop turns data w = Some (s, w')
    /\ ok_or_full s
    /\ same_but_buffer (fst w) (fst w')
    /\ used (fst w') <= buffer_size (fst w)
    /\ (s = SJSON_OK -> used (fst w') < buffer_size (fst w)).
Proof.
  induction turns as [|turns IH]; intros data w Hlen Hcb Hroom.
  - destruct data; [|cbn in Hlen; lia].
    exists SJSON_OK, w. cbn. unfold ret.
    repeat split; auto using same_but_buffer_refl; try lia. left; reflexivity.
  - destruct data as [|a data].
    { exists SJSON_OK, w. cbn. unfold ret.
      repeat split; auto using same_but_buffer_refl; try lia. left; reflexivity. }
    destruct w as [c log]. cbn [fst snd] in *.
    cbn [write_loop]. unfold with_ctx at 1. cbn [fst].
    destruct (buffer_size c <=? used c) eqn:E; [apply Nat.leb_le in E; lia|].
    set (n := Nat.min (length (a :: data)) (buffer_size c - used c)).
    assert (Hn : 1 <= n <= length (a :: data)) by (cbn [length] in *; lia).
    assert (Hn2 : n <= buffer_size c - used c) by lia.
    unfold and_then at 1. unfold update at 1. cbn [fst snd].
    set (c1 := set_buffer (buffer c ++ firstn n (a :: data)) c).
    assert (Hu1 : used c1 = used c + n).
    { unfold used, c1. cbn [buffer set_buffer]. rewrite length_app, length_firstn.
      unfold used. lia. }
    assert (Hs1 : buffer_size c1 = buffer_size c) by reflexivity.
    assert (Hlen' : length (skipn n (a :: data)) <= turns).
    { rewrite length_skipn. cbn [length] in *. lia. }
    assert (Hsb1 : same_but_buffer c c1) by apply same_but_buffer_set.
    unfold and_then at 1. unfold with_ctx at 1. cbn [fst].
    destruct (used c1 =? buffer_size c1) eqn:E1.
    + destruct (flush_any (c1, log)) as (s & w2 & -> & Hs & Hsb & Hu & _ & H0 & Hsame); [exact Hcb|].
      cbn [fst snd] in *.
      destruct Hs as [-> | ->].
      * specialize (H0 eq_refl).
        destruct (IH _ w2 Hlen') as (s3 & w3 & -> & Hs3 & Hsb3 & Hu3 & Hok3).
        { rewrite (same_but_buffer_callback _ _ Hsb). exact Hcb. }
        { rewrite (same_but_buffer_size _ _ Hsb). lia. }
        rewrite (same_but_buffer_size _ _ Hsb), Hs1 in *.
        exists s3, w3. repeat split; auto.
        eauto using same_but_buffer_trans.
      * eexists _, _. split; [reflexivity|].
        repeat split; eauto using same_but_buffer_trans; try discriminate; try lia.
        right; reflexivity.
    + unfold ret at 1. apply Nat.eqb_neq in E1.
      destruct (IH _ (c1, log) Hlen') as (s3 & w3 & -> & Hs3 & Hsb3 & Hu3 & Hok3).
      { exact Hcb. }
      { cbn [fst]. lia. }
      cbn [fst] in *. rewrite Hs1 in *.
      exists s3, w3. repeat split; eauto using same_but_buffer_trans.
Qed.

Lemma roomy_same c c' :
  same_but_buffer c c' -> used c' <= buffer_size c -> roomy c -> roomy c'.
Proof.
  intros H U (R1 & R2 & R3). unfold roomy.
  rewrite (same_but_buffer_callback _ _ H), (same_but_buffer_size _ _ H). auto.
Qed.

Lemma write_any data w :
  roomy (fst w) ->
  exists s w', write (Some data) w = Some (s, w')
    /\ ok_or_full s
    /\ same_but_buffer (fst w) (fst w')
    /\ used (fst w') <= buffer_size (fst w)
    /\ (s = SJSON_OK -> used (fst w') < buffer_size (fst w)).
Proof.
  intros (Hcb & H1 & Hu). unfold write, with_ctx.
  destruct (buffer_size (fst w) =? used (fst w)) eqn:E.
  - apply Nat.eqb_eq in E. unfold and_then.
    destruct (flush_any w Hcb) as (s & w2 & -> & Hs & Hsb & Hu2 & _ & H0 & Hsame).
    destruct Hs as [-> | ->].
    + specialize (H0 eq_refl).
      destruct (write_loop_any (length data) data w2 (le_n _)) as (s3 & w3 & -> & Hs3 & Hsb3 & Hu3 & Hok3).
      { rewrite (same_but_buffer_callback _ _ Hsb). exact Hcb. }
      { rewrite (same_but_buffer_size _ _ Hsb). lia. }
      rewrite (same_but_buffer_size _ _ Hsb) in *.
      exists s3, w3. repeat split; eauto using same_but_buffer_trans.
    + eexists _, _. split; [reflexivity|].
      repeat split; auto; try discriminate; try lia. right; reflexivity.
  - apply Nat.eqb_neq in E. unfold and_then, ret.
    apply write_loop_any; auto. lia.
Qed.

Lemma frame_same c0 c c' : frame c0 c -> same_but_buffer c c' -> frame c0 c'.
Proof. intros F ->. exact F. Qed.

Lemma within_roomy c0 w : base c0 -> within c0 w -> roomy (fst w).
Proof.
  intros (B1 & B2 & B3) [(F1 & F2 & F3 & F4 & F5 & F6 & F7) U].
  unfold roomy. rewrite F6, F7. auto.
Qed.

Lemma write_within c0 data :
  base c0 -> keeps (within c0) (write (Some data)).
Proof.
  intros B w W.
  destruct (write_any data w (within_roomy _ _ B W)) as (s & w' & E & _ & Hsb & Hu & _).
  exists s, w'. split; [exact E|]. destruct W as [F U]. split.
  - eapply frame_same; eauto.
  - destruct F as (_ & _ & _ & _ & _ & F6 & _). rewrite <- F6. exact Hu.
Qed.

Lemma flush_within c0 : base c0 -> keeps (within c0) sjson_Flush.
Proof.
  intros B w W. pose proof (within_roomy _ _ B W) as (Hcb & _ & _).
  destruct (flush_any w Hcb) as (s & w' & E & _ & Hsb & Hu & _).
  exists s, w'. split; [exact E|]. destruct W as [F U]. split.
  - eapply frame_same; eauto.
  - lia.
Qed.

Lemma write_formatted_within c0 size text :
  base c0 -> keeps (within c0) (write_formatted size text).
Proof.
  intros B. unfold write_formatted. destruct (size <=? length text).
  - apply keeps_ret.
  - apply write_within, B.
Qed.

Lemma write_elements_within {A} c0 (format : A -> list ascii) values :
  base c0 -> forall first, keeps (within c0) (write_elements format first values).
Proof.
  intros B. induction values as [|v values IH]; intros first; cbn [write_elements].
  - apply keeps_ret.
  - apply keeps_bind; [apply write_formatted_within, B | apply IH].
Qed.

Lemma store_Some {A} (a : list A) i v :
  i < length a -> store a i v = Some (<[i := v]> a).
Proof. intros H. unfold store. apply Nat.ltb_lt in H. rewrite H. reflexivity. Qed.

Lemma mark_comma_within c0 :
  base c0 ->
  keeps (within c0)
    (with_ctx (fun c1 : sjson_context_t =>
       match store (needs_comma c1) (depth c1) true with
       | Some a => update (set_needs_comma a)
       | None => undefined
       end)).
Proof.
  intros (_ & _ & B3) w W. unfold with_ctx.
  pose proof W as [(F1 & F2 & F3 & F4 & F5 & F6 & F7) U].
  rewrite store_Some by (rewrite F2, F5; exact B3).
  eexists _, _. split; [reflexivity|]. split; [|exact U].
  unfold frame. ctx_simpl. repeat split; auto. rewrite length_insert. exact F5.
Qed.

Lemma add_comma_within c0 : base c0 -> keeps (within c0) add_comma_if_needed.
Proof.
  intros B w W. unfold add_comma_if_needed, with_ctx at 1.
  pose proof B as (_ & _ & B3).
  pose proof W as [(F1 & F2 & F3 & F4 & F5 & F6 & F7) U].
  destruct (lookup_lt_is_Some_2 (needs_comma (fst w)) (depth (fst w))) as [comma Hc].
  { rewrite F2, F5. exact B3. }
  rewrite Hc. apply keeps_bind; [| apply mark_comma_within, B | exact W].
  destruct comma; [apply write_within, B | apply keeps_ret].
Qed.

Lemma wf_base c : wf c -> base c.
Proof.
  intros (W1 & W2 & W3 & W4 & W5 & W6 & W7). unfold base, SJSON_MAX_DEPTH in *.
  repeat split; auto. lia.
Qed.

Lemma within_wf c0 w : wf c0 -> within c0 w -> wf (fst w).
Proof.
  intros (W1 & W2 & W3 & W4 & W5 & W6 & W7) [(F1 & F2 & F3 & F4 & F5 & F6 & F7) U].
  unfold wf, roomy. rewrite F1, F2, F3, F5, F6, F7. auto 10.
Qed.

Lemma active_Inv w : active w -> Inv w.
Proof. intros [W F]. split; [exact W|]. unfold settled. congruence. Qed.

(** A step that keeps the frame keeps an open document open. *)
Lemma keeps_active m (P : sjson_context_t -> Prop) :
  (forall c0 c, frame c0 c -> P c0 -> P c) ->
  (forall c0, base c0 -> keeps (within c0) m) ->
  keeps (fun w => active w /\ P (fst w)) m.
Proof.
  intros HP H w [[W F] Pw].
  destruct (H (fst w) (wf_base _ W) w) as (s & w' & E & W').
  { split; [repeat split|]. apply W. }
  exists s, w'. split; [exact E|]. split; [split|].
  - eapply within_wf; eauto.
  - destruct W' as [(_ & _ & _ & F4 & _) _]. congruence.
  - eapply HP; [apply W'|exact Pw].
Qed.

Lemma check_state_spec closer w :
  wf (fst w) ->
  exists s, check_state closer w = Some (s, w)
    /\ (s = SJSON_OK \/ s = SJSON_ERROR_INVALID_STATE)
    /\ (s = SJSON_OK ->
        finalized (fst w) = false /\ 1 <= depth (fst w)
        /\ depth_stack (fst w) !! (depth (fst w) - 1) = Some closer).
Proof.
  intros (W1 & W2 & W3 & W4 & W5). unfold check_state, with_ctx, ret.
  destruct (finalized (fst w)); [eexists; split; [reflexivity|split; [auto|discriminate]]|].
  destruct (depth (fst w) =? 0) eqn:E; [eexists; split; [reflexivity|split; [auto|discriminate]]|].
  apply Nat.eqb_neq in E.
  destruct (lookup_lt_is_Some_2 (depth_stack (fst w)) (depth (fst w) - 1)) as [top Ht].
  { unfold SJSON_MAX_DEPTH in *. lia. }
  rewrite Ht. destruct (Ascii.eqb top closer) eqn:Et.
  - apply Ascii.eqb_eq in Et. subst top.
    eexists; split; [reflexivity|]. split; [auto|]. intros _. repeat split; auto. lia.
  - eexists; split; [reflexivity|split; [auto|discriminate]].
Qed.

Lemma check_state_active closer :
  triple Inv (check_state closer)
    (fun s w => match s with SJSON_OK => active w | _ => Inv w end).
Proof.
  intros w [W S]. destruct (check_state_spec closer w W) as (s & E & Hs & Hok).
  exists s, w. split; [exact E|]. destruct Hs as [-> | ->].
  - split; [exact W | apply Hok; reflexivity].
  - split; assumption.
Qed.

Lemma check_depth_nestable :
  triple active check_depth
    (fun s w => match s with SJSON_OK => nestable w | _ => Inv w end).
Proof.
  intros w A. unfold check_depth, with_ctx, ret.
  destruct (max_depth (fst w) <=? depth (fst w)) eqn:E.
  - eexists _, _. split; [reflexivity|]. apply active_Inv, A.
  - eexists _, _. split; [reflexivity|]. apply Nat.leb_gt in E. split; assumption.
Qed.

Lemma uint8_small n : n < 256 -> uint8 n = n.
Proof. intros H. unfold uint8. apply Nat.mod_small, H. Qed.

Lemma push_spec closer w :
  nestable w ->
  exists w', push closer w = Some (SJSON_OK, w')
    /\ active w'
    /\ depth (fst w') = depth (fst w) + 1
    /\ depth_stack (fst w') = <[depth (fst w) := closer]> (depth_stack (fst w))
    /\ needs_comma (fst w') = <[depth (fst w) + 1 := false]> (needs_comma (fst w))
    /\ buffer (fst w') = buffer (fst w) /\ snd w' = snd w.
Proof.
  intros [[(W1 & W2 & W3 & W4 & W5) F] D]. unfold push, with_ctx.
  unfold SJSON_MAX_DEPTH in *.
  rewrite store_Some by lia. rewrite uint8_small by lia.
  rewrite store_Some by lia.
  eexists. split; [reflexivity|]. unfold active, wf, roomy, used in *. ctx_simpl.
  rewrite !length_insert. repeat split; auto; try apply W5. lia.
Qed.

Lemma push_Inv closer :
  triple nestable (push closer) (fun _ => Inv).
Proof.
  intros w N. destruct (push_spec closer w N) as (w' & E & A & _).
  exists SJSON_OK, w'. split; [exact E | apply active_Inv, A].
Qed.

Lemma frame_True c0 c : frame c0 c -> True -> True.
Proof. auto. Qed.

Lemma frame_depth c0 c :
  frame c0 c -> depth c0 < max_depth c0 -> depth c < max_depth c.
Proof. intros (F1 & F2 & F3 & _) H. rewrite F2, F3. exact H. Qed.

Lemma keeps_active' m :
  (forall c0, base c0 -> keeps (within c0) m) -> keeps active m.
Proof.
  intros H. eapply triple_conseq.
  - apply (keeps_active m (fun _ => True) frame_True H).
  - intros w A. split; [exact A | exact Logic.I].
  - intros s w [A _]. exact A.
Qed.

Lemma keeps_nestable m :
  (forall c0, base c0 -> keeps (within c0) m) -> keeps nestable m.
Proof.
  intros H. apply (keeps_active m (fun c => depth c < max_depth c) frame_depth H).
Qed.

Lemma nestable_Inv w : nestable w -> Inv w.
Proof. intros [A _]. apply active_Inv, A. Qed.

(** Proves [forall c0, base c0 -> keeps (within c0) m] for a sequence of
    helpers. *)
Ltac within_tac :=
  let c0 := fresh "c0" in let B := fresh "B" in
  intros c0 B; unfold write_char, write_str;
  repeat first
    [ apply keeps_ret
    | apply write_within, B
    | apply write_formatted_within, B
    | apply write_elements_within, B
    | apply add_comma_within, B
    | apply flush_within, B
    | apply keeps_bind ].

(** A call that checks the state and then only adds bytes and commas. *)
Lemma guarded_keeps_Inv closer body :
  (forall c0, base c0 -> keeps (within c0) body) ->
  keeps Inv (check_state closer >>> body).
Proof.
  intros H. eapply triple_bind.
  - apply check_state_active.
  - eapply triple_conseq; [apply (keeps_active' body H) | auto |].
    intros s w A. apply active_Inv, A.
  - intros s w Hs Q. destruct s; [congruence | exact Q ..].
Qed.

(** A call that opens a collection. *)
Lemma opening_keeps_Inv closer size text closer' :
  keeps Inv (check_state closer >>> check_depth >>> add_comma_if_needed >>>
             write_formatted size text >>> push closer').
Proof.
  eapply triple_bind.
  - apply check_state_active.
  - eapply triple_bind.
    + apply check_depth_nestable.
    + eapply triple_bind; [apply keeps_nestable; within_tac | |].
      * eapply triple_bind; [apply keeps_nestable; within_tac | apply push_Inv |].
        intros s w _ N. apply nestable_Inv, N.
      * intros s w _ N. apply nestable_Inv, N.
    + intros s w Hs Q. destruct s; [congruence | exact Q ..].
  - intros s w Hs Q. destruct s; [congruence | exact Q ..].
Qed.

Lemma and_then_assoc m k j w :
  ((m >>> k) >>> j) w = (m >>> k >>> j) w.
Proof.
  unfold and_then. destruct (m w) as [[[] w1]|]; try reflexivity.
Qed.

Lemma wf_same c c' :
  same_but_buffer c c' -> used c' <= buffer_size c -> wf c -> wf c'.
Proof.
  intros H U (W1 & W2 & W3 & W4 & W5). pose proof (roomy_same _ _ H U W5).
  rewrite H. unfold wf. ctx_simpl. rewrite H in H0. auto 10.
Qed.

Lemma flush_Inv_drained :
  triple (fun w => wf (fst w)) sjson_Flush
    (fun s w' => wf (fst w') /\ drained w').
Proof.
  intros w W. pose proof W as (_ & _ & _ & _ & Hcb & H1 & Hu).
  destruct (flush_any w Hcb) as (s & w' & E & _ & Hsb & Hu' & Hd & _).
  exists s, w'. split; [exact E|]. split; [|exact Hd].
  eapply wf_same; eauto. lia.
Qed.

Lemma flush_keeps_Inv : keeps Inv sjson_Flush.
Proof.
  intros w [W S]. pose proof W as (_ & _ & _ & _ & Hcb & H1 & Hu).
  destruct (flush_any w Hcb) as (s & w' & E & _ & Hsb & Hu' & Hd & _).
  exists s, w'. split; [exact E|]. split.
  - eapply wf_same; eauto. lia.
  - intros F. rewrite Hsb in F. ctx_simpl. split; [|exact Hd].
    rewrite Hsb. ctx_simpl. apply S, F.
Qed.

Lemma close_spec d :
  triple (fun w => Inv w /\ depth (fst w) = d) sjson_Close
    (fun s w' => Inv w' /\ (s = SJSON_OK -> depth (fst w') = d - 1)).
Proof.
  intros [c log] [[W S] D]. ctx_simpl. unfold sjson_Close, with_ctx at 1. ctx_simpl.
  destruct (finalized c) eqn:F.
  { eexists _, _. split; [reflexivity|]. split; [split; assumption | discriminate]. }
  destruct (depth c =? 0) eqn:E0.
  { eexists _, _. split; [reflexivity|]. split; [split; assumption | discriminate]. }
  apply Nat.eqb_neq in E0. cbn [orb].
  unfold and_then at 1, update at 1. ctx_simpl. unfold with_ctx at 1. ctx_simpl.
  pose proof W as (W1 & W2 & W3 & W4 & W5). unfold SJSON_MAX_DEPTH in *.
  destruct (lookup_lt_is_Some_2 (depth_stack c) (depth c - 1)) as [closer Hc]; [lia|].
  rewrite Hc.
  assert (W' : wf (set_depth (depth c - 1) c)).
  { unfold wf, roomy, used in *. ctx_simpl. unfold SJSON_MAX_DEPTH. repeat split; try apply W5; lia. }
  destruct (write_any [closer] (set_depth (depth c - 1) c, log)) as (s & w2 & E & Hs & Hsb & Hu & Hok).
  { apply W'. }
  unfold write_char. rewrite E. ctx_simpl.
  pose proof (wf_same _ _ Hsb Hu W') as W2'.
  assert (D2 : depth (fst w2) = depth c - 1) by (rewrite Hsb; reflexivity).
  assert (F2 : finalized (fst w2) = false) by (rewrite Hsb; exact F).
  destruct Hs as [-> | ->].
  - unfold after_close, with_ctx at 1. rewrite D2.
    destruct (depth c - 1 =? 0) eqn:E1.
    + apply Nat.eqb_eq in E1. unfold and_then, update.
      destruct (flush_Inv_drained (set_finalized true (fst w2), snd w2)) as (s' & w3 & E3 & W3' & Hd).
      { unfold wf, roomy, used in *. ctx_simpl. exact W2'. }
      rewrite E3. pose proof (flush_any (set_finalized true (fst w2), snd w2)) as Hf.
      destruct Hf as (s4 & w4 & E4 & _ & Hsb4 & _); [apply W2'|].
      rewrite E3 in E4. injection E4 as <- <-.
      assert (D3 : depth (fst w3) = 0) by (rewrite Hsb4; ctx_simpl; lia).
      exists s', w3. destruct s'; (split; [reflexivity|]); (split; [split; [exact W3'|intros _; split; [exact D3 | exact Hd]] | intros; lia]).
    + apply Nat.eqb_neq in E1.
      rewrite store_Some by (destruct W2' as (_ & -> & _); unfold SJSON_MAX_DEPTH; lia).
      unfold update. eexists _, _. split; [reflexivity|]. ctx_simpl.
      split; [|intros _; lia]. apply active_Inv. split; [|exact F2]. ctx_simpl.
      unfold wf, roomy, used in *. ctx_simpl. rewrite length_insert. exact W2'.
  - eexists _, _. split; [reflexivity|]. ctx_simpl. split; [|discriminate].
    apply active_Inv. split; [|exact F2]. ctx_simpl. rewrite D2.
    replace (depth c - 1 + 1) with (depth c) by lia. rewrite uint8_small by lia.
    unfold wf, roomy, used in *. ctx_simpl. repeat split; try apply W2'; lia.
Qed.

Lemma close_keeps_Inv : keeps Inv sjson_Close.
Proof.
  intros w I. destruct (close_spec (depth (fst w)) w) as (s & w' & E & I' & _); [auto|].
  exists s, w'. auto.
Qed.

Lemma close_all_Inv turns :
  triple (fun w => Inv w /\ depth (fst w) <= turns) (close_all turns) (fun _ => Inv).
Proof.
  induction turns as [|turns IH]; intros w [I D]; cbn [close_all]; unfold with_ctx at 1.
  - replace (depth (fst w)) with 0 by lia. cbn. eexists _, _. split; [reflexivity | exact I].
  - destruct (depth (fst w) =? 0) eqn:E.
    { eexists _, _. split; [reflexivity | exact I]. }
    apply Nat.eqb_neq in E.
    destruct (close_spec (depth (fst w)) w) as (s & w' & E' & I' & Hd); [auto|].
    unfold and_then. rewrite E'.
    destruct s; try (eexists _, _; split; [reflexivity | exact I']).
    apply IH. split; [exact I'|]. rewrite Hd by reflexivity. lia.
Qed.

Lemma end_keeps_Inv : keeps Inv sjson_End.
Proof.
  intros w I. unfold sjson_End, with_ctx. destruct (finalized (fst w)).
  - apply flush_keeps_Inv, I.
  - apply close_all_Inv. split; [exact I | lia].
Qed.

Lemma init_establishes opening closer b n cb :
  n <> 0 ->
  triple (fun _ => True) (init opening closer (Some b) n (Some cb)) (fun _ => Inv).
Proof.
  intros Hn. unfold init. destruct (n =? 0) eqn:E; [apply Nat.eqb_eq in E; lia|].
  eapply triple_bind with (Q1 := fun _ => nestable).
  - apply triple_update. intros w _. unfold nestable, active, wf, roomy, used. ctx_simpl.
    unfold SJSON_MAX_DEPTH. cbn [length repeat Nat.add]. repeat split; auto; lia.
  - eapply triple_bind.
    + apply keeps_nestable. within_tac.
    + apply push_Inv.
    + intros s w' _ N. apply nestable_Inv, N.
  - intros s w' _ N. apply nestable_Inv, N.
Qed.

Lemma init_keeps_Inv opening closer b n cb :
  keeps Inv (init opening closer b n cb).
Proof.
  destruct b as [b|], cb as [cb|]; try (unfold init; apply keeps_ret).
  destruct (Nat.eq_dec n 0) as [-> | Hn]; [unfold init; apply keeps_ret|].
  eapply triple_conseq; [apply (init_establishes opening closer b n cb Hn) | |].
  - intros; exact Logic.I.
  - intros s w H; exact H.
Qed.

Lemma call_keeps_Inv long_bits o : keeps Inv (call long_bits o).
Proof.
  destruct o; cbn [call].
  - apply init_keeps_Inv.
  - apply init_keeps_Inv.
  - apply close_keeps_Inv.
  - apply end_keeps_Inv.
  - apply flush_keeps_Inv.
  - unfold sjson_AddStringToObject. destruct key, value; try apply keeps_ret.
    apply guarded_keeps_Inv. within_tac.
  - unfold sjson_AddIntToObject. destruct key; try apply keeps_ret.
    apply guarded_keeps_Inv. within_tac.
  - unfold sjson_AddFloatToObject. destruct key; try apply keeps_ret.
    apply guarded_keeps_Inv. within_tac.
  - unfold sjson_AddNumberToObject, sjson_AddFloatToObject. destruct key; try apply keeps_ret.
    apply guarded_keeps_Inv. within_tac.
  - unfold sjson_AddIntArrayToObject. destruct key, values; try apply keeps_ret.
    apply guarded_keeps_Inv. within_tac.
  - unfold sjson_AddFloatArrayToObject. destruct key, values; try apply keeps_ret.
    apply guarded_keeps_Inv. within_tac.
  - unfold sjson_AddArrayToObject. destruct key; try apply keeps_ret.
    destruct ((length l =? 0) || (128 <? length l)); try apply keeps_ret.
    apply opening_keeps_Inv.
  - unfold sjson_AddObjectToObject. destruct key; try apply keeps_ret.
    apply opening_keeps_Inv.
  - unfold sjson_AddRawToObject. destruct key, value; try apply keeps_ret.
    apply guarded_keeps_Inv. within_tac.
  - apply guarded_keeps_Inv. within_tac.
  - apply guarded_keeps_Inv. within_tac.
  - unfold sjson_AddStringToArray. destruct value; try apply keeps_ret.
    apply guarded_keeps_Inv. within_tac.
Qed.

Lemma delivered_app l1 l2 : delivered (l1 ++ l2) = delivered l1 ++ delivered l2.
Proof.
  induction l1 as [|[b [|]] l1 IH]; cbn [delivered app]; rewrite ?IH, ?app_assoc; reflexivity.
Qed.

Lemma flush_accepting w :
  accepting w ->
  exists w', sjson_Flush w = Some (SJSON_OK, w')
    /\ accepting w'
    /\ same_but_buffer (fst w) (fst w') /\ buffer (fst w') = []
    /\ output w' = output w.
Proof.
  destruct w as [c log]. unfold accepting, sjson_Flush, with_ctx. cbn [fst snd].
  intros [Hcb Hlog]. destruct (used c =? 0) eqn:E.
  - apply Nat.eqb_eq in E. unfold used in E. apply nil_length_inv in E.
    exists (c, log). unfold ret. repeat split; auto using same_but_buffer_refl.
  - rewrite Hcb. unfold always_accept. eexists. split; [reflexivity|].
    cbn [fst snd]. repeat split; auto using same_but_buffer_set.
    + apply Forall_app. split; [exact Hlog|]. repeat constructor.
    + unfold output. cbn [fst snd]. rewrite delivered_app. cbn [delivered set_buffer buffer].
      rewrite !app_nil_r. reflexivity.
Qed.

Lemma good_set_buffer b c log :
  accepting (c, log) -> length b < buffer_size c -> good (set_buffer b c, log).
Proof. intros [A1 A2] H. repeat split; assumption. Qed.

Lemma write_loop_good turns : forall data w,
  length data <= turns -> good w ->
  exists w', write_loop turns data w = Some (SJSON_OK, w')
    /\ good w' /\ same_but_buffer (fst w) (fst w')
    /\ output w' = output w ++ data.
Proof.
  induction turns as [|turns IH]; intros data w Hlen [Hcb Hroom].
  - destruct data; [|cbn in Hlen; lia].
    exists w. cbn. unfold ret. repeat split; auto using same_but_buffer_refl; try apply Hcb.
    now rewrite app_nil_r.
  - destruct data as [|a data].
    { exists w. cbn. unfold ret. repeat split; auto using same_but_buffer_refl; try apply Hcb.
      now rewrite app_nil_r. }
    destruct w as [c log]. cbn [fst snd] in *.
    cbn [write_loop]. unfold with_ctx at 1. cbn [fst].
    destruct (buffer_size c <=? used c) eqn:E; [apply Nat.leb_le in E; lia|].
    set (n := Nat.min (length (a :: data)) (buffer_size c - used c)).
    assert (Hn : 1 <= n <= length (a :: data)) by (cbn [length] in *; lia).
    assert (Hn2 : n <= buffer_size c - used c) by lia.
    unfold and_then at 1. unfold update at 1. cbn [fst snd].
    set (c1 := set_buffer (buffer c ++ firstn n (a :: data)) c).
    assert (Hu1 : used c1 = used c + n).
    { unfold used, c1. cbn [buffer set_buffer]. rewrite length_app, length_firstn. unfold used. lia. }
    assert (Hs1 : buffer_size c1 = buffer_size c) by reflexivity.
    assert (Hlen' : length (skipn n (a :: data)) <= turns).
    { rewrite length_skipn. cbn [length] in *. lia. }
    assert (A1 : accepting (c1, log)) by (split; apply Hcb).
    unfold and_then at 1. unfold with_ctx at 1. cbn [fst].
    destruct (used c1 =? buffer_size c1) eqn:E1.
    + destruct (flush_accepting (c1, log) A1) as (w2 & -> & A2 & Hsb & Hb & Ho).
      assert (G2 : good w2).
      { split; [exact A2|]. unfold used. rewrite Hb. rewrite Hsb. cbn. lia. }
      destruct (IH _ w2 Hlen' G2) as (w3 & -> & G3 & Hsb3 & Ho3).
      exists w3. repeat split; try apply G3.
      * eapply same_but_buffer_trans; [|exact Hsb3].
        eapply same_but_buffer_trans; [|exact Hsb]. apply same_but_buffer_set.
      * rewrite Ho3, Ho. unfold output. cbn [fst snd c1 buffer set_buffer].
        rewrite <- !app_assoc. rewrite firstn_skipn. reflexivity.
    + unfold ret at 1.
      assert (G2 : good (c1, log)).
      { split; [exact A1|]. cbn [fst]. apply Nat.eqb_neq in E1. lia. }
      destruct (IH _ (c1, log) Hlen' G2) as (w3 & -> & G3 & Hsb3 & Ho3).
      exists w3. repeat split; try apply G3.
      * eapply same_but_buffer_trans; [|exact Hsb3]. apply same_but_buffer_set.
      * rewrite Ho3. unfold output. cbn [fst snd c1 buffer set_buffer].
        rewrite <- !app_assoc. rewrite firstn_skipn. reflexivity.
Qed.

Lemma write_good data w :
  good w ->
  exists w', write (Some data) w = Some (SJSON_OK, w')
    /\ good w' /\ same_but_buffer (fst w) (fst w')
    /\ output w' = output w ++ data.
Proof.
  intros G. unfold write, with_ctx.
  destruct (buffer_size (fst w) =? used (fst w)) eqn:E.
  { apply Nat.eqb_eq in E. destruct G. lia. }
  unfold and_then, ret. apply write_loop_good; auto.
Qed.

Lemma sim_ret s : sim (ret s) (ret s).
Proof. intros w1 w2 A. cbn. auto. Qed.

Lemma sim_bind m1 m2 k1 k2 :
  sim m1 m2 -> sim k1 k2 -> sim (m1 >>> k1) (m2 >>> k2).
Proof.
  intros Hm Hk w1 w2 A. specialize (Hm w1 w2 A). unfold and_then, related in *.
  destruct (m1 w1) as [[s1 w1']|], (m2 w2) as [[s2 w2']|]; try contradiction; auto.
  destruct Hm as [<- A']. destruct s1; auto. apply Hk, A'.
Qed.

Lemma agree_same w1 w2 w1' w2' :
  agree w1 w2 -> good w1' -> good w2' ->
  same_but_buffer (fst w1) (fst w1') -> same_but_buffer (fst w2) (fst w2') ->
  output w1' = output w2' -> agree w1' w2'.
Proof.
  intros (_ & _ & A) G1 G2 H1 H2 O. unfold agree. rewrite H1, H2. ctx_simpl.
  intuition.
Qed.

Lemma sim_write data : sim (write (Some data)) (write (Some data)).
Proof.
  intros w1 w2 A. pose proof A as (G1 & G2 & A').
  destruct (write_good data w1 G1) as (w1' & -> & G1' & S1 & O1).
  destruct (write_good data w2 G2) as (w2' & -> & G2' & S2 & O2).
  split; [reflexivity|]. eapply agree_same; eauto.
  rewrite O1, O2. f_equal. apply A'.
Qed.

Lemma sim_flush : sim sjson_Flush sjson_Flush.
Proof.
  intros w1 w2 A. pose proof A as ([C1 U1] & [C2 U2] & A').
  destruct (flush_accepting w1 C1) as (w1' & -> & A1 & S1 & B1 & O1).
  destruct (flush_accepting w2 C2) as (w2' & -> & A2 & S2 & B2 & O2).
  split; [reflexivity|]. eapply agree_same; eauto.
  - split; [exact A1|]. unfold used. rewrite B1, S1. cbn. lia.
  - split; [exact A2|]. unfold used. rewrite B2, S2. cbn. lia.
  - rewrite O1, O2. apply A'.
Qed.

Lemma sim_write_formatted size text :
  sim (write_formatted size text) (write_formatted size text).
Proof.
  unfold write_formatted. destruct (size <=? length text);
    [apply sim_ret | apply sim_write].
Qed.

Lemma sim_write_elements {A} (format : A -> list ascii) values : forall first,
  sim (write_elements format first values) (write_elements format first values).
Proof.
  induction values as [|v values IH]; intros first; cbn [write_elements].
  - apply sim_ret.
  - apply sim_bind; [apply sim_write_formatted | apply IH].
Qed.

(** An assignment to fields other than the buffer keeps two worlds in
    agreement when it is the same on both sides. *)
Ltac agree_update :=
  match goal with
  | A : agree _ _ |- _ =>
      unfold agree, good, accepting, used, output in *; ctx_simpl;
      intuition congruence
  end.

Ltac agree_fields A :=
  let G1 := fresh "G1" in let G2 := fresh "G2" in
  let E1 := fresh "Estack" in let E2 := fresh "Edepth" in
  let E3 := fresh "Emax" in let E4 := fresh "Ecomma" in
  let E5 := fresh "Efin" in let E6 := fresh "Eout" in
  pose proof A as (G1 & G2 & E1 & E2 & E3 & E4 & E5 & E6).

Lemma sim_mark_comma :
  sim (with_ctx (fun c1 : sjson_context_t =>
         match store (needs_comma c1) (depth c1) true with
         | Some a => update (set_needs_comma a)
         | None => undefined
         end))
      (with_ctx (fun c1 : sjson_context_t =>
         match store (needs_comma c1) (depth c1) true with
         | Some a => update (set_needs_comma a)
         | None => undefined
         end)).
Proof.
  intros w1 w2 A. agree_fields A. unfold with_ctx. rewrite Ecomma, Edepth.
  destruct (store _ _ _); cbn; [|exact Logic.I].
  split; [reflexivity|]. agree_update.
Qed.

Lemma sim_add_comma : sim add_comma_if_needed add_comma_if_needed.
Proof.
  intros w1 w2 A. agree_fields A. unfold add_comma_if_needed, with_ctx at 1 3.
  rewrite Ecomma, Edepth.
  destruct (needs_comma (fst w2) !! depth (fst w2)) as [comma|]; [|exact Logic.I].
  apply sim_bind; [|apply sim_mark_comma | exact A].
  destruct comma; [apply sim_write | apply sim_ret].
Qed.

Lemma sim_check_state closer : sim (check_state closer) (check_state closer).
Proof.
  intros w1 w2 A. agree_fields A. unfold check_state, with_ctx.
  rewrite Efin, Edepth, Estack.
  destruct (finalized (fst w2)); [apply sim_ret, A|].
  destruct (depth (fst w2) =? 0); [apply sim_ret, A|].
  destruct (depth_stack (fst w2) !! (depth (fst w2) - 1)) as [top|]; [|exact Logic.I].
  destruct (Ascii.eqb top closer); apply sim_ret, A.
Qed.

Lemma sim_check_depth : sim check_depth check_depth.
Proof.
  intros w1 w2 A. agree_fields A. unfold check_depth, with_ctx.
  rewrite Emax, Edepth.
  destruct (max_depth (fst w2) <=? depth (fst w2)); apply sim_ret, A.
Qed.

Lemma sim_push closer : sim (push closer) (push closer).
Proof.
  intros w1 w2 A. agree_fields A. unfold push, with_ctx.
  rewrite Estack, Edepth, Ecomma.
  destruct (store (depth_stack (fst w2)) _ _); [|exact Logic.I].
  destruct (store (needs_comma (fst w2)) _ _); [|exact Logic.I].
  cbn. split; [reflexivity|]. agree_update.
Qed.

Lemma sim_after_close : sim after_close after_close.
Proof.
  intros w1 w2 A. agree_fields A. unfold after_close, with_ctx at 1 2.
  rewrite Edepth, Ecomma.
  destruct (depth (fst w2) =? 0).
  - apply sim_bind; [|apply sim_flush|exact A].
    intros v1 v2 B. cbn. split; [reflexivity|]. agree_update.
  - destruct (store _ _ _); cbn; [|exact Logic.I].
    split; [reflexivity|]. agree_update.
Qed.

Lemma sim_close : sim sjson_Close sjson_Close.
Proof.
  intros w1 w2 A. agree_fields A. unfold sjson_Close, with_ctx at 1 3.
  rewrite Efin, Edepth.
  destruct (finalized (fst w2) || (depth (fst w2) =? 0)); [apply sim_ret, A|].
  unfold and_then at 1 2, update at 1 2. unfold with_ctx at 1 2. ctx_simpl.
  rewrite Estack.
  destruct (depth_stack (fst w2) !! (depth (fst w2) - 1)) as [closer|]; [|exact Logic.I].
  assert (A1 : agree (set_depth (depth (fst w2) - 1) (fst w1), snd w1)
                     (set_depth (depth (fst w2) - 1) (fst w2), snd w2)) by agree_update.
  pose proof (sim_write [closer] _ _ A1) as S. unfold write_char, related in *.
  destruct (write (Some [closer]) (set_depth (depth (fst w2) - 1) (fst w1), snd w1)) as [[s1 v1]|],
           (write (Some [closer]) (set_depth (depth (fst w2) - 1) (fst w2), snd w2)) as [[s2 v2]|];
    try contradiction; auto.
  destruct S as [<- B]. destruct s1; try (split; [reflexivity|]; agree_update).
  apply sim_after_close, B.
Qed.

Lemma sim_close_all turns : sim (close_all turns) (close_all turns).
Proof.
  induction turns as [|turns IH]; intros w1 w2 A; agree_fields A;
    cbn [close_all]; unfold with_ctx at 1 2; rewrite Edepth;
    destruct (depth (fst w2) =? 0); try (apply sim_ret, A).
  - exact Logic.I.
  - apply sim_bind; [apply sim_close | apply IH | exact A].
Qed.

Lemma sim_end : sim sjson_End sjson_End.
Proof.
  intros w1 w2 A. agree_fields A. unfold sjson_End, with_ctx. rewrite Efin, Edepth.
  destruct (finalized (fst w2)); [apply sim_flush, A | apply sim_close_all, A].
Qed.

Ltac sim_tac :=
  unfold write_char, write_str, check_object_state, check_array_state;
  repeat first
    [ apply sim_ret
    | apply sim_write
    | apply sim_write_formatted
    | apply sim_write_elements
    | apply sim_add_comma
    | apply sim_check_state
    | apply sim_check_depth
    | apply sim_push
    | apply sim_bind ].

Lemma sim_call long_bits o :
  is_init o = false -> sim (call long_bits o) (call long_bits o).
Proof.
  destruct o; cbn [is_init call]; intros H; try discriminate.
  - apply sim_close.
  - apply sim_end.
  - apply sim_flush.
  - unfold sjson_AddStringToObject. destruct key, value; sim_tac.
  - unfold sjson_AddIntToObject. destruct key; sim_tac.
  - unfold sjson_AddFloatToObject. destruct key; sim_tac.
  - unfold sjson_AddNumberToObject, sjson_AddFloatToObject. destruct key; sim_tac.
  - unfold sjson_AddIntArrayToObject. destruct key, values; sim_tac.
  - unfold sjson_AddFloatArrayToObject. destruct key, values; sim_tac.
  - unfold sjson_AddArrayToObject. destruct key; [|sim_tac].
    destruct ((length l =? 0) || (128 <? length l)); sim_tac.
  - unfold sjson_AddObjectToObject. destruct key; sim_tac.
  - unfold sjson_AddRawToObject. destruct key, value; sim_tac.
  - unfold sjson_AddIntToArray. sim_tac.
  - unfold sjson_AddFloatToArray. sim_tac.
  - unfold sjson_AddStringToArray. destruct value; sim_tac.
Qed.

Lemma run_defined long_bits ops : forall w,
  Inv w -> exists statuses w', run long_bits ops w = Some (statuses, w') /\ Inv w'.
Proof.
  induction ops as [|o ops IH]; intros w I; cbn [run].
  - eexists _, _. split; [reflexivity | exact I].
  - destruct (call_keeps_Inv long_bits o w I) as (s & w1 & -> & I1).
    destruct (IH w1 I1) as (ss & w2 & -> & I2).
    eexists _, _. split; [reflexivity | exact I2].
Qed.

Lemma run_sim long_bits ops : forall w1 w2 ss1 ss2 v1 v2,
  no_init ops = true -> agree w1 w2 ->
  run long_bits ops w1 = Some (ss1, v1) ->
  run long_bits ops w2 = Some (ss2, v2) ->
  ss1 = ss2 /\ agree v1 v2.
Proof.
  induction ops as [|o ops IH]; intros w1 w2 ss1 ss2 v1 v2 Hn A; cbn [run].
  - intros [= <- <-] [= <- <-]. auto.
  - cbn [no_init forallb] in Hn. apply andb_true_iff in Hn as [Ho Hn].
    apply negb_true_iff in Ho.
    pose proof (sim_call long_bits o Ho w1 w2 A) as S. unfold related in S.
    destruct (call long_bits o w1) as [[s1 u1]|], (call long_bits o w2) as [[s2 u2]|];
      try contradiction; try discriminate.
    destruct S as [<- A'].
    destruct (run long_bits ops u1) as [[t1 x1]|] eqn:R1; [|discriminate].
    destruct (run long_bits ops u2) as [[t2 x2]|] eqn:R2; [|discriminate].
    intros [= <- <-] [= <- <-].
    destruct (IH _ _ _ _ _ _ Hn A' R1 R2) as [<- A'']. auto.
Qed.

Lemma init_agree opening closer b1 b2 n1 n2 c0 :
  n1 <> 0 -> n2 <> 0 ->
  related (init opening closer (Some b1) n1 (Some always_accept) (c0, []))
          (init opening closer (Some b2) n2 (Some always_accept) (c0, [])).
Proof.
  intros H1 H2. unfold init.
  destruct (n1 =? 0) eqn:E1; [apply Nat.eqb_eq in E1; lia|].
  destruct (n2 =? 0) eqn:E2; [apply Nat.eqb_eq in E2; lia|].
  unfold and_then at 1 3, update. cbn [fst snd].
  apply sim_bind; [apply sim_write | apply sim_push |].
  unfold agree, good, accepting, used, output. ctx_simpl. cbn [length].
  repeat split; auto; lia.
Qed.

Lemma accepted_not_rejected log :
  Forall (fun entry : list ascii * bool => snd entry = true) log ->
  last_rejected log -> False.
Proof.
  intros F (log' & bytes & ->). apply Forall_app in F as [_ F].
  inversion F as [|x l H]. discriminate H.
Qed.

Lemma settled_empty w :
  Inv w -> good w -> finalized (fst w) = true -> buffer (fst w) = [].
Proof.
  intros [_ S] [[_ A] _] F. destruct (S F) as [_ [U | R]].
  - apply nil_length_inv, U.
  - destruct (accepted_not_rejected _ A R).
Qed.

Lemma runs_agree long_bits array ops b1 b2 n1 n2 c0 :
  1 <= n1 -> 1 <= n2 -> no_init ops = true ->
  exists statuses w1 w2,
    run long_bits (begin array b1 n1 :: ops) (c0, []) = Some (statuses, w1)
    /\ run long_bits (begin array b2 n2 :: ops) (c0, []) = Some (statuses, w2)
    /\ Inv w1 /\ Inv w2 /\ agree w1 w2.
Proof.
  intros H1 H2 Hn.
  assert (Hinit : forall opening closer, exists s u1 u2,
    init opening closer (Some b1) n1 (Some always_accept) (c0, []) = Some (s, u1)
    /\ init opening closer (Some b2) n2 (Some always_accept) (c0, []) = Some (s, u2)
    /\ Inv u1 /\ Inv u2 /\ agree u1 u2).
  { intros opening closer.
    destruct (init_establishes opening closer b1 n1 always_accept ltac:(lia) (c0, []) Logic.I)
      as (s1 & u1 & E1 & I1).
    destruct (init_establishes opening closer b2 n2 always_accept ltac:(lia) (c0, []) Logic.I)
      as (s2 & u2 & E2 & I2).
    pose proof (init_agree opening closer b1 b2 n1 n2 c0 ltac:(lia) ltac:(lia)) as R.
    rewrite E1, E2 in R. destruct R as [<- A]. exists s1, u1, u2. auto. }
  assert (Hcall : exists s u1 u2,
    call long_bits (begin array b1 n1) (c0, []) = Some (s, u1)
    /\ call long_bits (begin array b2 n2) (c0, []) = Some (s, u2)
    /\ Inv u1 /\ Inv u2 /\ agree u1 u2).
  { destruct array; cbn [begin call]; apply Hinit. }
  destruct Hcall as (s & u1 & u2 & E1 & E2 & I1 & I2 & A).
  destruct (run_defined long_bits ops u1 I1) as (ss1 & v1 & R1 & J1).
  destruct (run_defined long_bits ops u2 I2) as (ss2 & v2 & R2 & J2).
  destruct (run_sim long_bits ops _ _ _ _ _ _ Hn A R1 R2) as [<- A'].
  exists (s :: ss1), v1, v2. cbn [run]. rewrite E1, E2, R1, R2. auto.
Qed.

(** C3, as the code has it.  For a sequence of calls that begins with an
    Init and has no other Init, two buffer sizes of at least 1 and a sink
    that always accepts: both runs return the same statuses, and the
    bytes written (those delivered, then those still in the buffer) are
    the same; so the delivered bytes are the same once the document is
    finalized, and whenever both buffers are empty. *)
Theorem buffer_size_independence long_bits array ops b1 b2 n1 n2 c0 :
  1 <= n1 -> 1 <= n2 -> no_init ops = true ->
  exists statuses w1 w2,
    run long_bits (begin array b1 n1 :: ops) (c0, []) = Some (statuses, w1)
    /\ run long_bits (begin array b2 n2 :: ops) (c0, []) = Some (statuses, w2)
    /\ output w1 = output w2
    /\ (finalized (fst w1) = true -> delivered (snd w1) = delivered (snd w2))
    /\ (used (fst w1) = 0 -> used (fst w2) = 0 ->
        delivered (snd w1) = delivered (snd w2)).
Proof.
  intros H1 H2 Hn.
  destruct (runs_agree long_bits array ops b1 b2 n1 n2 c0 H1 H2 Hn)
    as (ss & v1 & v2 & R1 & R2 & J1 & J2 & A').
  exists ss, v1, v2. split; [exact R1|]. split; [exact R2|].
  pose proof A' as (G1 & G2 & _ & _ & _ & _ & Ef & Eo).
  split; [exact Eo|]. split.
  - intros F. pose proof (settled_empty _ J1 G1 F) as B1.
    rewrite Ef in F. pose proof (settled_empty _ J2 G2 F) as B2.
    unfold output in Eo. rewrite B1, B2, !app_nil_r in Eo. exact Eo.
  - intros U1 U2. apply nil_length_inv in U1, U2.
    unfold output in Eo. rewrite U1, U2, !app_nil_r in Eo. exact Eo.
Qed.

Lemma buffer_size_independence_witness :
  (1 <= 1 /\ 1 <= 512 /\ no_init [AddIntToObject (Some (Ch.s "a")) 1%Z; End_] = true)
  /\ exists statuses w1 w2,
    run 64 (begin false [] 1 :: [AddIntToObject (Some (Ch.s "a")) 1%Z; End_]) (blank, []) = Some (statuses, w1)
    /\ run 64 (begin false [] 512 :: [AddIntToObject (Some (Ch.s "a")) 1%Z; End_]) (blank, []) = Some (statuses, w2)
    /\ output w1 = output w2
    /\ (finalized (fst w1) = true -> delivered (snd w1) = delivered (snd w2))
    /\ (used (fst w1) = 0 -> used (fst w2) = 0 ->
        delivered (snd w1) = delivered (snd w2)).
Proof.
  split; [split; [lia | split; [lia | reflexivity]]|].
  apply (buffer_size_independence 64 false [AddIntToObject (Some (Ch.s "a")) 1%Z; End_] [] [] 1 512 blank);
    [lia | lia | reflexivity].
Defined.

(** C3 as stated fails: after InitObject and an AddIntToObject a
    buffer of one byte has delivered all seven bytes, a buffer of 512
    bytes none. *)
Lemma delivered_depends_on_buffer_size :
  exists w1 w2,
    run 64 [begin false [] 1; AddIntToObject (Some (Ch.s "a")) 1%Z] (blank, []) = Some ([SJSON_OK; SJSON_OK], w1)
    /\ run 64 [begin false [] 512; AddIntToObject (Some (Ch.s "a")) 1%Z] (blank, []) = Some ([SJSON_OK; SJSON_OK], w2)
    /\ delivered (snd w1) = Ch.s "{" ++ Ch.q (Ch.s "a") ++ Ch.s ":1"
    /\ delivered (snd w2) = [].
Proof.
  eexists _, _. split; [vm_compute; reflexivity|]. split; [vm_compute; reflexivity|].
  split; vm_compute; reflexivity.
Qed.

(** *** Printing integers *)

Lemma to_long_small long_bits value :
  (32 <= long_bits)%Z -> (- 2 ^ 31 <= value < 2 ^ 31)%Z ->
  Printf.to_long long_bits value = value.
Proof.
  intros Hb Hv. unfold Printf.to_long.
  assert (H32 : (2 ^ 32 <= 2 ^ long_bits)%Z) by (apply Z.pow_le_mono_r; lia).
  assert (Hp : (2 ^ long_bits = 2 * 2 ^ (long_bits - 1))%Z).
  { rewrite <- Z.pow_succ_r by lia. f_equal. lia. }
  assert (H31 : (2 ^ 31 <= 2 ^ (long_bits - 1))%Z) by (apply Z.pow_le_mono_r; lia).
  rewrite Hp. rewrite Z.mul_comm, Z.div_mul by lia. rewrite Z.mul_comm.
  destruct (Z.le_gt_cases 0 value) as [Hpos | Hneg].
  - rewrite Z.mod_small by lia.
    destruct (value <? 2 ^ (long_bits - 1))%Z eqn:E; [reflexivity|].
    apply Z.ltb_ge in E. lia.
  - replace (value mod (2 * 2 ^ (long_bits - 1)))%Z with (value + 2 * 2 ^ (long_bits - 1))%Z.
    + destruct (value + 2 * 2 ^ (long_bits - 1) <? 2 ^ (long_bits - 1))%Z eqn:E; [|lia].
      apply Z.ltb_lt in E. lia.
    + apply Z.mod_unique with (q := (-1)%Z); lia.
Qed.

Lemma call_int_small long_bits key value :
  (32 <= long_bits)%Z -> (- 2 ^ 31 <= value < 2 ^ 31)%Z ->
  call long_bits (AddIntToObject key value) = call 64 (AddIntToObject key value).
Proof.
  intros Hb Hv. cbn [call]. unfold sjson_AddIntToObject, Printf.ld.
  rewrite !to_long_small by lia. reflexivity.
Qed.

Theorem status_count_document long_bits buffer buffer_size c0 :
  (32 <= long_bits)%Z -> 1 <= buffer_size ->
  exists w,
    run long_bits (status_calls buffer buffer_size) (c0, [])
    = Some ([SJSON_OK; SJSON_OK; SJSON_OK; SJSON_OK], w)
    /\ delivered (snd w) = status_document
    /\ Forall (fun entry => snd entry = true) (snd w)
    /\ used (fst w) = 0.
Proof.
  intros Hb Hn.
  assert (E : run long_bits (status_calls buffer buffer_size) (c0, [])
              = run 64 (status_calls buffer buffer_size) (c0, [])).
  { unfold status_calls. cbn [run]. rewrite call_int_small by lia. reflexivity. }
  rewrite E.
  destruct (runs_agree 64 false
              [AddStringToObject (Some (Ch.s "status")) (Some (Ch.s "ok"));
               AddIntToObject (Some (Ch.s "count")) 3%Z; End_]
              buffer buffer buffer_size 512 c0 Hn ltac:(lia) eq_refl)
    as (ss & w1 & w2 & R1 & R2 & J1 & J2 & A).
  change (begin false buffer buffer_size :: _) with (status_calls buffer buffer_size) in R1.
  vm_compute in R2. injection R2 as <- <-.
  exists w1. split; [exact R1|].
  destruct A as (G1 & G2 & _ & _ & _ & _ & Ef & Eo). cbn [fst finalized] in Ef.
  pose proof (settled_empty _ J1 G1 Ef) as B1.
  unfold output in Eo. rewrite B1, app_nil_r in Eo. cbn [fst snd] in Eo.
  split; [rewrite Eo; vm_compute; reflexivity|].
  split; [apply G1|]. unfold used. rewrite B1. reflexivity.
Qed.

Lemma status_count_document_witness :
  ((32 <= 64)%Z /\ 1 <= 7) /\
  exists w,
    run 64 (status_calls [] 7) (blank, [])
    = Some ([SJSON_OK; SJSON_OK; SJSON_OK; SJSON_OK], w)
    /\ delivered (snd w) = status_document
    /\ Forall (fun entry => snd entry = true) (snd w)
    /\ used (fst w) = 0.
Proof.
  split; [split; lia|].
  apply (status_count_document 64 [] 7 blank); lia.
Defined.

(* C4 *)
Lemma reachable_Inv long_bits w : reachable long_bits w -> Inv w.
Proof.
  induction 1 as [w0 o s w Ho E | w o s w' _ IH E].
  - destruct o as [[b|] [|n] [cb|] | [b|] [|n] [cb|] | | | | | | | | | | | | | | |];
      try discriminate Ho; cbn [call] in E.
    + destruct (init_establishes Ch.lbrace Ch.rbrace b (S n) cb ltac:(lia) w0 Logic.I)
        as (s' & w' & E' & I).
      unfold sjson_InitObject in E. rewrite E' in E. injection E as <- <-. exact I.
    + destruct (init_establishes Ch.lbracket Ch.rbracket b (S n) cb ltac:(lia) w0 Logic.I)
        as (s' & w' & E' & I).
      unfold sjson_InitArray in E. rewrite E' in E. injection E as <- <-. exact I.
  - destruct (call_keeps_Inv long_bits o w IH) as (s' & w'' & E' & I).
    rewrite E' in E. injection E as <- <-. exact I.
Qed.

(** What the invariant gives of a finalized context, in every state
    reached from an Init whose arguments are accepted, by any calls and
    with any sink: [depth] is 0, and the buffer is empty except when
    the sink refused the last buffer it was handed.  The exception is
    the defect shown below. *)
Theorem finalized_is_closed long_bits w :
  reachable long_bits w -> finalized (fst w) = true ->
  depth (fst w) = 0 /\ (used (fst w) = 0 \/ last_rejected (snd w)).
Proof. intros R F. destruct (reachable_Inv _ _ R) as [_ S]. apply S, F. Qed.

Lemma finalized_is_closed_witness :
  exists w, run 64 [InitObject (Some []) 10 (Some always_accept); Close] (blank, [])
            = Some ([SJSON_OK; SJSON_OK], w)
    /\ (reachable 64 w /\ finalized (fst w) = true)
    /\ depth (fst w) = 0 /\ (used (fst w) = 0 \/ last_rejected (snd w)).
Proof.
  eexists. split; [vm_compute; reflexivity|].
  assert (R : reachable 64
     (mk_ctx [] 10 (Some always_accept)
        (Ch.rbrace :: repeat Ch.nul 8) 0 8 (repeat false 9) true,
      [(Ch.s "{}", true)])).
  { eapply reach_call; [eapply (reach_init 64 (blank, []) (InitObject (Some []) 10 (Some always_accept))); [reflexivity | vm_compute; reflexivity] |].
    instantiate (2 := Close). vm_compute. reflexivity. }
  split; [split; [exact R | reflexivity]|].
  apply (finalized_is_closed 64 _ R). reflexivity.
Defined.

(** C4.  The code at the failing input: [sjson_InitObject] with a sink
    that refuses, then [sjson_Close].  [sjson_Close] sets [finalized]
    before the flush of the closed root and returns the failure of that
    flush as it is: the state reached has [finalized] set and the two
    bytes of the document still in the buffer, against the claim and
    against the comment on the field in the header (true when closed
    to depth 0 and flushed). *)
Lemma finalized_with_bytes_buffered :
  exists w, run 64 rejected_close (blank, [])
            = Some ([SJSON_OK; SJSON_ERROR_BUFFER_FULL], w)
    /\ reachable 64 w
    /\ finalized (fst w) = true /\ used (fst w) = 2.
Proof.
  eexists. split; [vm_compute; reflexivity|]. split; [|split; reflexivity].
  eapply reach_call; [eapply (reach_init 64 (blank, []) (InitObject (Some []) 10 (Some always_reject))); [reflexivity | vm_compute; reflexivity] |].
  instantiate (2 := Close). vm_compute. reflexivity.
Qed.

Lemma only_buffer_refl w : only_buffer w w.
Proof. apply same_but_buffer_refl. Qed.

Lemma only_buffer_trans w1 w2 w3 :
  only_buffer w1 w2 -> only_buffer w2 w3 -> only_buffer w1 w3.
Proof. apply same_but_buffer_trans. Qed.

Lemma always_bind (R : world -> world -> Prop) m k :
  (forall w1 w2 w3, R w1 w2 -> R w2 w3 -> R w1 w3) ->
  always R m -> always R k -> always R (m >>> k).
Proof.
  intros T Hm Hk w s w' E. unfold and_then in E.
  destruct (m w) as [[s1 w1]|] eqn:E1; [|discriminate].
  specialize (Hm _ _ _ E1).
  destruct s1; try (injection E as <- <-; exact Hm).
  eapply T; [exact Hm | eapply Hk, E].
Qed.

Lemma flush_only_buffer : always only_buffer sjson_Flush.
Proof.
  intros [c log] s w'. unfold sjson_Flush, with_ctx, ret, undefined. cbn [fst snd].
  destruct (used c =? 0); [(cbv beta iota zeta; intros [= <- <-]); apply only_buffer_refl|].
  destruct (send_callback c) as [cb|]; [|discriminate]. cbn [fst snd].
  destruct (cb log (buffer c)); (cbv beta iota zeta; intros [= <- <-]); unfold only_buffer; cbn [fst].
  - apply same_but_buffer_set.
  - apply same_but_buffer_refl.
Qed.

Lemma write_loop_only_buffer turns : forall data,
  always only_buffer (write_loop turns data).
Proof.
  induction turns as [|turns IH]; intros [|a data]; cbn [write_loop];
    try (unfold ret; intros w s w'; (cbv beta iota zeta; intros [= <- <-]); apply only_buffer_refl);
    try (intros w s w'; discriminate).
  intros w s w'. unfold with_ctx at 1.
  destruct (buffer_size (fst w) <=? used (fst w)); [discriminate|].
  apply always_bind; [apply only_buffer_trans | |].
  - unfold update, ret; intros v t v'; (cbv beta iota zeta; intros [= <- <-]). unfold only_buffer. cbn [fst]. apply same_but_buffer_set.
  - apply always_bind; [apply only_buffer_trans | | apply IH].
    intros v t v'. unfold with_ctx.
    destruct (used (fst v) =? buffer_size (fst v)); [apply flush_only_buffer|].
    (cbv beta iota zeta; intros [= <- <-]). apply only_buffer_refl.
Qed.

Lemma write_only_buffer data : always only_buffer (write (Some data)).
Proof.
  intros w s w'. unfold write, with_ctx.
  apply always_bind; [apply only_buffer_trans | | apply write_loop_only_buffer].
  destruct (buffer_size (fst w) =? used (fst w)); [apply flush_only_buffer|].
  unfold update, ret; intros v t v'; (cbv beta iota zeta; intros [= <- <-]). apply only_buffer_refl.
Qed.

(** C5.  In a context that is not finalized and has a collection open,
    when the write of the closing byte fails, [sjson_Close] returns that
    status with [depth] back at its value before the call and the closer
    stack (and the comma flags) untouched, and the context is still not
    finalized, so the same Close can be called again. *)
Theorem close_rolls_back c log closer s w1 :
  finalized c = false -> 0 < depth c < 256 ->
  depth_stack c !! (depth c - 1) = Some closer ->
  write_char closer (set_depth (depth c - 1) c, log) = Some (s, w1) ->
  s <> SJSON_OK ->
  exists w', sjson_Close (c, log) = Some (s, w')
    /\ depth (fst w') = depth c
    /\ depth_stack (fst w') = depth_stack c
    /\ needs_comma (fst w') = needs_comma c
    /\ finalized (fst w') = false.
Proof.
  intros F D T E Hs. unfold sjson_Close, with_ctx at 1. cbn [fst]. rewrite F.
  destruct (depth c =? 0) eqn:E0; [apply Nat.eqb_eq in E0; lia|]. cbn [orb].
  unfold and_then at 1, update at 1. cbn [fst snd]. unfold with_ctx at 1. ctx_simpl.
  rewrite T, E.
  pose proof (write_only_buffer [closer] _ _ _ E) as S. unfold only_buffer in S. ctx_simpl.
  destruct s; [congruence | ..]; (eexists; split; [reflexivity|]); ctx_simpl;
    rewrite S; ctx_simpl; (split; [|auto]);
    replace (depth c - 1 + 1) with (depth c) by lia; apply uint8_small; lia.
Qed.

Lemma close_rolls_back_witness :
  (finalized stuck_context = false /\ 0 < depth stuck_context < 256
   /\ depth_stack stuck_context !! (depth stuck_context - 1) = Some Ch.rbrace
   /\ write_char Ch.rbrace (set_depth (depth stuck_context - 1) stuck_context, [])
      = Some (SJSON_ERROR_BUFFER_FULL,
              (set_depth 0 stuck_context, [(buffer stuck_context, false)]))
   /\ SJSON_ERROR_BUFFER_FULL <> SJSON_OK)
  /\ exists w', sjson_Close (stuck_context, []) = Some (SJSON_ERROR_BUFFER_FULL, w')
    /\ depth (fst w') = depth stuck_context
    /\ depth_stack (fst w') = depth_stack stuck_context
    /\ needs_comma (fst w') = needs_comma stuck_context
    /\ finalized (fst w') = false.
Proof.
  assert (H : write_char Ch.rbrace (set_depth (depth stuck_context - 1) stuck_context, [])
      = Some (SJSON_ERROR_BUFFER_FULL,
              (set_depth 0 stuck_context, [(buffer stuck_context, false)])))
    by (vm_compute; reflexivity).
  split.
  - split; [reflexivity|]. split; [cbn; lia|]. split; [reflexivity|].
    split; [exact H | discriminate].
  - apply (close_rolls_back stuck_context [] Ch.rbrace SJSON_ERROR_BUFFER_FULL _
             eq_refl ltac:(cbn; lia) eq_refl H ltac:(discriminate)).
Defined.

(** C10.  [sjson_AddNumberToObject] with a [double] does, in every
    state, what [sjson_AddFloatToObject] does with that value converted
    to [float]: the same status, context and sink. *)
Theorem number_is_narrowed_float key value w :
  sjson_AddNumberToObject key value w
  = sjson_AddFloatToObject key (Printf.double_to_float value) w.
Proof. reflexivity. Qed.

Lemma nip_bind m k :
  never_invalid_param m -> never_invalid_param k -> never_invalid_param (m >>> k).
Proof.
  intros Hm Hk w s w' E. unfold and_then in E.
  destruct (m w) as [[s1 w1]|] eqn:E1; [|discriminate].
  specialize (Hm _ _ _ E1).
  destruct s1; try (injection E as <- <-; exact Hm); try congruence.
  eapply Hk, E.
Qed.

Lemma nip_ret s : s <> SJSON_ERROR_INVALID_PARAM -> never_invalid_param (ret s).
Proof. intros H w t w'. unfold ret. (cbv beta iota zeta; intros [= <- <-]). exact H. Qed.

Lemma nip_flush : never_invalid_param sjson_Flush.
Proof.
  intros [c log] s w'. unfold sjson_Flush, with_ctx, ret, undefined. cbn [fst snd].
  destruct (used c =? 0); [(cbv beta iota zeta; intros [= <- <-]); discriminate|].
  destruct (send_callback c) as [cb|]; [|discriminate]. cbn [fst snd].
  destruct (cb log (buffer c)); (cbv beta iota zeta; intros [= <- <-]); discriminate.
Qed.

Lemma nip_write_loop turns : forall data, never_invalid_param (write_loop turns data).
Proof.
  induction turns as [|turns IH]; intros [|a data]; cbn [write_loop];
    try (apply nip_ret; discriminate); try (intros w s w'; discriminate).
  intros w s w'. unfold with_ctx at 1.
  destruct (buffer_size (fst w) <=? used (fst w)); [discriminate|].
  apply nip_bind.
  - unfold update, ret; intros v t v'; (cbv beta iota zeta; intros [= <- <-]). discriminate.
  - apply nip_bind; [|apply IH].
    intros v t v'. unfold with_ctx.
    destruct (used (fst v) =? buffer_size (fst v)); [apply nip_flush|].
    apply nip_ret. discriminate.
Qed.

Lemma nip_write data : never_invalid_param (write (Some data)).
Proof.
  intros w s w'. unfold write, with_ctx.
  apply nip_bind; [|apply nip_write_loop].
  destruct (buffer_size (fst w) =? used (fst w)); [apply nip_flush|].
  apply nip_ret. discriminate.
Qed.

Lemma nip_write_formatted size text : never_invalid_param (write_formatted size text).
Proof.
  unfold write_formatted. destruct (size <=? length text);
    [apply nip_ret; discriminate | apply nip_write].
Qed.

Lemma nip_write_elements {A} (format : A -> list ascii) values : forall first,
  never_invalid_param (write_elements format first values).
Proof.
  induction values as [|v values IH]; intros first; cbn [write_elements].
  - apply nip_ret. discriminate.
  - apply nip_bind; [apply nip_write_formatted | apply IH].
Qed.

Lemma nip_check_state closer : never_invalid_param (check_state closer).
Proof.
  intros w s w'. unfold check_state, with_ctx, ret, undefined.
  destruct (finalized (fst w)); [(cbv beta iota zeta; intros [= <- <-]); discriminate|].
  destruct (depth (fst w) =? 0); [(cbv beta iota zeta; intros [= <- <-]); discriminate|].
  destruct (depth_stack (fst w) !! (depth (fst w) - 1)) as [top|]; [|discriminate].
  destruct (Ascii.eqb top closer); (cbv beta iota zeta; intros [= <- <-]); discriminate.
Qed.

Lemma nip_check_depth : never_invalid_param check_depth.
Proof.
  intros w s w'. unfold check_depth, with_ctx, ret.
  destruct (max_depth (fst w) <=? depth (fst w)); (cbv beta iota zeta; intros [= <- <-]); discriminate.
Qed.

Lemma nip_add_comma : never_invalid_param add_comma_if_needed.
Proof.
  intros w s w'. unfold add_comma_if_needed, with_ctx at 1.
  destruct (needs_comma (fst w) !! depth (fst w)) as [comma|]; [|discriminate].
  apply nip_bind.
  - destruct comma; [apply nip_write | apply nip_ret; discriminate].
  - intros v t v'. unfold with_ctx, update, undefined.
    destruct (store _ _ _); [(cbv beta iota zeta; intros [= <- <-]); discriminate | discriminate].
Qed.

Lemma nip_push closer : never_invalid_param (push closer).
Proof.
  intros w s w'. unfold push, with_ctx, update, undefined.
  destruct (store (depth_stack _) _ _); [|discriminate].
  destruct (store (needs_comma _) _ _); [(cbv beta iota zeta; intros [= <- <-]); discriminate | discriminate].
Qed.

Ltac nip_tac :=
  unfold write_char, write_str, check_object_state, check_array_state;
  repeat first
    [ apply nip_ret; discriminate
    | apply nip_write
    | apply nip_write_formatted
    | apply nip_write_elements
    | apply nip_add_comma
    | apply nip_check_state
    | apply nip_check_depth
    | apply nip_push
    | apply nip_bind ].

(** Where the test of the key's length is, and where it is missing:
    [sjson_AddArrayToObject] with a key of length 0 returns
    [SJSON_ERROR_INVALID_PARAM] and leaves the context unchanged; the
    other calls that take a key test it against the null pointer only,
    and with a key of length 0 (and their other pointers not null) they
    never return [SJSON_ERROR_INVALID_PARAM], in any state. *)
Theorem empty_key_handling :
  (forall w, sjson_AddArrayToObject (Some []) w = Some (SJSON_ERROR_INVALID_PARAM, w))
  /\ (forall value, never_invalid_param (sjson_AddStringToObject (Some []) (Some value)))
  /\ (forall long_bits value,
        never_invalid_param (sjson_AddIntToObject long_bits (Some []) value))
  /\ (forall value, never_invalid_param (sjson_AddFloatToObject (Some []) value))
  /\ (forall value, never_invalid_param (sjson_AddNumberToObject (Some []) value))
  /\ (forall value, never_invalid_param (sjson_AddRawToObject (Some []) (Some value)))
  /\ (forall long_bits values,
        never_invalid_param (sjson_AddIntArrayToObject long_bits (Some []) (Some values)))
  /\ (forall values,
        never_invalid_param (sjson_AddFloatArrayToObject (Some []) (Some values)))
  /\ never_invalid_param (sjson_AddObjectToObject (Some [])).
Proof.
  split; [reflexivity|].
  repeat split; intros;
    unfold sjson_AddStringToObject, sjson_AddIntToObject, sjson_AddNumberToObject,
      sjson_AddFloatToObject, sjson_AddRawToObject, sjson_AddIntArrayToObject,
      sjson_AddFloatArrayToObject, sjson_AddObjectToObject; nip_tac.
Qed.

(** C9.  The code at the failing input: each call that takes a key,
    with a key of length 0, in an object just opened.  All but
    [sjson_AddArrayToObject] return [SJSON_OK] and write their member
    with an empty key, where the claim has them return the
    invalid-parameter status and change nothing; only
    [sjson_AddArrayToObject], which tests the length, does that. *)
Lemma empty_key_is_accepted :
  exists w,
    run 64 empty_key_calls (blank, [])
    = Some (repeat SJSON_OK 10 ++ [SJSON_ERROR_INVALID_PARAM], w)
    /\ output w = empty_key_text.
Proof. eexists. split; vm_compute; reflexivity. Qed.

Lemma succeeds_bind (P Q R : world -> Prop) m k :
  succeeds P m Q -> succeeds Q k R -> succeeds P (m >>> k) R.
Proof.
  intros Hm Hk w Hw. destruct (Hm w Hw) as (w1 & E & H1).
  unfold and_then. rewrite E. apply Hk, H1.
Qed.

Lemma ready_same d w w' :
  ready d w -> good w' -> same_but_buffer (fst w) (fst w') -> ready d w'.
Proof.
  intros (G & W & F & D & D1 & T) G' S. unfold ready.
  split; [exact G'|]. split.
  - eapply wf_same; [exact S | | exact W].
    destruct G' as [_ U]. rewrite (same_but_buffer_size _ _ S) in U. lia.
  - rewrite S. ctx_simpl. auto.
Qed.

Lemma write_ready d data : succeeds (ready d) (write (Some data)) (ready d).
Proof.
  intros w R. pose proof R as (G & _).
  destruct (write_good data w G) as (w' & E & G' & S & _).
  exists w'. split; [exact E|]. eapply ready_same; eauto.
Qed.

Lemma write_formatted_ready d size text :
  length text < size -> succeeds (ready d) (write_formatted size text) (ready d).
Proof.
  intros H. unfold write_formatted.
  destruct (size <=? length text) eqn:E; [apply Nat.leb_le in E; lia|].
  apply write_ready.
Qed.

Lemma check_state_ok closer w :
  finalized (fst w) = false -> depth (fst w) <> 0 ->
  depth_stack (fst w) !! (depth (fst w) - 1) = Some closer ->
  check_state closer w = Some (SJSON_OK, w).
Proof.
  intros F D T. unfold check_state, with_ctx. rewrite F.
  apply Nat.eqb_neq in D. rewrite D, T, Ascii.eqb_refl. reflexivity.
Qed.

Lemma check_object_ready d : succeeds (ready d) check_object_state (ready d).
Proof.
  intros w R. pose proof R as (G & W & F & D & D1 & T). exists w. split; [|exact R].
  apply check_state_ok; [exact F | lia | rewrite D; exact T].
Qed.

Lemma check_depth_ready d :
  d < SJSON_MAX_DEPTH -> succeeds (ready d) check_depth (ready d).
Proof.
  intros H w R. pose proof R as (G & (_ & _ & _ & M & _) & F & D & D1 & T).
  exists w. split; [|exact R]. unfold check_depth, with_ctx. rewrite M, D.
  destruct (SJSON_MAX_DEPTH <=? d) eqn:E; [apply Nat.leb_le in E; lia | reflexivity].
Qed.

Lemma add_comma_ready d : succeeds (ready d) add_comma_if_needed (ready d).
Proof.
  intros w R. pose proof R as (G & W & F & D & D1 & T).
  pose proof W as (W1 & W2 & W3 & W4 & W5). unfold SJSON_MAX_DEPTH in *.
  unfold add_comma_if_needed, with_ctx at 1.
  destruct (lookup_lt_is_Some_2 (needs_comma (fst w)) (depth (fst w))) as [comma Hc]; [lia|].
  rewrite Hc. revert w R G W F D D1 T W1 W2 W3 W4 W5 Hc.
  enough (H : succeeds (ready d)
     ((if comma then write_char Ch.comma else ret SJSON_OK) >>>
      with_ctx (fun c1 : sjson_context_t =>
        match store (needs_comma c1) (depth c1) true with
        | Some a => update (set_needs_comma a)
        | None => undefined
        end)) (ready d)) by (intros w R; intros; apply H, R).
  apply succeeds_bind with (Q := ready d).
  - destruct comma; [apply write_ready|]. intros w R. exists w. split; [reflexivity | exact R].
  - intros w R. pose proof R as (G & W & F & D & D1 & T).
    pose proof W as (W1 & W2 & W3 & W4 & W5). unfold SJSON_MAX_DEPTH in *.
    unfold with_ctx. rewrite store_Some by lia.
    eexists. split; [reflexivity|].
    unfold ready, good, accepting, wf, roomy, used, SJSON_MAX_DEPTH in *. ctx_simpl.
    rewrite length_insert. intuition.
Qed.

Lemma push_ready d :
  d < SJSON_MAX_DEPTH -> succeeds (ready d) (push Ch.rbrace) (ready (d + 1)).
Proof.
  intros H w R. pose proof R as (G & W & F & D & D1 & T).
  pose proof W as (W1 & W2 & W3 & W4 & W5). unfold SJSON_MAX_DEPTH in *.
  unfold push, with_ctx. rewrite store_Some by lia. rewrite uint8_small by lia.
  rewrite store_Some by lia.
  eexists. split; [reflexivity|].
  unfold ready, good, accepting, wf, roomy, used, SJSON_MAX_DEPTH in *. ctx_simpl.
  rewrite !length_insert. rewrite D. replace (d + 1 - 1) with d by lia.
  rewrite list_lookup_insert_eq by lia. repeat split; try tauto; try lia.
Qed.

Lemma q_length x : length (Ch.q x) = length x + 2.
Proof. unfold Ch.q. cbn [length]. rewrite length_app. cbn [length]. lia. Qed.

Lemma member_length key : length (member key) = length key + 3.
Proof. unfold member. rewrite length_app, q_length. cbn [length]. lia. Qed.

Lemma add_object_ready d key :
  d < SJSON_MAX_DEPTH -> length key <= 123 ->
  succeeds (ready d) (sjson_AddObjectToObject (Some key)) (ready (d + 1)).
Proof.
  intros H K. unfold sjson_AddObjectToObject.
  apply succeeds_bind with (Q := ready d); [apply check_object_ready|].
  apply succeeds_bind with (Q := ready d); [apply check_depth_ready, H|].
  apply succeeds_bind with (Q := ready d); [apply add_comma_ready|].
  apply succeeds_bind with (Q := ready d); [|apply push_ready, H].
  apply write_formatted_ready. rewrite length_app, member_length. cbn [length]. lia.
Qed.

Lemma init_object_ready b n c0 :
  1 <= n ->
  exists w, sjson_InitObject (Some b) n (Some always_accept) (c0, []) = Some (SJSON_OK, w)
    /\ ready 1 w.
Proof.
  intros H. unfold sjson_InitObject, init.
  destruct (n =? 0) eqn:E; [apply Nat.eqb_eq in E; lia|].
  unfold and_then at 1, update.
  set (w0 := (_, _) : world).
  assert (G0 : good w0 /\ wf (fst w0) /\ finalized (fst w0) = false /\ depth (fst w0) = 0).
  { unfold good, accepting, wf, roomy, used, SJSON_MAX_DEPTH, w0. ctx_simpl. cbn [length repeat Nat.add].
    repeat split; auto; lia. }
  destruct G0 as (G & W & F & D).
  destruct (write_good [Ch.lbrace] w0 G) as (w1 & E1 & G1 & S1 & _).
  unfold and_then, write_char. rewrite E1.
  assert (W1 : wf (fst w1)).
  { eapply wf_same; [exact S1 | | exact W].
    destruct G1 as [_ U]. rewrite (same_but_buffer_size _ _ S1) in U. lia. }
  assert (F1 : finalized (fst w1) = false) by (rewrite S1; exact F).
  assert (D1 : depth (fst w1) = 0) by (rewrite S1; exact D).
  pose proof W1 as (V1 & V2 & V3 & V4 & V5). unfold SJSON_MAX_DEPTH in *.
  unfold push, with_ctx. rewrite D1. rewrite store_Some by lia.
  rewrite uint8_small by lia. rewrite store_Some by lia.
  eexists. split; [reflexivity|].
  unfold ready, good, accepting, wf, roomy, used, SJSON_MAX_DEPTH in *. ctx_simpl.
  rewrite !length_insert. cbn [Nat.sub Nat.add].
  rewrite list_lookup_insert_eq by lia. repeat split; try tauto; try lia.
Qed.

Lemma run_open_objects long_bits keys : forall d w,
  ready d w -> d + length keys <= SJSON_MAX_DEPTH ->
  Forall (fun key => length key <= 123) keys ->
  exists w', run long_bits (open_objects keys) w
             = Some (repeat SJSON_OK (length keys), w')
    /\ ready (d + length keys) w'.
Proof.
  induction keys as [|key keys IH]; intros d w R D K; cbn [open_objects map run length repeat].
  - exists w. rewrite Nat.add_0_r. auto.
  - inversion K as [|? ? K1 K2]; subst. cbn [length] in D.
    destruct (add_object_ready d key ltac:(lia) K1 w R) as (w1 & E1 & R1).
    cbn [call]. rewrite E1.
    destruct (IH (d + 1) w1 R1 ltac:(lia) K2) as (w2 & E2 & R2).
    fold (open_objects keys). rewrite E2. exists w2. split; [reflexivity|].
    replace (d + S (length keys)) with (d + 1 + length keys) by lia. exact R2.
Qed.

(** C6.  After InitObject and seven AddObjectToObject, which all
    succeed, [SJSON_MAX_DEPTH] collections are open.  One more
    AddObjectToObject or AddArrayToObject returns
    [SJSON_ERROR_MAX_DEPTH] and leaves the context and the sink as they
    were, and a member can still be added at that depth. *)
Theorem max_depth_boundary long_bits b n c0 keys :
  1 <= n -> length keys = SJSON_MAX_DEPTH - 1 ->
  Forall (fun key => length key <= 123) keys ->
  exists w,
    run long_bits (begin false b n :: open_objects keys) (c0, [])
    = Some (repeat SJSON_OK SJSON_MAX_DEPTH, w)
    /\ depth (fst w) = SJSON_MAX_DEPTH
    /\ (forall key, call long_bits (AddObjectToObject (Some key)) w
                    = Some (SJSON_ERROR_MAX_DEPTH, w))
    /\ (forall key, 1 <= length key <= 128 ->
                    call long_bits (AddArrayToObject (Some key)) w
                    = Some (SJSON_ERROR_MAX_DEPTH, w))
    /\ (forall key value, length key + length value + 5 < 256 ->
          exists w', call long_bits (AddStringToObject (Some key) (Some value)) w
                     = Some (SJSON_OK, w')
                     /\ depth (fst w') = SJSON_MAX_DEPTH).
Proof.
  intros Hn Hl K. unfold SJSON_MAX_DEPTH in *.
  destruct (init_object_ready b n c0 Hn) as (w1 & E1 & R1).
  destruct (run_open_objects long_bits keys 1 w1 R1 ltac:(unfold SJSON_MAX_DEPTH; lia) K)
    as (w & E & R).
  rewrite Hl in E, R. cbn [Nat.add] in R.
  exists w. split.
  { cbn [run begin call]. rewrite E1, E. reflexivity. }
  pose proof R as (G & W & F & D & D1 & T).
  pose proof W as (_ & _ & _ & M & _). unfold SJSON_MAX_DEPTH in M.
  assert (C : check_object_state w = Some (SJSON_OK, w)).
  { apply check_state_ok; [exact F | lia | rewrite D; exact T]. }
  assert (CD : check_depth w = Some (SJSON_ERROR_MAX_DEPTH, w)).
  { unfold check_depth, with_ctx. rewrite M, D. reflexivity. }
  split; [exact D|]. split; [|split].
  - intros key. cbn [call]. unfold sjson_AddObjectToObject, and_then. rewrite C, CD. reflexivity.
  - intros key Hk. cbn [call]. unfold sjson_AddArrayToObject.
    destruct (length key =? 0) eqn:E0; [apply Nat.eqb_eq in E0; lia|].
    destruct (128 <? length key) eqn:E128; [apply Nat.ltb_lt in E128; lia|].
    cbn [orb]. unfold and_then. rewrite C, CD. reflexivity.
  - intros key value Hk. cbn [call]. unfold sjson_AddStringToObject.
    assert (S : succeeds (ready 8)
      (check_object_state >>> add_comma_if_needed >>>
       write_formatted 256 (member key ++ Ch.q value)) (ready 8)).
    { apply succeeds_bind with (Q := ready 8); [apply check_object_ready|].
      apply succeeds_bind with (Q := ready 8); [apply add_comma_ready|].
      apply write_formatted_ready. rewrite length_app, member_length, q_length. lia. }
    destruct (S w R) as (w' & E' & R'). exists w'. split; [exact E'|]. apply R'.
Qed.

Lemma max_depth_boundary_witness :
  (1 <= 16 /\ length (repeat (Ch.s "n") 7) = SJSON_MAX_DEPTH - 1
   /\ Forall (fun key => length key <= 123) (repeat (Ch.s "n") 7))
  /\ exists w,
    run 64 (begin false [] 16 :: open_objects (repeat (Ch.s "n") 7)) (blank, [])
    = Some (repeat SJSON_OK SJSON_MAX_DEPTH, w)
    /\ depth (fst w) = SJSON_MAX_DEPTH
    /\ (forall key, call 64 (AddObjectToObject (Some key)) w
                    = Some (SJSON_ERROR_MAX_DEPTH, w))
    /\ (forall key, 1 <= length key <= 128 ->
                    call 64 (AddArrayToObject (Some key)) w
                    = Some (SJSON_ERROR_MAX_DEPTH, w))
    /\ (forall key value, length key + length value + 5 < 256 ->
          exists w', call 64 (AddStringToObject (Some key) (Some value)) w
                     = Some (SJSON_OK, w')
                     /\ depth (fst w') = SJSON_MAX_DEPTH).
Proof.
  assert (K : Forall (fun key : list ascii => length key <= 123) (repeat (Ch.s "n") 7)).
  { repeat constructor. }
  split; [split; [lia | split; [reflexivity | exact K]]|].
  apply (max_depth_boundary 64 [] 16 blank (repeat (Ch.s "n") 7) ltac:(lia) eq_refl K).
Defined.

(** ** Further properties of the writer *)

Lemma same_fields c c' :
  same_but_buffer c c' ->
  depth_stack c' = depth_stack c /\ depth c' = depth c
  /\ needs_comma c' = needs_comma c /\ finalized c' = finalized c.
Proof. intros ->. repeat split. Qed.

Lemma writing_same stack d commas out w w' out' :
  writing stack d commas out w -> good w' ->
  same_but_buffer (fst w) (fst w') -> output w' = out' ->
  writing stack d commas out' w'.
Proof.
  intros (G & W & F & D & D1 & S & C & O) G' Sb O'. unfold writing.
  split; [exact G'|]. split.
  - eapply wf_same; [exact Sb | | exact W].
    destruct G' as [_ U]. rewrite (same_but_buffer_size _ _ Sb) in U. lia.
  - destruct (same_fields _ _ Sb) as (E1 & E2 & E3 & E4).
    rewrite E1, E2, E3, E4. auto 10.
Qed.

Lemma write_writing stack d commas out data :
  succeeds (writing stack d commas out) (write (Some data))
           (writing stack d commas (out ++ data)).
Proof.
  intros w R. pose proof R as (G & _ & _ & _ & _ & _ & _ & O).
  destruct (write_good data w G) as (w' & E & G' & S & O').
  exists w'. split; [exact E|]. eapply writing_same; eauto. congruence.
Qed.

Lemma write_formatted_writing stack d commas out size text :
  length text < size ->
  succeeds (writing stack d commas out) (write_formatted size text)
           (writing stack d commas (out ++ text)).
Proof.
  intros H. unfold write_formatted.
  destruct (size <=? length text) eqn:E; [apply Nat.leb_le in E; lia|].
  apply write_writing.
Qed.

Lemma check_state_writing stack d commas out closer :
  stack !! (d - 1) = Some closer ->
  succeeds (writing stack d commas out) (check_state closer)
           (writing stack d commas out).
Proof.
  intros T w R. pose proof R as (G & W & F & D & D1 & S & C & O).
  exists w. split; [|exact R].
  apply check_state_ok; [exact F | lia | rewrite D, S; exact T].
Qed.

Lemma succeeds_ret (P : world -> Prop) : succeeds P (ret SJSON_OK) P.
Proof. intros w H. exists w. split; [reflexivity | exact H]. Qed.

Lemma add_comma_writing stack d commas out :
  succeeds (writing stack d commas out) add_comma_if_needed
           (writing stack d (<[d := true]> commas) (out ++ separator commas d)).
Proof.
  intros w R. pose proof R as (G & W & F & D & D1 & S & C & O).
  pose proof W as (W1 & W2 & W3 & W4 & W5). unfold SJSON_MAX_DEPTH in *.
  unfold add_comma_if_needed, with_ctx at 1.
  destruct (lookup_lt_is_Some_2 (needs_comma (fst w)) (depth (fst w))) as [comma Hc]; [lia|].
  rewrite Hc.
  assert (Hsep : separator commas d = if comma then [Ch.comma] else []).
  { unfold separator. rewrite <- C, <- D, Hc. destruct comma; reflexivity. }
  rewrite Hsep.
  enough (H : succeeds (writing stack d commas out)
     ((if comma then write_char Ch.comma else ret SJSON_OK) >>>
      with_ctx (fun c1 : sjson_context_t =>
        match store (needs_comma c1) (depth c1) true with
        | Some a => update (set_needs_comma a)
        | None => undefined
        end))
     (writing stack d (<[d := true]> commas)
        (out ++ (if comma then [Ch.comma] else [])))) by (apply H, R).
  apply succeeds_bind
    with (Q := writing stack d commas (out ++ (if comma then [Ch.comma] else []))).
  - destruct comma; [apply write_writing|]. rewrite app_nil_r. apply succeeds_ret.
  - clear. intros w R. pose proof R as (G & W & F & D & D1 & S & C & O).
    pose proof W as (W1 & W2 & W3 & W4 & W5). unfold SJSON_MAX_DEPTH in *.
    unfold with_ctx. rewrite store_Some by lia.
    eexists. split; [reflexivity|].
    unfold writing, good, accepting, wf, roomy, used, output, SJSON_MAX_DEPTH in *.
    ctx_simpl. rewrite length_insert. rewrite D, C. repeat split; try tauto; try lia; try congruence.
Qed.

Lemma push_writing stack d commas out closer :
  d < SJSON_MAX_DEPTH ->
  succeeds (writing stack d commas out) (push closer)
           (writing (<[d := closer]> stack) (d + 1) (<[d + 1 := false]> commas) out).
Proof.
  intros H w R. pose proof R as (G & W & F & D & D1 & S & C & O).
  pose proof W as (W1 & W2 & W3 & W4 & W5). unfold SJSON_MAX_DEPTH in *.
  unfold push, with_ctx. rewrite store_Some by lia. rewrite uint8_small by lia.
  rewrite store_Some by lia.
  eexists. split; [reflexivity|].
  unfold writing, good, accepting, wf, roomy, used, output, SJSON_MAX_DEPTH in *.
  ctx_simpl. rewrite !length_insert. rewrite D, S, C.
  repeat split; try tauto; try lia; try congruence.
Qed.

Lemma check_depth_writing stack d commas out :
  d < SJSON_MAX_DEPTH ->
  succeeds (writing stack d commas out) check_depth (writing stack d commas out).
Proof.
  intros H w R. pose proof R as (G & (_ & _ & _ & M & _) & F & D & D1 & T).
  exists w. split; [|exact R]. unfold check_depth, with_ctx. rewrite M, D.
  destruct (SJSON_MAX_DEPTH <=? d) eqn:E; [apply Nat.leb_le in E; lia | reflexivity].
Qed.

Lemma close_writing stack d commas out closer :
  1 <= d -> stack !! d = Some closer ->
  succeeds (writing stack (d + 1) commas out) sjson_Close
           (writing stack d (<[d := true]> commas) (out ++ [closer])).
Proof.
  intros H1 T w R. pose proof R as (G & W & F & D & D1 & S & C & O).
  pose proof W as (W1 & W2 & W3 & W4 & W5). unfold SJSON_MAX_DEPTH in *.
  unfold sjson_Close, with_ctx at 1. rewrite F, D.
  destruct (d + 1 =? 0) eqn:E0; [apply Nat.eqb_eq in E0; lia|]. cbn [orb].
  unfold and_then at 1, update at 1. unfold with_ctx at 1. ctx_simpl.
  replace (d + 1 - 1) with d by lia. rewrite S, T.
  assert (R1 : writing stack d commas out (set_depth d (fst w), snd w)).
  { unfold writing, good, accepting, wf, roomy, used, output, SJSON_MAX_DEPTH in *.
    ctx_simpl. repeat split; try tauto; try lia; try congruence. }
  destruct (write_writing stack d commas out [closer] _ R1) as (w1 & E1 & R1').
  unfold write_char. rewrite E1.
  pose proof R1' as (G' & W' & F' & D' & _ & S' & C' & O').
  pose proof W' as (V1 & V2 & V3 & V4 & V5). unfold SJSON_MAX_DEPTH in *.
  unfold after_close, with_ctx. rewrite D'.
  destruct (d =? 0) eqn:Ed; [apply Nat.eqb_eq in Ed; lia|].
  rewrite store_Some by lia.
  eexists. split; [reflexivity|].
  unfold writing, good, accepting, wf, roomy, used, output, SJSON_MAX_DEPTH in *.
  ctx_simpl. rewrite length_insert. rewrite C'. repeat split; try tauto; try lia; try congruence.
Qed.

Lemma add_string_writing stack d commas out key value :
  stack !! (d - 1) = Some Ch.rbrace ->
  length key + length value + 5 < 256 ->
  succeeds (writing stack d commas out)
    (sjson_AddStringToObject (Some key) (Some value))
    (writing stack d (<[d := true]> commas)
       (out ++ separator commas d ++ member key ++ Ch.q value)).
Proof.
  intros T L. unfold sjson_AddStringToObject.
  eapply succeeds_bind; [apply check_state_writing, T|].
  eapply succeeds_bind; [apply add_comma_writing|].
  rewrite (app_assoc out). apply write_formatted_writing.
  rewrite length_app, member_length, q_length. lia.
Qed.

Lemma add_object_writing stack d commas out key :
  stack !! (d - 1) = Some Ch.rbrace -> d < SJSON_MAX_DEPTH -> length key <= 123 ->
  succeeds (writing stack d commas out)
    (sjson_AddObjectToObject (Some key))
    (writing (<[d := Ch.rbrace]> stack) (d + 1)
       (<[d + 1 := false]> (<[d := true]> commas))
       (out ++ separator commas d ++ member key ++ [Ch.lbrace])).
Proof.
  intros T D L. unfold sjson_AddObjectToObject.
  eapply succeeds_bind; [apply check_state_writing, T|].
  eapply succeeds_bind; [apply check_depth_writing, D|].
  eapply succeeds_bind; [apply add_comma_writing|].
  eapply succeeds_bind; [|apply push_writing, D].
  rewrite (app_assoc out). apply write_formatted_writing.
  rewrite length_app, member_length. cbn [length]. lia.
Qed.

Lemma add_array_writing stack d commas out key :
  stack !! (d - 1) = Some Ch.rbrace -> d < SJSON_MAX_DEPTH ->
  1 <= length key <= 128 ->
  succeeds (writing stack d commas out)
    (sjson_AddArrayToObject (Some key))
    (writing (<[d := Ch.rbracket]> stack) (d + 1)
       (<[d + 1 := false]> (<[d := true]> commas))
       (out ++ separator commas d ++ member key ++ [Ch.lbracket])).
Proof.
  intros T D L. unfold sjson_AddArrayToObject.
  destruct (length key =? 0) eqn:E0; [apply Nat.eqb_eq in E0; lia|].
  destruct (128 <? length key) eqn:E1; [apply Nat.ltb_lt in E1; lia|]. cbn [orb].
  eapply succeeds_bind; [apply check_state_writing, T|].
  eapply succeeds_bind; [apply check_depth_writing, D|].
  eapply succeeds_bind; [apply add_comma_writing|].
  eapply succeeds_bind; [|apply push_writing, D].
  rewrite (app_assoc out). apply write_formatted_writing.
  rewrite length_app, member_length. cbn [length]. lia.
Qed.

Lemma add_int_to_array_writing long_bits stack d commas out value :
  stack !! (d - 1) = Some Ch.rbracket ->
  length (Printf.ld long_bits value) < 32 ->
  succeeds (writing stack d commas out)
    (sjson_AddIntToArray long_bits value)
    (writing stack d (<[d := true]> commas)
       (out ++ separator commas d ++ Printf.ld long_bits value)).
Proof.
  intros T L. unfold sjson_AddIntToArray.
  eapply succeeds_bind; [apply check_state_writing, T|].
  eapply succeeds_bind; [apply add_comma_writing|].
  rewrite (app_assoc out). apply write_formatted_writing, L.
Qed.

Lemma write_elements_writing {A} (format : A -> list ascii) stack d commas values :
  forall first out,
  elements_fit format values ->
  succeeds (writing stack d commas out) (write_elements format first values)
           (writing stack d commas (out ++ elements_text format first values)).
Proof.
  induction values as [|v values IH]; intros first out F; cbn [write_elements elements_text].
  - rewrite app_nil_r. apply succeeds_ret.
  - inversion F as [|? ? F1 F2]; subst.
    replace (out ++ (if first then [] else [Ch.comma]) ++ format v
             ++ elements_text format false values)
      with ((out ++ (if first then [] else [Ch.comma]) ++ format v)
            ++ elements_text format false values)
      by (rewrite <- !app_assoc; reflexivity).
    eapply succeeds_bind.
    + apply write_formatted_writing. rewrite length_app.
      destruct first; cbn [length]; lia.
    + apply IH, F2.
Qed.

Lemma add_int_array_writing long_bits stack d commas out key values :
  stack !! (d - 1) = Some Ch.rbrace -> length key <= 59 ->
  elements_fit (Printf.ld long_bits) values ->
  succeeds (writing stack d commas out)
    (sjson_AddIntArrayToObject long_bits (Some key) (Some values))
    (writing stack d (<[d := true]> commas)
       (out ++ separator commas d ++ member key ++ [Ch.lbracket]
        ++ elements_text (Printf.ld long_bits) true values ++ [Ch.rbracket])).
Proof.
  intros T L F. unfold sjson_AddIntArrayToObject.
  eapply succeeds_bind; [apply check_state_writing, T|].
  eapply succeeds_bind; [apply add_comma_writing|].
  eapply succeeds_bind.
  { apply write_formatted_writing. rewrite length_app, member_length. cbn [length]. lia. }
  eapply succeeds_bind; [apply write_elements_writing, F|].
  unfold write_char.
  replace (out ++ separator commas d ++ member key ++ [Ch.lbracket]
           ++ elements_text (Printf.ld long_bits) true values ++ [Ch.rbracket])
    with ((((out ++ separator commas d) ++ member key ++ [Ch.lbracket])
           ++ elements_text (Printf.ld long_bits) true values) ++ [Ch.rbracket])
    by (rewrite <- !app_assoc; reflexivity).
  apply write_writing.
Qed.

Lemma run_step long_bits o ops w w1 :
  call long_bits o w = Some (SJSON_OK, w1) ->
  run long_bits (o :: ops) w
  = match run long_bits ops w1 with
    | Some (statuses, w2) => Some (SJSON_OK :: statuses, w2)
    | None => None
    end.
Proof. intros E. cbn [run]. rewrite E. reflexivity. Qed.

(** X15.  In an object open at a depth below SJSON_MAX_DEPTH, with a
    sink that accepts and keys and values that fit the bytes they are
    formatted into (a key of at most 123 bytes for the nested object,
    key and value of less than 251 bytes together for a string
    member), opening a nested object, adding two string members,
    closing it and adding a sibling writes commas exactly between the
    members of one collection: a separator before the nested object's key when
    a member came before it, none after the opening brace, one between
    the two members, and one between the closed object and its
    sibling.  All five calls return SJSON_OK and the depth is back at
    its value. *)
Theorem separators_follow_nesting long_bits stack d commas out w k k1 v1 k2 v2 k3 v3 :
  writing stack d commas out w ->
  stack !! (d - 1) = Some Ch.rbrace -> d < SJSON_MAX_DEPTH ->
  length k <= 123 ->
  length k1 + length v1 + 5 < 256 ->
  length k2 + length v2 + 5 < 256 ->
  length k3 + length v3 + 5 < 256 ->
  exists w',
    run long_bits (nested_then_sibling k k1 v1 k2 v2 k3 v3) w
    = Some (repeat SJSON_OK 5, w')
    /\ output w'
       = out ++ separator commas d ++ member k ++ [Ch.lbrace]
         ++ member k1 ++ Ch.q v1 ++ [Ch.comma] ++ member k2 ++ Ch.q v2
         ++ [Ch.rbrace] ++ [Ch.comma] ++ member k3 ++ Ch.q v3
    /\ depth (fst w') = d
    /\ depth_stack (fst w') !! (d - 1) = Some Ch.rbrace.
Proof.
  intros R T D L L1 L2 L3.
  pose proof R as (_ & (W1 & W2 & _) & _ & _ & D1 & S & C & _).
  unfold SJSON_MAX_DEPTH in *.
  assert (Ls : length stack = 9) by (rewrite <- S; exact W1).
  assert (Lc : length commas = 9) by (rewrite <- C; exact W2).
  destruct (add_object_writing stack d commas out k T D L w R) as (w1 & E1 & R1).
  assert (T1 : <[d := Ch.rbrace]> stack !! (d + 1 - 1) = Some Ch.rbrace).
  { replace (d + 1 - 1) with d by lia. apply list_lookup_insert_eq. lia. }
  destruct (add_string_writing _ _ _ _ k1 v1 T1 L1 w1 R1) as (w2 & E2 & R2).
  destruct (add_string_writing _ _ _ _ k2 v2 T1 L2 w2 R2) as (w3 & E3 & R3).
  assert (T2 : <[d := Ch.rbrace]> stack !! d = Some Ch.rbrace).
  { apply list_lookup_insert_eq. lia. }
  destruct (close_writing _ d _ _ Ch.rbrace D1 T2 w3 R3) as (w4 & E4 & R4).
  assert (T3 : <[d := Ch.rbrace]> stack !! (d - 1) = Some Ch.rbrace).
  { rewrite list_lookup_insert_ne by lia. exact T. }
  destruct (add_string_writing _ _ _ _ k3 v3 T3 L3 w4 R4) as (w5 & E5 & R5).
  exists w5. split.
  { unfold nested_then_sibling. cbn [run call].
    rewrite E1, E2, E3, E4, E5. reflexivity. }
  destruct R5 as (_ & _ & _ & D5 & _ & S5 & _ & O5).
  split; [|split; [exact D5 | rewrite S5; exact T3]].
  rewrite O5. unfold separator.
  rewrite !list_lookup_insert_eq by (rewrite ?length_insert; lia).
  rewrite <- !app_assoc. cbn [app]. reflexivity.
Qed.

Lemma run_app long_bits ops1 : forall ops2 w ss1 w1,
  run long_bits ops1 w = Some (ss1, w1) ->
  run long_bits (ops1 ++ ops2) w
  = match run long_bits ops2 w1 with
    | Some (ss2, w2) => Some (ss1 ++ ss2, w2)
    | None => None
    end.
Proof.
  induction ops1 as [|o ops1 IH]; intros ops2 w ss1 w1; cbn [run app].
  - intros [= <- <-]. destruct (run long_bits ops2 w) as [[ss2 w2]|]; reflexivity.
  - destruct (call long_bits o w) as [[s u]|]; [|discriminate].
    destruct (run long_bits ops1 u) as [[ss u']|] eqn:E; [|discriminate].
    intros [= <- <-]. rewrite (IH ops2 u ss u' E).
    destruct (run long_bits ops2 u') as [[ss2 w2]|]; reflexivity.
Qed.

Lemma run_int_elements long_bits stack d values : forall first commas out w,
  stack !! (d - 1) = Some Ch.rbracket ->
  elements_fit (Printf.ld long_bits) values ->
  writing stack d commas out w -> commas !! d = Some (negb first) ->
  exists w' commas',
    run long_bits (map AddIntToArray values) w
    = Some (repeat SJSON_OK (length values), w')
    /\ writing stack d commas'
         (out ++ elements_text (Printf.ld long_bits) first values) w'.
Proof.
  induction values as [|v values IH]; intros first commas out w T F R C;
    cbn [map run length repeat elements_text].
  - exists w, commas. rewrite app_nil_r. auto.
  - inversion F as [|? ? F1 F2]; subst.
    destruct (add_int_to_array_writing long_bits stack d commas out v T ltac:(lia) w R)
      as (w1 & E1 & R1).
    cbn [call]. rewrite E1.
    assert (Hsep : separator commas d = if first then [] else [Ch.comma]).
    { unfold separator. rewrite C. destruct first; reflexivity. }
    rewrite Hsep in R1.
    assert (C1 : <[d := true]> commas !! d = Some (negb false)).
    { apply list_lookup_insert_eq. apply lookup_lt_Some in C. exact C. }
    destruct (IH false _ _ w1 T F2 R1 C1) as (w2 & commas' & E2 & R2).
    rewrite E2. exists w2, commas'. split; [reflexivity|].
    rewrite <- !app_assoc in R2. exact R2.
Qed.

(** X16.  In an object open at a depth below SJSON_MAX_DEPTH, with a
    sink that accepts, a key of 1 to 59 bytes and elements whose
    decimal text fits the 32 bytes it is formatted into,
    [sjson_AddIntArrayToObject] writes what [sjson_AddArrayToObject],
    one [sjson_AddIntToArray] for each element and [sjson_Close] write:
    the separator, the key, an opening bracket, the elements in decimal
    with commas between them, and a closing bracket.  All the calls
    return SJSON_OK; both ways leave the same depth, and the comma flag
    of the object set.  (At depth SJSON_MAX_DEPTH, and for keys of 0 or
    of 60 to 128 bytes, one way is accepted and the other refused, so
    the conditions are needed.) *)
Theorem int_array_as_by_hand long_bits stack d commas out w key values :
  writing stack d commas out w ->
  stack !! (d - 1) = Some Ch.rbrace -> d < SJSON_MAX_DEPTH ->
  1 <= length key <= 59 ->
  elements_fit (Printf.ld long_bits) values ->
  exists w1 w2,
    sjson_AddIntArrayToObject long_bits (Some key) (Some values) w = Some (SJSON_OK, w1)
    /\ run long_bits (array_by_hand key values) w
       = Some (repeat SJSON_OK (length values + 2), w2)
    /\ output w1 = output w2
    /\ output w1 = out ++ separator commas d ++ member key ++ [Ch.lbracket]
                   ++ elements_text (Printf.ld long_bits) true values ++ [Ch.rbracket]
    /\ depth (fst w1) = depth (fst w2)
    /\ needs_comma (fst w1) !! d = Some true
    /\ needs_comma (fst w2) !! d = Some true.
Proof.
  intros R T D L F.
  pose proof R as (_ & (W1 & W2 & _) & _ & _ & D1 & Hs & C & _).
  unfold SJSON_MAX_DEPTH in *.
  assert (Ls : length stack = 9) by (rewrite <- Hs; exact W1).
  assert (Lc : length commas = 9) by (rewrite <- C; exact W2).
  destruct (add_int_array_writing long_bits stack d commas out key values T ltac:(lia) F w R)
    as (w1 & E1 & R1).
  destruct (add_array_writing stack d commas out key T D ltac:(lia) w R) as (u1 & A1 & Q1).
  assert (T1 : <[d := Ch.rbracket]> stack !! (d + 1 - 1) = Some Ch.rbracket).
  { replace (d + 1 - 1) with d by lia. apply list_lookup_insert_eq. lia. }
  assert (C1 : <[d + 1 := false]> (<[d := true]> commas) !! (d + 1) = Some (negb true)).
  { apply list_lookup_insert_eq. rewrite length_insert. lia. }
  destruct (run_int_elements long_bits _ _ values true _ _ u1 T1 F Q1 C1)
    as (u2 & commas' & A2 & Q2).
  assert (T2 : <[d := Ch.rbracket]> stack !! d = Some Ch.rbracket).
  { apply list_lookup_insert_eq. lia. }
  destruct (close_writing _ d _ _ Ch.rbracket D1 T2 u2 Q2) as (u3 & A3 & Q3).
  exists w1, u3. split; [exact E1|]. split.
  { unfold array_by_hand. cbn [run call]. rewrite A1.
    rewrite (run_app long_bits _ [Close] u1 _ u2 A2). cbn [run call]. rewrite A3.
    f_equal. f_equal. replace (length values + 2) with (S (length values + 1)) by lia.
    cbn [repeat]. f_equal. rewrite repeat_app. reflexivity. }
  pose proof Q2 as (_ & (_ & V2 & _) & _).
  destruct R1 as (_ & _ & _ & D1' & _ & _ & C1' & O1).
  destruct Q3 as (_ & _ & _ & D3 & _ & _ & C3 & O3).
  split; [|split; [exact O1 | split; [congruence | split]]].
  - rewrite O1, O3. rewrite <- !app_assoc. reflexivity.
  - rewrite C1'. apply list_lookup_insert_eq. lia.
  - rewrite C3. apply list_lookup_insert_eq.
    destruct Q2 as (_ & (_ & V & _) & _ & _ & _ & _ & Cq & _).
    rewrite <- Cq, V. unfold SJSON_MAX_DEPTH. lia.
Qed.

(** X9.  In every state reached by calls after an accepted Init, every
    call of the interface, whatever its arguments, returns a status: no
    call indexes outside the two arrays of the context, calls a null
    sink, copies past the buffer or loops for ever; and the state it
    leaves is again such a state. *)
Theorem every_call_returns long_bits w o :
  reachable long_bits w ->
  exists s w', call long_bits o w = Some (s, w') /\ reachable long_bits w'.
Proof.
  intros R. destruct (call_keeps_Inv long_bits o w (reachable_Inv _ _ R)) as (s & w' & E & _).
  exists s, w'. split; [exact E|]. eapply reach_call; eauto.
Qed.

Lemma init_reachable :
  reachable 64 (mk_ctx (Ch.s "{") 4 (Some always_reject)
                  (Ch.rbrace :: repeat Ch.nul 8) 1 8 (repeat false 9) false, []).
Proof.
  eapply (reach_init 64 (blank, []) (InitObject (Some []) 4 (Some always_reject)));
    [reflexivity | vm_compute; reflexivity].
Qed.

Lemma every_call_returns_witness :
  reachable 64 (mk_ctx (Ch.s "{") 4 (Some always_reject)
                  (Ch.rbrace :: repeat Ch.nul 8) 1 8 (repeat false 9) false, [])
  /\ exists s w',
    call 64 (AddIntToObject (Some (Ch.s "count")) 3%Z)
      (mk_ctx (Ch.s "{") 4 (Some always_reject)
         (Ch.rbrace :: repeat Ch.nul 8) 1 8 (repeat false 9) false, [])
    = Some (s, w') /\ reachable 64 w'.
Proof.
  split; [exact init_reachable|].
  apply (every_call_returns 64 _ (AddIntToObject (Some (Ch.s "count")) 3%Z) init_reachable).
Defined.

(** X10.  In every reachable state the depth is at most SJSON_MAX_DEPTH,
    the bytes buffered are at most the buffer size, and the closer
    stack and the comma flags have their SJSON_MAX_DEPTH + 1 entries. *)
Theorem reachable_within_bounds long_bits w :
  reachable long_bits w ->
  depth (fst w) <= SJSON_MAX_DEPTH
  /\ used (fst w) <= buffer_size (fst w)
  /\ length (depth_stack (fst w)) = SJSON_MAX_DEPTH + 1
  /\ length (needs_comma (fst w)) = SJSON_MAX_DEPTH + 1.
Proof.
  intros R. destruct (reachable_Inv _ _ R) as [(W1 & W2 & W3 & W4 & _ & _ & W7) _].
  rewrite W4 in W3. auto.
Qed.

Lemma reachable_within_bounds_witness :
  reachable 64 (mk_ctx (Ch.s "{") 4 (Some always_reject)
                  (Ch.rbrace :: repeat Ch.nul 8) 1 8 (repeat false 9) false, [])
  /\ 1 <= SJSON_MAX_DEPTH
  /\ 1 <= 4
  /\ 9 = SJSON_MAX_DEPTH + 1
  /\ 9 = SJSON_MAX_DEPTH + 1.
Proof.
  split; [exact init_reachable|].
  apply (reachable_within_bounds 64 _ init_reachable).
Defined.

(** X11.  Once the context is finalized, [sjson_Close] and every Add
    call whose arguments are given return SJSON_ERROR_INVALID_STATE and
    change neither the context nor the sink. *)
Theorem finalized_refuses_members long_bits o w :
  finalized (fst w) = true -> member_call o = true -> arguments_given o = true ->
  call long_bits o w = Some (SJSON_ERROR_INVALID_STATE, w).
Proof.
  intros F M A.
  assert (C : forall closer, check_state closer w = Some (SJSON_ERROR_INVALID_STATE, w)).
  { intros closer. unfold check_state, with_ctx. rewrite F. reflexivity. }
  destruct o as [| | | | | [k|] [v|] | [k|] v | [k|] v | [k|] v | [k|] [v|] | [k|] [v|]
                 | [k|] | [k|] | [k|] [v|] | v | v | [v|]];
    try discriminate M; try discriminate A; cbn [call];
    unfold sjson_AddStringToObject, sjson_AddIntToObject, sjson_AddNumberToObject,
      sjson_AddFloatToObject, sjson_AddIntArrayToObject, sjson_AddFloatArrayToObject,
      sjson_AddObjectToObject, sjson_AddRawToObject, sjson_AddIntToArray,
      sjson_AddFloatToArray, sjson_AddStringToArray, check_object_state, check_array_state,
      and_then; rewrite ?C; try reflexivity.
  - unfold sjson_Close, with_ctx. rewrite F. reflexivity.
  - unfold sjson_AddArrayToObject. cbn [arguments_given] in A. apply negb_true_iff in A.
    rewrite A. unfold check_object_state, and_then. rewrite C. reflexivity.
Qed.

Lemma finalized_refuses_members_witness :
  (finalized (fst ended) = true
   /\ member_call (AddIntToObject (Some (Ch.s "late")) 1%Z) = true
   /\ arguments_given (AddIntToObject (Some (Ch.s "late")) 1%Z) = true)
  /\ call 64 (AddIntToObject (Some (Ch.s "late")) 1%Z) ended
     = Some (SJSON_ERROR_INVALID_STATE, ended).
Proof.
  split; [repeat split|].
  apply (finalized_refuses_members 64 (AddIntToObject (Some (Ch.s "late")) 1%Z) ended);
    reflexivity.
Defined.

Lemma flush_result w s w' :
  sjson_Flush w = Some (s, w') ->
  output w' = output w
  /\ (s = SJSON_OK
      \/ s = SJSON_ERROR_BUFFER_FULL /\ last_rejected (snd w')).
Proof.
  destruct w as [c log]. unfold sjson_Flush, with_ctx, ret. cbn [fst snd].
  destruct (used c =? 0). 1: (intros H; inversion H; subst; auto).
  destruct (send_callback c) as [cb|]; [|discriminate].
  cbv zeta. cbn [snd]. destruct (cb log (buffer c)) eqn:R; intros [= <- <-]; unfold output; cbn [fst snd];
    rewrite delivered_app; cbn [delivered set_buffer buffer]; rewrite !app_nil_r.
  - auto.
  - split; [reflexivity|]. right. split; [reflexivity|]. eexists _, _. reflexivity.
Qed.

Lemma write_loop_order turns : forall data w s w',
  write_loop turns data w = Some (s, w') ->
  exists n, n <= length data
    /\ output w' = output w ++ firstn n data
    /\ (s = SJSON_OK /\ n = length data
        \/ s = SJSON_ERROR_BUFFER_FULL /\ last_rejected (snd w')).
Proof.
  induction turns as [|turns IH]; intros data w s w'.
  - destruct data; [|discriminate]. intros [= <- <-]. exists 0. cbn.
    rewrite app_nil_r. auto.
  - destruct data as [|a data].
    { intros [= <- <-]. exists 0. cbn. rewrite app_nil_r. auto. }
    cbn [write_loop]. unfold with_ctx at 1.
    destruct (buffer_size (fst w) <=? used (fst w)) eqn:E; [discriminate|].
    apply Nat.leb_gt in E.
    set (k := Nat.min (length (a :: data)) (buffer_size (fst w) - used (fst w))).
    unfold and_then at 1, update.
    set (w1 := (set_buffer (buffer (fst w) ++ firstn k (a :: data)) (fst w), snd w)).
    assert (O1 : output w1 = output w ++ firstn k (a :: data)).
    { unfold output, w1. cbn [fst snd set_buffer buffer]. rewrite app_assoc. reflexivity. }
    assert (Hk : k <= length (a :: data)) by (unfold k; lia).
    unfold and_then, with_ctx.
    destruct (used (fst w1) =? buffer_size (fst w1)).
    + destruct (sjson_Flush w1) as [[s1 w2]|] eqn:EF; [|discriminate].
      destruct (flush_result _ _ _ EF) as [O2 [-> | [-> LR]]].
      * intros H. destruct (IH _ _ _ _ H) as (n & Hn & On & Hs).
        rewrite length_skipn in Hn. exists (k + n). split; [lia|].
        split; [rewrite On, O2, O1, <- app_assoc, take_take_drop; reflexivity|].
        destruct Hs as [[-> Hs] | Hs]; [left | right; exact Hs].
        rewrite length_skipn in Hs. split; [reflexivity | lia].
      * intros [= <- <-]. exists k. split; [exact Hk|].
        split; [rewrite O2, O1; reflexivity | auto].
    + unfold ret. intros H. destruct (IH _ _ _ _ H) as (n & Hn & On & Hs).
      rewrite length_skipn in Hn. exists (k + n). split; [lia|].
      split; [rewrite On, O1, <- app_assoc, take_take_drop; reflexivity|].
      destruct Hs as [[-> Hs] | Hs]; [left | right; exact Hs].
      rewrite length_skipn in Hs. split; [reflexivity | lia].
Qed.

(** X13.  [write], whatever the sink answers, appends a prefix of the
    data to the output (the bytes the sink has accepted, then the bytes
    buffered) and changes nothing before it: all of the data when it
    returns SJSON_OK; otherwise it returns SJSON_ERROR_BUFFER_FULL and
    the sink has just refused a buffer. *)
Theorem write_keeps_order data w :
  roomy (fst w) ->
  exists s w' n,
    write (Some data) w = Some (s, w')
    /\ n <= length data
    /\ output w' = output w ++ firstn n data
    /\ (s = SJSON_OK /\ n = length data
        \/ s = SJSON_ERROR_BUFFER_FULL /\ last_rejected (snd w')).
Proof.
  intros R. destruct (write_any data w R) as (s & w' & E & _).
  exists s, w'. revert E. unfold write, with_ctx, and_then.
  destruct (buffer_size (fst w) =? used (fst w)).
  - destruct (sjson_Flush w) as [[s1 w1]|] eqn:EF; [|discriminate].
    destruct (flush_result _ _ _ EF) as [O1 [-> | [-> LR]]].
    + intros E. destruct (write_loop_order _ _ _ _ _ E) as (n & Hn & On & Hs).
      exists n. rewrite <- O1. auto.
    + intros [= <- <-]. exists 0. cbn [firstn]. rewrite app_nil_r.
      repeat split; auto; lia.
  - unfold ret. intros E. destruct (write_loop_order _ _ _ _ _ E) as (n & Hn & On & Hs).
    exists n. auto.
Qed.

Lemma write_keeps_order_witness :
  roomy (fst object_begun)
  /\ exists s w' n,
    write (Some (Ch.s "abcdef")) object_begun = Some (s, w')
    /\ n <= length (Ch.s "abcdef")
    /\ output w' = output object_begun ++ firstn n (Ch.s "abcdef")
    /\ (s = SJSON_OK /\ n = length (Ch.s "abcdef")
        \/ s = SJSON_ERROR_BUFFER_FULL /\ last_rejected (snd w')).
Proof.
  assert (R : roomy (fst object_begun)).
  { unfold roomy, object_begun, used. cbn. repeat split; eauto; lia. }
  split; [exact R|]. apply (write_keeps_order (Ch.s "abcdef") object_begun R).
Defined.

Lemma init_writing opening closer b n w0 :
  n <> 0 -> Forall (fun entry => snd entry = true) (snd w0) ->
  exists w, init opening closer (Some b) n (Some always_accept) w0 = Some (SJSON_OK, w)
    /\ writing (<[0 := closer]> (repeat Ch.nul (SJSON_MAX_DEPTH + 1))) 1
               (<[1 := false]> (repeat false (SJSON_MAX_DEPTH + 1)))
               (delivered (snd w0) ++ [opening]) w.
Proof.
  intros Hn Hlog. unfold init. destruct (n =? 0) eqn:E; [apply Nat.eqb_eq in E; lia|].
  unfold and_then at 1, update at 1. cbv beta iota.
  set (c0 := {| buffer := []; buffer_size := n; send_callback := Some always_accept;
                depth_stack := repeat Ch.nul (SJSON_MAX_DEPTH + 1); depth := 0;
                max_depth := SJSON_MAX_DEPTH;
                needs_comma := repeat false (SJSON_MAX_DEPTH + 1); finalized := false |}).
  assert (G : good (c0, snd w0)).
  { unfold good, accepting, used. cbn. repeat split; auto. lia. }
  unfold and_then, write_char.
  match goal with
  | |- context [write (Some [opening]) ?w] =>
      destruct (write_good [opening] w G) as (w1 & E1 & G1 & Sb & O1)
  end.
  rewrite E1.
  destruct w1 as [[b1 n1 cb1 ds1 d1 md1 nc1 f1] log1]. cbn [fst snd] in *.
  unfold same_but_buffer, c0, SJSON_MAX_DEPTH in Sb. cbn in Sb.
  injection Sb as -> -> -> -> -> -> ->.
  unfold push, with_ctx. cbn [fst]. ctx_simpl.
  unfold store. cbn [length Nat.ltb Nat.leb]. rewrite uint8_small by lia.
  cbn [Nat.add length Nat.ltb Nat.leb].
  eexists. split; [reflexivity|].
  destruct G1 as [[A1 A2] U].
  unfold output, c0 in O1. cbn [fst snd buffer] in O1. rewrite app_nil_r in O1.
  unfold writing, good, accepting, wf, roomy, used, output, SJSON_MAX_DEPTH in *.
  ctx_simpl. cbn [length repeat Nat.add].
  repeat split; eauto; try lia.
Qed.

Lemma close_last_writing stack commas out closer w :
  writing stack 1 commas out w -> stack !! 0 = Some closer ->
  exists w', sjson_Close w = Some (SJSON_OK, w') /\ ended_with (out ++ [closer]) w'.
Proof.
  intros R T. pose proof R as (G & W & F & D & D1 & S & C & O).
  pose proof W as (W1 & W2 & W3 & W4 & W5). unfold SJSON_MAX_DEPTH in *.
  unfold sjson_Close, with_ctx at 1. rewrite F, D. cbn [Nat.eqb orb Nat.sub].
  unfold and_then at 1, update at 1. unfold with_ctx at 1. ctx_simpl.
  rewrite S, T.
  assert (G0 : good (set_depth 0 (fst w), snd w)).
  { unfold good, accepting, used in *. ctx_simpl. exact G. }
  destruct (write_good [closer] _ G0) as (w1 & E1 & G1 & Sb & O1).
  unfold write_char. rewrite E1.
  destruct (same_fields _ _ Sb) as (F1 & F2 & F3 & F4). ctx_simpl.
  unfold after_close, with_ctx. rewrite F2. cbn [Nat.eqb].
  unfold and_then, update. cbv beta iota.
  destruct G1 as [A1 U1].
  match goal with
  | |- context [sjson_Flush ?x] =>
      destruct (flush_accepting x) as (w2 & E2 & _ & Sb2 & B2 & O2);
        [unfold accepting in *; ctx_simpl; exact A1|]
  end.
  rewrite E2. exists w2. split; [reflexivity|].
  destruct (same_fields _ _ Sb2) as (H1 & H2 & H3 & H4). ctx_simpl.
  unfold ended_with. rewrite H4, H2, F2.
  repeat split; auto.
  unfold output in O2, O1, O. ctx_simpl. rewrite B2, app_nil_r in O2. rewrite O2.
  rewrite O1, O. reflexivity.
Qed.

Lemma close_all_writing n : forall stack commas out w,
  writing stack (S n) commas out w ->
  exists w', close_all (S n) w = Some (SJSON_OK, w')
    /\ ended_with (out ++ closers stack (S n)) w'.
Proof.
  induction n as [|n IH]; intros stack commas out w R;
    pose proof R as (G & W & F & D & D1 & Hs & C & O);
    pose proof W as (W1 & W2 & W3 & W4 & W5); unfold SJSON_MAX_DEPTH in *.
  - destruct (lookup_lt_is_Some_2 stack 0) as [closer T]; [rewrite <- Hs; lia|].
    destruct (close_last_writing _ _ _ _ _ R T) as (w' & E & Q).
    exists w'. cbn [close_all]. unfold with_ctx at 1. rewrite D. cbn [Nat.eqb].
    unfold and_then. rewrite E. unfold with_ctx.
    destruct Q as (Q1 & Q2 & Q3 & Q4). rewrite Q2. cbn [Nat.eqb]. split; [reflexivity|].
    unfold closers. rewrite (take_S_r _ _ _ T). cbn. repeat split; auto.
  - destruct (lookup_lt_is_Some_2 stack (S n)) as [closer T]; [rewrite <- Hs; lia|].
    replace (S (S n)) with (S n + 1) in R by lia.
    destruct (close_writing stack (S n) commas out closer ltac:(lia) T w R) as (w1 & E1 & R1).
    destruct (IH _ _ _ _ R1) as (w' & E' & Q).
    exists w'. cbn [close_all]. unfold with_ctx at 1. rewrite D.
    cbn [Nat.eqb]. unfold and_then at 1. rewrite E1. split; [exact E'|].
    unfold closers in *. rewrite (take_S_r _ _ _ T), rev_app_distr.
    cbn [rev app]. rewrite <- app_assoc in Q. exact Q.
Qed.

Lemma end_writing stack d commas out w :
  writing stack d commas out w ->
  exists w', sjson_End w = Some (SJSON_OK, w') /\ ended_with (out ++ closers stack d) w'.
Proof.
  intros R. pose proof R as (G & W & F & D & D1 & S & C & O).
  unfold sjson_End, with_ctx. rewrite F, D.
  destruct d as [|n]; [lia|]. apply (close_all_writing n _ _ _ _ R).
Qed.

(** X19.  With a sink that accepts, [sjson_End] at depth [d] writes the
    [d] closers of the open collections, innermost first, finalizes the
    context and hands all the buffered bytes to the sink. *)
Theorem end_closes_everything stack d commas out w :
  writing stack d commas out w ->
  exists w',
    sjson_End w = Some (SJSON_OK, w')
    /\ finalized (fst w') = true /\ depth (fst w') = 0
    /\ buffer (fst w') = []
    /\ delivered (snd w') = out ++ rev (firstn d stack).
Proof.
  intros R. pose proof R as (G & W & F & D & D1 & S & C & O).
  unfold sjson_End, with_ctx. rewrite F, D.
  destruct d as [|n]; [lia|].
  destruct (close_all_writing n _ _ _ _ R) as (w' & E & Q). exists w'. auto.
Qed.

Lemma object_begun_writing :
  writing (Ch.rbrace :: repeat Ch.nul 8) 1 (repeat false 9) (Ch.s "{") object_begun.
Proof.
  unfold writing, good, accepting, wf, roomy, used, output, object_begun, SJSON_MAX_DEPTH.
  cbn. repeat split; eauto; lia.
Qed.

Lemma end_closes_everything_witness :
  writing (Ch.rbrace :: repeat Ch.nul 8) 1 (repeat false 9) (Ch.s "{") object_begun
  /\ exists w',
    sjson_End object_begun = Some (SJSON_OK, w')
    /\ finalized (fst w') = true /\ depth (fst w') = 0
    /\ buffer (fst w') = []
    /\ delivered (snd w') = Ch.s "{" ++ rev (firstn 1 (Ch.rbrace :: repeat Ch.nul 8)).
Proof.
  split; [exact object_begun_writing|].
  apply (end_closes_everything _ 1 _ _ object_begun object_begun_writing).
Defined.

Lemma close_ok_spec w w' :
  Inv w -> sjson_Close w = Some (SJSON_OK, w') ->
  finalized (fst w) = false
  /\ Inv w'
  /\ (depth (fst w') = 0 -> finalized (fst w') = true /\ used (fst w') = 0)
  /\ (depth (fst w') <> 0 -> finalized (fst w') = false).
Proof.
  intros I E.
  destruct (close_spec (depth (fst w)) w (conj I eq_refl)) as (s & w1 & E1 & I1 & _).
  rewrite E in E1. injection E1 as <- <-.
  destruct I as [W _]. pose proof W as (W1 & W2 & W3 & W4 & W5).
  revert E. unfold sjson_Close, with_ctx at 1.
  destruct (finalized (fst w)) eqn:F; [discriminate|].
  destruct (depth (fst w) =? 0) eqn:E0; [discriminate|]. cbn [orb].
  unfold and_then at 1, update at 1. cbv beta iota. unfold with_ctx at 1. ctx_simpl.
  destruct (depth_stack (fst w) !! (depth (fst w) - 1)) as [closer|]; [|discriminate].
  match goal with
  | |- context [write_char closer ?x] =>
      destruct (write_any [closer] x) as (s & w1 & E1 & _ & Sb & _);
        [unfold roomy, used in *; ctx_simpl; exact W5|]
  end.
  unfold write_char. rewrite E1.
  destruct (same_fields _ _ Sb) as (F1 & F2 & F3 & F4). ctx_simpl.
  destruct s; try discriminate.
  unfold after_close, with_ctx. rewrite F2.
  destruct (depth (fst w) - 1 =? 0) eqn:Ed.
  - apply Nat.eqb_eq in Ed. unfold and_then, update. cbv beta iota.
    match goal with
    | |- context [sjson_Flush ?x] =>
        destruct (flush_any x) as (s & w2 & E2 & _ & Sb2 & _ & _ & H0 & _);
          [ctx_simpl; rewrite (same_but_buffer_callback _ _ Sb); apply W5|]
    end.
    rewrite E2. intros [= -> ->].
    destruct (same_fields _ _ Sb2) as (H1 & H2 & H3 & H4). ctx_simpl.
    rewrite H4, H2, F2, Ed.
    split; [reflexivity|]. split; [exact I1|].
    split; [intros _; split; [reflexivity | apply H0; reflexivity] | intros H; exfalso; apply H; reflexivity].
  - apply Nat.eqb_neq in Ed.
    destruct (store (needs_comma (fst w1)) (depth (fst w) - 1) true); [|discriminate].
    unfold update. intros [= <-]. ctx_simpl. rewrite F2, F4.
    split; [reflexivity|]. split; [exact I1|].
    split; [intros H; exfalso; apply Ed, H | intros _; exact F].
Qed.

Lemma close_all_ok turns : forall w w',
  Inv w -> finalized (fst w) = false ->
  close_all turns w = Some (SJSON_OK, w') ->
  depth (fst w') = 0 /\ (finalized (fst w') = true -> used (fst w') = 0).
Proof.
  induction turns as [|turns IH]; intros w w' I F; cbn [close_all]; unfold with_ctx at 1.
  - destruct (depth (fst w) =? 0) eqn:E; [|discriminate].
    apply Nat.eqb_eq in E. intros [= <-]. split; [exact E | congruence].
  - destruct (depth (fst w) =? 0) eqn:E.
    { apply Nat.eqb_eq in E. intros [= <-]. split; [exact E | congruence]. }
    unfold and_then. destruct (sjson_Close w) as [[s w1]|] eqn:EC; [|discriminate].
    destruct s; try discriminate.
    destruct (close_ok_spec _ _ I EC) as (_ & I1 & Z & NZ).
    destruct (Nat.eq_dec (depth (fst w1)) 0) as [D | D].
    + destruct (Z D) as [Z1 Z2].
      assert (C : close_all turns w1 = Some (SJSON_OK, w1)).
      { destruct turns; cbn [close_all]; unfold with_ctx; rewrite D; reflexivity. }
      rewrite C. intros [= <-]. auto.
    + apply IH; auto.
Qed.

(** X20.  After [sjson_End] has returned SJSON_OK, a second [sjson_End]
    returns SJSON_OK and changes nothing, whatever the sink. *)
Theorem end_twice w w' :
  Inv w -> sjson_End w = Some (SJSON_OK, w') ->
  sjson_End w' = Some (SJSON_OK, w').
Proof.
  intros I. pose proof I as [(W1 & W2 & W3 & W4 & Hcb & W5) _].
  unfold sjson_End at 1, with_ctx. destruct (finalized (fst w)) eqn:F.
  - intros E. destruct (flush_any w Hcb) as (s & w1 & E1 & _ & Sb & _ & _ & H0 & _).
    rewrite E in E1. injection E1 as <- <-. specialize (H0 eq_refl).
    destruct (same_fields _ _ Sb) as (F1 & F2 & F3 & F4).
    unfold sjson_End, with_ctx. rewrite F4, F. unfold sjson_Flush, with_ctx.
    rewrite H0. reflexivity.
  - intros E. destruct (close_all_ok _ _ _ I F E) as [D U].
    unfold sjson_End, with_ctx. destruct (finalized (fst w')) eqn:F'.
    + unfold sjson_Flush, with_ctx. rewrite (U eq_refl). reflexivity.
    + rewrite D. cbn [close_all]. unfold with_ctx. rewrite D. reflexivity.
Qed.

Lemma object_begun_Inv : Inv object_begun.
Proof.
  split.
  - unfold wf, roomy, used, object_begun, SJSON_MAX_DEPTH. cbn. repeat split; eauto; lia.
  - intros F. discriminate F.
Qed.

Lemma end_twice_witness :
  (Inv object_begun
   /\ sjson_End object_begun
      = Some (SJSON_OK,
              (mk_ctx [] 4 (Some always_accept) (Ch.rbrace :: repeat Ch.nul 8) 0 8
                      (repeat false 9) true, [(Ch.s "{}", true)])))
  /\ sjson_End (mk_ctx [] 4 (Some always_accept) (Ch.rbrace :: repeat Ch.nul 8) 0 8
                       (repeat false 9) true, [(Ch.s "{}", true)])
     = Some (SJSON_OK,
             (mk_ctx [] 4 (Some always_accept) (Ch.rbrace :: repeat Ch.nul 8) 0 8
                     (repeat false 9) true, [(Ch.s "{}", true)])).
Proof.
  split; [split; [exact object_begun_Inv | reflexivity]|].
  apply (end_twice object_begun _ object_begun_Inv). reflexivity.
Defined.

(** X18.  When the key and the value of [sjson_AddStringToObject] do not
    fit the 256 bytes they are formatted into, the call returns
    SJSON_ERROR_BUFFER_FULL after [add_comma_if_needed] has run: the
    separator is written and the comma flag of the object is set, and
    nothing of the member is written. *)
Theorem oversized_member_leaves_separator stack d commas out w key value :
  writing stack d commas out w ->
  stack !! (d - 1) = Some Ch.rbrace ->
  256 <= length key + length value + 5 ->
  exists w',
    sjson_AddStringToObject (Some key) (Some value) w
    = Some (SJSON_ERROR_BUFFER_FULL, w')
    /\ output w' = out ++ separator commas d
    /\ needs_comma (fst w') !! d = Some true
    /\ writing stack d (<[d := true]> commas) (out ++ separator commas d) w'.
Proof.
  intros R T L. unfold sjson_AddStringToObject.
  destruct (check_state_writing stack d commas out Ch.rbrace T w R) as (w1 & E1 & R1).
  unfold and_then at 1. unfold check_object_state. rewrite E1.
  destruct (add_comma_writing stack d commas out w1 R1) as (w2 & E2 & R2).
  unfold and_then. rewrite E2. unfold write_formatted.
  rewrite length_app, member_length, q_length.
  destruct (256 <=? length key + 3 + (length value + 2)) eqn:E;
    [|apply Nat.leb_gt in E; lia].
  exists w2. split; [reflexivity|].
  pose proof R2 as (G & W & F & D & D1 & S' & C & O).
  pose proof W as (W1 & W2 & _). unfold SJSON_MAX_DEPTH in *.
  split; [exact O|]. split; [|exact R2].
  rewrite C. apply list_lookup_insert_eq.
  pose proof R as (_ & (_ & V2 & V3 & V4 & _) & _ & Dw & _ & _ & Cw & _).
  unfold SJSON_MAX_DEPTH in *. rewrite <- Cw. lia.
Qed.

Lemma oversized_member_leaves_separator_witness :
  (writing (Ch.rbrace :: repeat Ch.nul 8) 1 (false :: true :: repeat false 7) (Ch.s "{?")
     (mk_ctx (Ch.s "{?") 4 (Some always_accept)
        (Ch.rbrace :: repeat Ch.nul 8) 1 8 (false :: true :: repeat false 7) false, [])
   /\ (Ch.rbrace :: repeat Ch.nul 8) !! (1 - 1) = Some Ch.rbrace
   /\ 256 <= length (repeat "k"%char 251) + length (Ch.s "v") + 5)
  /\ exists w',
    sjson_AddStringToObject (Some (repeat "k"%char 251)) (Some (Ch.s "v"))
      (mk_ctx (Ch.s "{?") 4 (Some always_accept)
        (Ch.rbrace :: repeat Ch.nul 8) 1 8 (false :: true :: repeat false 7) false, [])
    = Some (SJSON_ERROR_BUFFER_FULL, w')
    /\ output w' = Ch.s "{?" ++ separator (false :: true :: repeat false 7) 1
    /\ needs_comma (fst w') !! 1 = Some true
    /\ writing (Ch.rbrace :: repeat Ch.nul 8) 1
         (<[1 := true]> (false :: true :: repeat false 7))
         (Ch.s "{?" ++ separator (false :: true :: repeat false 7) 1) w'.
Proof.
  assert (R : writing (Ch.rbrace :: repeat Ch.nul 8) 1 (false :: true :: repeat false 7)
                (Ch.s "{?")
     (mk_ctx (Ch.s "{?") 4 (Some always_accept)
        (Ch.rbrace :: repeat Ch.nul 8) 1 8 (false :: true :: repeat false 7) false, [])).
  { unfold writing, good, accepting, wf, roomy, used, output, SJSON_MAX_DEPTH.
    cbn. repeat split; eauto; lia. }
  assert (L : 256 <= length (repeat "k"%char 251) + length (Ch.s "v") + 5).
  { rewrite repeat_length. cbn. lia. }
  split; [split; [exact R | split; [reflexivity | exact L]]|].
  apply (oversized_member_leaves_separator _ 1 _ _ _ (repeat "k"%char 251) (Ch.s "v") R);
    [reflexivity | exact L].
Defined.

Lemma separators_follow_nesting_witness :
  (writing (Ch.rbrace :: repeat Ch.nul 8) 1 (repeat false 9) (Ch.s "{") object_begun
   /\ (Ch.rbrace :: repeat Ch.nul 8) !! (1 - 1) = Some Ch.rbrace
   /\ 1 < SJSON_MAX_DEPTH
   /\ length (Ch.s "pos") <= 123
   /\ length (Ch.s "x") + length (Ch.s "1") + 5 < 256
   /\ length (Ch.s "y") + length (Ch.s "2") + 5 < 256
   /\ length (Ch.s "id") + length (Ch.s "a") + 5 < 256)
  /\ exists w',
    run 64 (nested_then_sibling (Ch.s "pos") (Ch.s "x") (Ch.s "1") (Ch.s "y") (Ch.s "2")
              (Ch.s "id") (Ch.s "a")) object_begun
    = Some (repeat SJSON_OK 5, w')
    /\ output w'
       = Ch.s "{" ++ separator (repeat false 9) 1 ++ member (Ch.s "pos") ++ [Ch.lbrace]
         ++ member (Ch.s "x") ++ Ch.q (Ch.s "1") ++ [Ch.comma]
         ++ member (Ch.s "y") ++ Ch.q (Ch.s "2")
         ++ [Ch.rbrace] ++ [Ch.comma] ++ member (Ch.s "id") ++ Ch.q (Ch.s "a")
    /\ depth (fst w') = 1
    /\ depth_stack (fst w') !! (1 - 1) = Some Ch.rbrace.
Proof.
  split.
  - split; [exact object_begun_writing|]. unfold SJSON_MAX_DEPTH. cbn. repeat split; lia.
  - apply (separators_follow_nesting 64 _ 1 _ _ object_begun (Ch.s "pos") (Ch.s "x")
             (Ch.s "1") (Ch.s "y") (Ch.s "2") (Ch.s "id") (Ch.s "a") object_begun_writing);
      unfold SJSON_MAX_DEPTH; cbn; try reflexivity; lia.
Defined.

Lemma int_array_as_by_hand_witness :
  (writing (Ch.rbrace :: repeat Ch.nul 8) 1 (repeat false 9) (Ch.s "{") object_begun
   /\ (Ch.rbrace :: repeat Ch.nul 8) !! (1 - 1) = Some Ch.rbrace
   /\ 1 < SJSON_MAX_DEPTH
   /\ 1 <= length (Ch.s "ids") <= 59
   /\ elements_fit (Printf.ld 64) [7; -12; 300]%Z)
  /\ exists w1 w2,
    sjson_AddIntArrayToObject 64 (Some (Ch.s "ids")) (Some [7; -12; 300]%Z) object_begun
    = Some (SJSON_OK, w1)
    /\ run 64 (array_by_hand (Ch.s "ids") [7; -12; 300]%Z) object_begun
       = Some (repeat SJSON_OK (length [7; -12; 300]%Z + 2), w2)
    /\ output w1 = output w2
    /\ output w1 = Ch.s "{" ++ separator (repeat false 9) 1 ++ member (Ch.s "ids")
                   ++ [Ch.lbracket]
                   ++ elements_text (Printf.ld 64) true [7; -12; 300]%Z ++ [Ch.rbracket]
    /\ depth (fst w1) = depth (fst w2)
    /\ needs_comma (fst w1) !! 1 = Some true
    /\ needs_comma (fst w2) !! 1 = Some true.
Proof.
  assert (F : elements_fit (Printf.ld 64) [7; -12; 300]%Z).
  { unfold elements_fit. repeat constructor; vm_compute; lia. }
  split.
  - split; [exact object_begun_writing|]. unfold SJSON_MAX_DEPTH. cbn.
    repeat split; try lia; exact F.
  - apply (int_array_as_by_hand 64 _ 1 _ _ object_begun (Ch.s "ids") [7; -12; 300]%Z
             object_begun_writing); unfold SJSON_MAX_DEPTH; cbn; try reflexivity; try lia.
    exact F.
Defined.

Lemma hands_over_refl w : hands_over w w.
Proof. exists []. rewrite app_nil_r. auto. Qed.

Lemma hands_over_trans w1 w2 w3 :
  hands_over w1 w2 -> hands_over w2 w3 -> hands_over w1 w3.
Proof.
  intros (e1 & E1 & F1) (e2 & E2 & F2). exists (e1 ++ e2).
  rewrite E2, E1, app_assoc. split; [reflexivity | apply Forall_app; auto].
Qed.

Lemma handed_ret s : always hands_over (ret s).
Proof. intros w t w'. unfold ret. intros [= <- <-]. apply hands_over_refl. Qed.

Lemma handed_undefined : always hands_over undefined.
Proof. intros w t w'. discriminate. Qed.

Lemma handed_update f : always hands_over (update f).
Proof.
  intros w t w'. unfold update. intros [= <- <-]. exists []. cbn [snd].
  rewrite app_nil_r. auto.
Qed.

Lemma handed_with_ctx f :
  (forall c, always hands_over (f c)) -> always hands_over (with_ctx f).
Proof. intros H w. apply H. Qed.

Lemma handed_bind m k :
  always hands_over m -> always hands_over k -> always hands_over (m >>> k).
Proof. apply always_bind, hands_over_trans. Qed.

Lemma handed_flush : always hands_over sjson_Flush.
Proof.
  intros [c log] s w'. unfold sjson_Flush, with_ctx, ret, undefined. cbn [fst snd].
  destruct (used c =? 0) eqn:E; [intros [= <- <-]; apply hands_over_refl|].
  apply Nat.eqb_neq in E.
  assert (N : buffer c <> []) by (intros N; apply E; unfold used; rewrite N; reflexivity).
  destruct (send_callback c) as [cb|]; [|discriminate]. cbv zeta. cbn [fst snd].
  destruct (cb log (buffer c)); intros [= <- <-];
    (eexists; cbn [snd]; split; [reflexivity|]; constructor; [exact N | constructor]).
Qed.

Ltac handed_step :=
  match goal with
  | |- always _ (ret _) => apply handed_ret
  | |- always _ undefined => apply handed_undefined
  | |- always _ (update _) => apply handed_update
  | |- always _ sjson_Flush => apply handed_flush
  | |- always _ (_ >>> _) => apply handed_bind
  | |- always _ (with_ctx _) => apply handed_with_ctx; intros ?
  | |- always _ (if ?b then _ else _) => destruct b
  | |- always _ (match ?x with _ => _ end) => destruct x
  end.

Lemma handed_write_loop turns : forall data, always hands_over (write_loop turns data).
Proof.
  induction turns as [|turns IH]; intros [|a data]; cbn [write_loop];
    repeat handed_step. apply IH.
Qed.

Lemma handed_write data : always hands_over (write data).
Proof. unfold write. repeat handed_step. apply handed_write_loop. Qed.

Lemma handed_write_formatted size text : always hands_over (write_formatted size text).
Proof. unfold write_formatted, write_str. repeat handed_step. apply handed_write. Qed.

Lemma handed_write_elements {A} (format : A -> list ascii) values : forall first,
  always hands_over (write_elements format first values).
Proof.
  induction values as [|v values IH]; intros first; cbn [write_elements].
  - apply handed_ret.
  - apply handed_bind; [apply handed_write_formatted | apply IH].
Qed.

Ltac handed_tac :=
  repeat first
    [ match goal with
      | |- always _ (write _) => apply handed_write
      | |- always _ (write_formatted _ _) => apply handed_write_formatted
      | |- always _ (write_elements _ _ _) => apply handed_write_elements
      end
    | handed_step ].

Lemma handed_close : always hands_over sjson_Close.
Proof.
  unfold sjson_Close. apply handed_with_ctx. intros c.
  destruct (finalized c || (depth c =? 0)); [apply handed_ret|].
  apply handed_bind; [apply handed_update|]. apply handed_with_ctx. intros c1.
  destruct (depth_stack c1 !! depth c1) as [closer|]; [|apply handed_undefined].
  intros w s w'. destruct (write_char closer w) as [[s1 w1]|] eqn:E; [|discriminate].
  pose proof (handed_write _ _ _ _ E) as H1.
  destruct s1.
  - intros E2. eapply hands_over_trans; [exact H1|]. revert E2.
    unfold after_close. generalize w1 s w'.
    change (always hands_over
      (with_ctx (fun c0 : sjson_context_t =>
         if depth c0 =? 0 then update (set_finalized true) >>> sjson_Flush
         else match store (needs_comma c0) (depth c0) true with
              | Some a => update (set_needs_comma a)
              | None => undefined
              end))).
    handed_tac.
  - intros [= <- <-]. destruct H1 as (e & E1 & F1). exists e. auto.
  - intros [= <- <-]. destruct H1 as (e & E1 & F1). exists e. auto.
  - intros [= <- <-]. destruct H1 as (e & E1 & F1). exists e. auto.
  - intros [= <- <-]. destruct H1 as (e & E1 & F1). exists e. auto.
Qed.

Lemma handed_close_all turns : always hands_over (close_all turns).
Proof.
  induction turns as [|turns IH]; cbn [close_all]; handed_tac.
  - apply handed_close.
  - apply IH.
Qed.

Lemma handed_call long_bits o : always hands_over (call long_bits o).
Proof.
  destruct o; cbn [call];
    unfold sjson_InitObject, sjson_InitArray, init, sjson_End,
      sjson_AddStringToObject, sjson_AddIntToObject, sjson_AddNumberToObject,
      sjson_AddFloatToObject, sjson_AddIntArrayToObject, sjson_AddFloatArrayToObject,
      sjson_AddArrayToObject, sjson_AddObjectToObject, sjson_AddRawToObject,
      sjson_AddIntToArray, sjson_AddFloatToArray, sjson_AddStringToArray,
      check_object_state, check_array_state, check_state, check_depth,
      add_comma_if_needed, push, write_char, write_str;
    try apply handed_close; handed_tac; apply handed_close_all.
Qed.

Lemma handed_run long_bits ops : forall w statuses w',
  run long_bits ops w = Some (statuses, w') -> hands_over w w'.
Proof.
  induction ops as [|o ops IH]; intros w statuses w'; cbn [run].
  - intros [= <- <-]. apply hands_over_refl.
  - destruct (call long_bits o w) as [[s w1]|] eqn:E; [|discriminate].
    destruct (run long_bits ops w1) as [[ss w2]|] eqn:E'; [|discriminate].
    intros [= <- <-]. eapply hands_over_trans; [eapply handed_call, E | eapply IH, E'].
Qed.

(** X14.  Whatever the calls, the sink's history only grows, and the
    sink is never handed an empty buffer. *)
Theorem sink_gets_no_empty_buffer long_bits ops w statuses w' :
  run long_bits ops w = Some (statuses, w') ->
  exists extra,
    snd w' = snd w ++ extra /\ Forall (fun entry => fst entry <> []) extra.
Proof. apply handed_run. Qed.

Lemma sink_gets_no_empty_buffer_witness :
  run 64 [InitObject (Some []) 2 (Some always_accept); Flush; Flush; End_] (blank, [])
  = Some ([SJSON_OK; SJSON_OK; SJSON_OK; SJSON_OK],
          (mk_ctx [] 2 (Some always_accept) (Ch.rbrace :: repeat Ch.nul 8) 0 8
                  (false :: false :: repeat false 7) true,
           [(Ch.s "{", true); (Ch.s "}", true)]))
  /\ exists extra,
    [(Ch.s "{", true); (Ch.s "}", true)] = [] ++ extra
    /\ Forall (fun entry : list ascii * bool => fst entry <> []) extra.
Proof.
  assert (E : run 64 [InitObject (Some []) 2 (Some always_accept); Flush; Flush; End_]
                (blank, [])
    = Some ([SJSON_OK; SJSON_OK; SJSON_OK; SJSON_OK],
          (mk_ctx [] 2 (Some always_accept) (Ch.rbrace :: repeat Ch.nul 8) 0 8
                  (false :: false :: repeat false 7) true,
           [(Ch.s "{", true); (Ch.s "}", true)]))) by (vm_compute; reflexivity).
  split; [exact E|].
  apply (sink_gets_no_empty_buffer 64 _ _ _ _ E).
Defined.

(** X12.  In a context that is not finalized and has a collection
    open, an Add-to-object call while the innermost open collection is
    an array, and an Add-to-array call while it is an object, return
    SJSON_ERROR_INVALID_STATE and change nothing, when the arguments of
    the call are given (its pointers not null and, for
    [sjson_AddArrayToObject], a key of 1 to 128 bytes). *)
Theorem wrong_container_is_refused long_bits o w top expected :
  finalized (fst w) = false -> depth (fst w) <> 0 ->
  depth_stack (fst w) !! (depth (fst w) - 1) = Some top ->
  arguments_given o = true ->
  expected_closer o = Some expected -> top <> expected ->
  call long_bits o w = Some (SJSON_ERROR_INVALID_STATE, w).
Proof.
  intros F D T A X N.
  assert (C : check_state expected w = Some (SJSON_ERROR_INVALID_STATE, w)).
  { unfold check_state, with_ctx. rewrite F. apply Nat.eqb_neq in D. rewrite D, T.
    apply Ascii.eqb_neq in N. rewrite N. reflexivity. }
  destruct o as [| | | | | [k|] [v|] | [k|] v | [k|] v | [k|] v | [k|] [v|] | [k|] [v|]
                 | [k|] | [k|] | [k|] [v|] | v | v | [v|]];
    try discriminate X; try discriminate A; cbn in X; injection X as <-; cbn [call];
    unfold sjson_AddStringToObject, sjson_AddIntToObject, sjson_AddNumberToObject,
      sjson_AddFloatToObject, sjson_AddIntArrayToObject, sjson_AddFloatArrayToObject,
      sjson_AddObjectToObject, sjson_AddRawToObject, sjson_AddIntToArray,
      sjson_AddFloatToArray, sjson_AddStringToArray, check_object_state, check_array_state,
      and_then; rewrite ?C; try reflexivity.
  unfold sjson_AddArrayToObject. cbn [arguments_given] in A. apply negb_true_iff in A.
  rewrite A. unfold check_object_state, and_then. rewrite C. reflexivity.
Qed.

Lemma wrong_container_is_refused_witness :
  (finalized (fst object_begun) = false /\ depth (fst object_begun) <> 0
   /\ depth_stack (fst object_begun) !! (depth (fst object_begun) - 1) = Some Ch.rbrace
   /\ arguments_given (AddIntToArray 5%Z) = true
   /\ expected_closer (AddIntToArray 5%Z) = Some Ch.rbracket
   /\ Ch.rbrace <> Ch.rbracket)
  /\ call 64 (AddIntToArray 5%Z) object_begun
     = Some (SJSON_ERROR_INVALID_STATE, object_begun).
Proof.
  assert (N : Ch.rbrace <> Ch.rbracket) by discriminate.
  assert (D : depth (fst object_begun) <> 0) by discriminate.
  split; [repeat split; assumption|].
  apply (wrong_container_is_refused 64 (AddIntToArray 5%Z) object_begun Ch.rbrace
           Ch.rbracket eq_refl D eq_refl eq_refl eq_refl N).
Defined.

(** X17.  [sjson_AddRawToObject] writes the separator, the key between
    quotes, a colon and the value as given, whatever their lengths. *)
Theorem raw_member_has_no_limit stack d commas out w key value :
  writing stack d commas out w ->
  stack !! (d - 1) = Some Ch.rbrace ->
  exists w',
    sjson_AddRawToObject (Some key) (Some value) w = Some (SJSON_OK, w')
    /\ writing stack d (<[d := true]> commas)
         (out ++ separator commas d ++ member key ++ value) w'.
Proof.
  intros R T. revert w R. unfold sjson_AddRawToObject.
  change (succeeds (writing stack d commas out)
    (check_object_state >>> add_comma_if_needed >>> write_char Ch.quote >>>
     write_str key >>> write_str [Ch.quote; Ch.colon] >>> write_str value)
    (writing stack d (<[d := true]> commas)
       (out ++ separator commas d ++ member key ++ value))).
  eapply succeeds_bind; [apply check_state_writing, T|].
  eapply succeeds_bind; [apply add_comma_writing|].
  eapply succeeds_bind; [apply write_writing|].
  eapply succeeds_bind; [apply write_writing|].
  eapply succeeds_bind; [apply write_writing|].
  replace (out ++ separator commas d ++ member key ++ value)
    with (((((out ++ separator commas d) ++ [Ch.quote]) ++ key) ++ [Ch.quote; Ch.colon])
          ++ value).
  - apply write_writing.
  - unfold member, Ch.q.
    repeat first [progress cbn [app] | rewrite <- app_assoc]. reflexivity.
Qed.

Lemma raw_member_has_no_limit_witness :
  (writing (Ch.rbrace :: repeat Ch.nul 8) 1 (repeat false 9) (Ch.s "{") object_begun
   /\ (Ch.rbrace :: repeat Ch.nul 8) !! (1 - 1) = Some Ch.rbrace)
  /\ exists w',
    sjson_AddRawToObject (Some (Ch.s "list")) (Some (repeat "7"%char 300)) object_begun
    = Some (SJSON_OK, w')
    /\ writing (Ch.rbrace :: repeat Ch.nul 8) 1 (<[1 := true]> (repeat false 9))
         (Ch.s "{" ++ separator (repeat false 9) 1 ++ member (Ch.s "list")
          ++ repeat "7"%char 300) w'.
Proof.
  split; [split; [exact object_begun_writing | reflexivity]|].
  apply (raw_member_has_no_limit _ 1 _ _ object_begun (Ch.s "list") (repeat "7"%char 300)
           object_begun_writing eq_refl).
Defined.



End WriteFacts.

(** * The writer and the scanner together *)

Module RoundTrip.
Import Parse Caller ParseSpec ParseFacts.
Import Write WriteSpec WriteFacts.
Local Open Scope nat_scope.

Lemma run_string_members long_bits stack d members : forall first commas out w,
  stack !! (d - 1) = Some Ch.rbrace ->
  plain_members members ->
  writing stack d commas out w -> commas !! d = Some (negb first) ->
  exists w' commas',
    Write.run long_bits (string_members members) w
    = Some (repeat SJSON_OK (length members), w')
    /\ writing stack d commas'
         (out ++ members_text first (quoted_values members)) w'.
Proof.
  induction members as [|m members IH]; intros first commas out w T F R C;
    cbn [string_members quoted_values map Write.run length repeat members_text].
  - exists w, commas. rewrite app_nil_r. auto.
  - inversion F as [|? ? (_ & _ & _ & F1) F2]; subst.
    destruct (add_string_writing stack d commas out (fst m) (snd m) T F1 w R)
      as (w1 & E1 & R1).
    cbn [call]. rewrite E1.
    assert (Hsep : separator commas d = if first then [] else [Ch.comma]).
    { unfold separator. rewrite C. destruct first; reflexivity. }
    rewrite Hsep in R1.
    assert (C1 : <[d := true]> commas !! d = Some (negb false)).
    { apply list_lookup_insert_eq. apply lookup_lt_Some in C. exact C. }
    destruct (IH false _ _ w1 T F2 R1 C1) as (w2 & commas' & E2 & R2).
    fold (string_members members). rewrite E2. exists w2, commas'. split; [reflexivity|].
    fold (quoted_values members). cbn [fst snd]. unfold member in R2.
    rewrite <- !app_assoc in R2. rewrite <- ?app_assoc. exact R2.
Qed.

Lemma object_of_strings_output long_bits n members :
  n <> 0 -> plain_members members ->
  exists w,
    Write.run long_bits (object_of_strings n members) (blank, [])
    = Some (repeat SJSON_OK (length members + 2), w)
    /\ delivered (snd w) = object_text (quoted_values members)
    /\ buffer (fst w) = [] /\ finalized (fst w) = true.
Proof.
  intros Hn F. unfold object_of_strings.
  destruct (init_writing Ch.lbrace Ch.rbrace [] n (blank, []) Hn ltac:(constructor))
    as (w1 & E1 & R1).
  cbn [Write.run call]. unfold sjson_InitObject. rewrite E1.
  destruct (run_string_members long_bits _ 1 members true _ _ w1
              (eq_refl : (<[0:=Ch.rbrace]> (repeat Ch.nul (SJSON_MAX_DEPTH + 1))) !! (1 - 1)
                         = Some Ch.rbrace) F R1 eq_refl)
    as (w2 & commas' & E2 & R2).
  rewrite (run_app _ _ _ _ _ _ E2). cbn [Write.run call].
  destruct (end_writing _ _ _ _ _ R2) as (w3 & E3 & F3 & D3 & B3 & O3).
  rewrite E3. exists w3. split.
  - replace (length members + 2) with (S (length members + 1)) by lia.
    cbn [repeat]. rewrite repeat_app. reflexivity.
  - split; [|auto]. rewrite O3. unfold object_text, closers. cbn [snd delivered app].
    unfold SJSON_MAX_DEPTH. cbn. reflexivity.
Qed.

Lemma members_text_length first members :
  length members <= length (members_text first members).
Proof.
  revert first. induction members as [|m members IH]; intros first; cbn [members_text length].
  - lia.
  - rewrite !length_app. specialize (IH false). unfold Ch.q. cbn [length]. lia.
Qed.

Lemma plain_is_scannable members :
  plain_members members -> scannable (quoted_values members).
Proof.
  induction 1 as [|m members (K1 & K2 & V & _) _ IH]; cbn [quoted_values map].
  - constructor.
  - constructor; [|exact IH]. cbn [fst snd]. repeat split; auto.
    left. exists (snd m). auto.
Qed.

(** X22.  An object of string members written with [sjson_InitObject],
    [sjson_AddStringToObject] and [sjson_End], with a buffer of any
    size and a sink that accepts, where every key has at most 63 bytes
    and no quote or null byte, every value no quote or backslash, and
    key and value together less than 251 bytes (so that the member fits
    the 256 bytes it is formatted into), is delivered as the text of
    one object, and the scanner, given that text, finds every member in
    order, with its key and its value between quotes, then returns
    0. *)
Theorem written_object_is_read_back long_bits n members :
  n <> 0 -> plain_members members ->
  exists w,
    Write.run long_bits (object_of_strings n members) (blank, [])
    = Some (repeat SJSON_OK (length members + 2), w)
    /\ delivered (snd w) = object_text (quoted_values members)
    /\ fst (run_as_is initial_state [delivered (snd w)])
       = found_pairs (quoted_values members) ++ [NotFound].
Proof.
  intros Hn F.
  destruct (object_of_strings_output long_bits n members Hn F) as (w & E & O & _).
  exists w. split; [exact E|]. split; [exact O|]. rewrite O.
  unfold run_as_is. cbn [Caller.run]. unfold feed.
  destruct (object_is_scanned_core (quoted_values members)
              (append_input initial_state (object_text (quoted_values members)))
              (S (length (parse_buffer (append_input initial_state
                                          (object_text (quoted_values members)))))))
    as (p' & E' & _).
  - apply initial_at_pair_start.
  - reflexivity.
  - apply plain_is_scannable, F.
  - cbn [parse_buffer append_input initial_state reset_json_parse_state app].
    unfold object_text. cbn [length]. rewrite length_app.
    pose proof (members_text_length true (quoted_values members)). lia.
  - rewrite E'. cbn [fst]. rewrite app_nil_r. reflexivity.
Qed.

Lemma written_object_is_read_back_witness :
  (3 <> 0
   /\ plain_members [(Ch.s "name", Ch.s "a,b}"); (Ch.s "unit", [])])
  /\ exists w,
    Write.run 64 (object_of_strings 3 [(Ch.s "name", Ch.s "a,b}"); (Ch.s "unit", [])])
      (blank, [])
    = Some (repeat SJSON_OK
              (length [(Ch.s "name", Ch.s "a,b}"); (Ch.s "unit", [])] + 2), w)
    /\ delivered (snd w)
       = object_text (quoted_values [(Ch.s "name", Ch.s "a,b}"); (Ch.s "unit", [])])
    /\ fst (run_as_is initial_state [delivered (snd w)])
       = found_pairs (quoted_values [(Ch.s "name", Ch.s "a,b}"); (Ch.s "unit", [])])
         ++ [NotFound].
Proof.
  assert (F : plain_members [(Ch.s "name", Ch.s "a,b}"); (Ch.s "unit", [])]).
  { constructor; [|constructor; [|constructor]]; cbn; repeat split; lia. }
  split; [split; [lia | exact F]|].
  apply (written_object_is_read_back 64 3 _ ltac:(lia) F).
Defined.

End RoundTrip.
